(** * Huffman compression (huffman.py): a shallow embedding and its properties

    The Python module is embedded function by function.  Python values are
    modelled as follows:
    - [int] is [Z]; a [bytes] object is a [list Z] whose elements lie in
      [0, 256) (the constructor [bytes(...)] is [to_bytes], which raises
      like Python does on other elements);
    - [str] is [list ascii]; the code strings are made of the characters
      '0' and '1';
    - a [dict] is an association list in insertion order, as Python dicts
      iterate in insertion order and assignment to an existing key keeps
      its position;
    - an exception is a value of [exn]; a computation that may raise has
      type [result A];
    - in-place mutation of a tree is modelled by returning the tree after
      the mutation (trees are exclusively owned: no node is shared);
    - a recursion over a tree is structural; where the recursion follows
      indices or a list instead, it carries a bound [fuel] and raises
      [RecursionError] when the bound is reached. *)

From Stdlib Require Import String Ascii ZArith List Lia Bool QArith Permutation Sorted.
Import ListNotations.

Local Open Scope Z_scope.

(** ** Exceptions and the error monad *)

Inductive exn : Type :=
| IndexError
| KeyError
| TypeError
| ValueError
| AttributeError
| OverflowError
| ZeroDivisionError
| RecursionError.

Inductive result (A : Type) : Type :=
| Ok (a : A)
| Raise (e : exn).

Arguments Ok {A} a.
Arguments Raise {A} e.

Definition bind {A B : Type} (m : result A) (k : A -> result B) : result B :=
  match m with
  | Ok a => k a
  | Raise e => Raise e
  end.

Notation "x <- m ;; k" := (bind m (fun x => k))
  (at level 61, m at next level, right associativity).
Notation "' p <- m ;; k" := (bind m (fun x => let p := x in k))
  (at level 61, p pattern, m at next level, right associativity).

(** ** Python sequences *)

Definition str : Type := list ascii.

(** A string literal. *)
Definition lit (x : string) : str := list_ascii_of_string x.

Definition len {A : Type} (l : list A) : Z := Z.of_nat (length l).

(** [l[i]] with Python's negative indices. *)
Definition py_index {A : Type} (l : list A) (i : Z) : result A :=
  let j := if i <? 0 then len l + i else i in
  if j <? 0 then Raise IndexError
  else match nth_error l (Z.to_nat j) with
       | Some a => Ok a
       | None => Raise IndexError
       end.

(** [l.pop(i)]: the element and the list without it. *)
Definition py_pop {A : Type} (l : list A) (i : Z) : result (A * list A) :=
  let j := if i <? 0 then len l + i else i in
  if j <? 0 then Raise IndexError
  else match nth_error l (Z.to_nat j) with
       | Some a => Ok (a, firstn (Z.to_nat j) l ++ skipn (S (Z.to_nat j)) l)
       | None => Raise IndexError
       end.

Definition is_byte (b : Z) : bool := (0 <=? b) && (b <? 256).

(** [bytes(lst)] on a list whose elements may be [None]. *)
Fixpoint to_bytes (l : list (option Z)) : result (list Z) :=
  match l with
  | [] => Ok []
  | None :: _ => Raise TypeError
  | Some b :: rest =>
      if is_byte b
      then (bs <- to_bytes rest ;; Ok (b :: bs))
      else Raise ValueError
  end.

(** ** Dictionaries *)

Class PyEq (A : Type) : Type := { eqb : A -> A -> bool }.

#[export] Instance PyEq_Z : PyEq Z := {| eqb := Z.eqb |}.

Fixpoint str_eqb (a b : str) : bool :=
  match a, b with
  | [], [] => true
  | x :: a', y :: b' => Ascii.eqb x y && str_eqb a' b'
  | _, _ => false
  end.

#[export] Instance PyEq_str : PyEq str := {| eqb := str_eqb |}.

(** The equality test of a key type decides equality. *)
Class PyEqLaws (A : Type) `{PyEq A} : Prop := {
  eqb_eq : forall x y : A, eqb x y = true <-> x = y
}.

Definition dict (K V : Type) : Type := list (K * V).

Fixpoint dict_get {K V : Type} `{PyEq K} (d : dict K V) (k : K) : option V :=
  match d with
  | [] => None
  | (k', v) :: d' => if eqb k' k then Some v else dict_get d' k
  end.

(** [d[k] = v]: an existing key keeps its place, a new one goes last. *)
Fixpoint dict_set {K V : Type} `{PyEq K} (d : dict K V) (k : K) (v : V) : dict K V :=
  match d with
  | [] => [(k, v)]
  | (k', v') :: d' => if eqb k' k then (k', v) :: d' else (k', v') :: dict_set d' k v
  end.

(** [d[k]] as an expression. *)
Definition dict_lookup {K V : Type} `{PyEq K} (d : dict K V) (k : K) : result V :=
  match dict_get d k with
  | Some v => Ok v
  | None => Raise KeyError
  end.

Definition keys {K V : Type} (d : dict K V) : list K := map fst d.

(** ** Nodes *)

(** Modelled from the spec: the classes [HuffmanNode] and [ReadNode] of the
    module [nodes], which huffman.py imports.  A value of [HuffmanNode] is
    what a Python variable holding a node can be: [None], or an object with
    the fields [symbol], [left], [right] and [number] (section 3 of the
    spec: a leaf carries a symbol, an internal node two children and a
    number that is unset until the numbering pass).  An object is always
    truthy, [is_leaf] holds when both children are absent, and [==]
    compares symbol, left and right, not the number. *)
Inductive HuffmanNode : Type :=
| NoneNode
| HNode (symbol : option Z) (left right : HuffmanNode) (number : option Z).

(** [HuffmanNode(symbol)] and [HuffmanNode(None, left, right)]. *)
Definition Leaf (s : Z) : HuffmanNode := HNode (Some s) NoneNode NoneNode None.
Definition Internal (l r : HuffmanNode) : HuffmanNode := HNode None l r None.

Definition is_none (t : HuffmanNode) : bool :=
  match t with NoneNode => true | HNode _ _ _ _ => false end.

(** Modelled from the spec: the method [is_leaf] of [HuffmanNode], true of
    a node without children; on [None] the call raises. *)
Definition is_leaf (t : HuffmanNode) : result bool :=
  match t with
  | NoneNode => Raise AttributeError
  | HNode _ l r _ => Ok (is_none l && is_none r)
  end.

(** Modelled from the spec: [t1 == t2] on nodes, the structural equality of
    section 8: same shape, same symbols, the numbers not compared. *)
Fixpoint node_eqb (t1 t2 : HuffmanNode) : bool :=
  match t1, t2 with
  | NoneNode, NoneNode => true
  | HNode s1 l1 r1 _, HNode s2 l2 r2 _ =>
      match s1, s2 with
      | None, None => true
      | Some a, Some b => a =? b
      | _, _ => false
      end && node_eqb l1 l2 && node_eqb r1 r2
  | _, _ => false
  end.

Record ReadNode : Type := mkReadNode {
  l_type : Z;
  l_data : Z;
  r_type : Z;
  r_data : Z
}.

(** ** Helper functions *)

Definition placeholder (n : Z) : HuffmanNode := HNode None NoneNode NoneNode (Some n).

Definition helper_node (element : ReadNode) : HuffmanNode :=
  if (l_type element =? 0) && (r_type element =? 0) then
    Internal (Leaf (l_data element)) (Leaf (r_data element))
  else if (l_type element =? 0) && (r_type element =? 1) then
    Internal (Leaf (l_data element)) (placeholder (r_data element))
  else if (l_type element =? 1) && (r_type element =? 0) then
    Internal (placeholder (l_data element)) (Leaf (r_data element))
  else
    Internal (placeholder (l_data element)) (placeholder (r_data element)).

Definition helper_generate_tree (node_lst : list ReadNode) : list HuffmanNode :=
  map helper_node node_lst.

Definition invert_dict {K V : Type} `{PyEq V} (d : dict K V) : dict V K :=
  fold_left (fun new_dict kv => dict_set new_dict (snd kv) (fst kv)) d [].

(** The working items of the tree builder: a pair of a frequency and a
    node, or of a frequency and the pair of the two items it combines. *)
Inductive item : Type :=
| ItemNode (freq : Z) (node : HuffmanNode)
| ItemPair (freq : Z) (a b : item).

Definition item_freq (i : item) : Z :=
  match i with ItemNode f _ => f | ItemPair f _ _ => f end.

Fixpoint deduct_freq (tree : item) : HuffmanNode :=
  match tree with
  | ItemNode _ node => node
  | ItemPair _ a b => Internal (deduct_freq a) (deduct_freq b)
  end.

(** [list.sort()] for a comparison [lt]: a stable insertion sort, which is
    what Python's sort computes whenever [lt] is a strict weak order. *)
Section Sort.
Context {A : Type} (lt : A -> A -> bool).

Fixpoint insert_sorted (x : A) (l : list A) : list A :=
  match l with
  | [] => [x]
  | y :: l' => if lt y x then y :: insert_sorted x l' else x :: y :: l'
  end.

Definition py_sort (l : list A) : list A := fold_right insert_sorted [] l.
End Sort.

Section SortFreq.
(** Modelled from the spec: the order [<] of [HuffmanNode], which
    [tuples.sort()] falls back on for two entries of equal frequency
    (section 4.2 leaves the tie-break to the implementation); it is taken
    as a parameter. *)
Variable node_lt : HuffmanNode -> HuffmanNode -> bool.

(** [(f1, n1) < (f2, n2)] on tuples. *)
Definition tuple_lt (a b : Z * HuffmanNode) : bool :=
  if fst a =? fst b
  then (if node_eqb (snd a) (snd b) then false else node_lt (snd a) (snd b))
  else fst a <? fst b.

Definition sort_freq (freq_dict : dict Z Z) : list (Z * HuffmanNode) :=
  py_sort tuple_lt (map (fun kv => (snd kv, Leaf (fst kv))) freq_dict).
End SortFreq.

(** ** Bits *)

Definition get_bit (byte bit_num : Z) : Z :=
  Z.shiftr (Z.land byte (Z.shiftl 1 bit_num)) bit_num.

(** [str(b)] for a bit [b]. *)
Definition str_of_bit (b : Z) : ascii :=
  if b =? 0 then "0"%char else "1"%char.

Definition byte_to_bits (byte : Z) : str :=
  map (fun bit_num => str_of_bit (get_bit byte bit_num)) [7; 6; 5; 4; 3; 2; 1; 0].

(** [int(c)] for a one-character string. *)
Definition int_of_char (c : ascii) : result Z :=
  let n := Z.of_nat (nat_of_ascii c) in
  if (48 <=? n) && (n <=? 57) then Ok (n - 48) else Raise ValueError.

Fixpoint bits_to_byte_from (pos : Z) (bits : str) : result Z :=
  match bits with
  | [] => Ok 0
  | c :: rest =>
      d <- int_of_char c ;;
      if 7 - pos <? 0 then Raise ValueError
      else (s <- bits_to_byte_from (pos + 1) rest ;; Ok (Z.shiftl d (7 - pos) + s))
  end.

Definition bits_to_byte (bits : str) : result Z := bits_to_byte_from 0 bits.

(** ** Functions for compression *)

Definition make_freq_dict (text : list Z) : dict Z Z :=
  fold_left
    (fun freq_dict element =>
       match dict_get freq_dict element with
       | Some c => dict_set freq_dict element (c + 1)
       | None => dict_set freq_dict element (0 + 1)
       end)
    text [].

Section HuffmanTree.
Variable node_lt : HuffmanNode -> HuffmanNode -> bool.

Definition freq_lt (a b : item) : bool := item_freq a <? item_freq b.

(** The inner function [internal] of [huffman_tree], for a frequency
    dictionary that does not have exactly one key.  Every call removes one
    item, so [fuel] is the length of the first list. *)
Fixpoint huffman_internal (fuel : nat) (sorted_tup : list item) : result HuffmanNode :=
  match sorted_tup with
  | [] => Ok NoneNode
  | [i] =>
      match deduct_freq i with
      | NoneNode => Raise AttributeError
      | HNode _ l r _ => Ok (HNode None l r None)
      end
  | _ :: _ :: _ =>
      match fuel with
      | O => Raise RecursionError
      | S fuel' =>
          match py_sort freq_lt sorted_tup with
          | a :: b :: remainder =>
              let comb_freq := item_freq a + item_freq b in
              huffman_internal fuel' (remainder ++ [ItemPair comb_freq a b])
          | _ => Raise IndexError
          end
      end
  end.

(** [huffman_tree].  The test [len(freq_tup) == 1], which the source
    repeats in every call of [internal], does not change between calls
    and is made once. *)
Definition huffman_tree (freq_tup : dict Z Z) : result HuffmanNode :=
  let sorted_tup := sort_freq node_lt freq_tup in
  if len freq_tup =? 1 then
    (first <- py_index sorted_tup 0 ;; Ok (snd first))
  else
    huffman_internal (length sorted_tup)
      (map (fun t => ItemNode (fst t) (snd t)) sorted_tup).
End HuffmanTree.

(** The inner function [internal] of [get_codes]: the dictionary [d] is
    threaded through the traversal. *)
Fixpoint get_codes_internal (tree : HuffmanNode) (byte : str) (d : dict Z str) : dict Z str :=
  match tree with
  | NoneNode => d
  | HNode symbol l r _ =>
      let d1 := match symbol with
                | Some s => dict_set d s byte
                | None => d
                end in
      let d2 := get_codes_internal l (byte ++ ["0"%char]) d1 in
      get_codes_internal r (byte ++ ["1"%char]) d2
  end.

Definition get_codes (tree : HuffmanNode) : dict Z str :=
  get_codes_internal tree [] [].

(** The inner function [internal] of [number_nodes]: returns the tree after
    the assignments, the returned counter and the list [l]. *)
Fixpoint number_internal (tree : HuffmanNode) (n op : Z) (l : list Z)
  : result (HuffmanNode * Z * list Z) :=
  match tree with
  | NoneNode => Raise AttributeError
  | HNode symbol lft rgt number =>
      if is_none lft && is_none rgt then Ok (tree, n, l)
      else
        let l1 := l ++ [n] in
        '(rgt', n1, l2) <- number_internal rgt (n + op) op l1 ;;
        '(lft', n2, l3) <- number_internal lft n1 op l2 ;;
        Ok (HNode symbol lft' rgt' (Some n), n2, l3)
  end.

Definition number_nodes (tree : HuffmanNode) : result HuffmanNode :=
  match tree with
  | NoneNode => Raise AttributeError
  | HNode _ lft rgt _ =>
      if negb (is_none lft) && negb (is_none rgt) then
        '(tree1, _, l) <- number_internal tree 0 1 [] ;;
        last_n <- py_index l (-1) ;;
        '(tree2, _, _) <- number_internal tree1 last_n (-1) l ;;
        Ok tree2
      else Ok tree
  end.

(** The sums [sums] and [s] of [avg_length] over the items of [codes]. *)
Fixpoint avg_sums (codes : dict Z str) (freq_dict : dict Z Z) (sums s : Z) : result (Z * Z) :=
  match codes with
  | [] => Ok (sums, s)
  | (key, value) :: rest =>
      f <- dict_lookup freq_dict key ;;
      avg_sums rest freq_dict (sums + len value * f) (s + f)
  end.

(** [round(x, 2)] in hundredths: the nearest hundredth, a tie going to the
    even one.  The float that Python returns is the double nearest to this
    decimal whenever [x] is farther from a tie than the precision of a
    double. *)
Definition round_hundredths (x : Q) : Z :=
  let n := Qnum x * 100 in
  let d := Zpos (Qden x) in
  let q := n / d in
  let r := n mod d in
  if 2 * r <? d then q
  else if d <? 2 * r then q + 1
  else if Z.even q then q else q + 1.

(** [avg_length], in hundredths. *)
Definition avg_length (tree : HuffmanNode) (freq_dict : dict Z Z) : result Z :=
  if is_none tree then Ok 0
  else
    '(sums, s) <- avg_sums (get_codes tree) freq_dict 0 0 ;;
    if s =? 0 then Raise ZeroDivisionError
    else Ok (round_hundredths (Qmake sums 1 / Qmake s 1)).

(** The quotient [sums / s] of [avg_length] before it is rounded. *)
Definition avg_length_exact (tree : HuffmanNode) (freq_dict : dict Z Z) : result Q :=
  if is_none tree then Ok (0 # 1)%Q
  else
    '(sums, s) <- avg_sums (get_codes tree) freq_dict 0 0 ;;
    if s =? 0 then Raise ZeroDivisionError
    else Ok (Qmake sums 1 / Qmake s 1)%Q.

(** [range(start, stop, step)] for a positive step, and slices. *)
Definition py_range (start stop step : Z) : list Z :=
  map (fun k => start + Z.of_nat k * step)
      (seq 0 (Z.to_nat ((stop - start + step - 1) / step))).

(** [s[a:b]] and [s[a:]] for indices that are not negative. *)
Definition slice {A : Type} (s : list A) (a b : Z) : list A :=
  firstn (Z.to_nat (b - a)) (skipn (Z.to_nat a) s).

Definition slice_from {A : Type} (s : list A) (a : Z) : list A :=
  skipn (Z.to_nat a) s.

Fixpoint concat_codes (text : list Z) (codes : dict Z str) (comp_text : str) : result str :=
  match text with
  | [] => Ok comp_text
  | i :: rest =>
      c <- dict_lookup codes i ;;
      concat_codes rest codes (comp_text ++ c)
  end.

(** [l[-1] += '0'] repeated [n] times. *)
Definition pad_last (comp_list : list str) (n : nat) : list str :=
  removelast comp_list ++ [last comp_list [] ++ repeat "0"%char n].

Fixpoint map_result {A B : Type} (f : A -> result B) (l : list A) : result (list B) :=
  match l with
  | [] => Ok []
  | a :: rest => b <- f a ;; bs <- map_result f rest ;; Ok (b :: bs)
  end.

(** The part of [generate_compressed] that follows the loop building
    [comp_text]. *)
Definition generate_compressed_groups (comp_text : str) : result (list Z) :=
  let comp_len := len comp_text in
  let end_point := comp_len - comp_len mod 8 in
  let '(stop, comp_list) :=
    fold_left
      (fun st initial =>
         let stop := initial + 8 in
         (stop, snd st ++ [slice comp_text initial stop]))
      (py_range 0 end_point 8) (0, []) in
  let comp_list :=
    if negb (eqb (slice_from comp_text stop) [])
    then comp_list ++ [slice_from comp_text stop]
    else comp_list in
  last_group <- py_index comp_list (-1) ;;
  let comp_list :=
    if negb (len last_group mod 8 =? 0)
    then pad_last comp_list (Z.to_nat (8 - len last_group))
    else comp_list in
  ret_list <- map_result bits_to_byte comp_list ;;
  to_bytes (map Some ret_list).

Definition generate_compressed (text : list Z) (codes : dict Z str) : result (list Z) :=
  comp_text <- concat_codes text codes [] ;;
  generate_compressed_groups comp_text.

Definition get_symbol (t : HuffmanNode) : result (option Z) :=
  match t with
  | NoneNode => Raise AttributeError
  | HNode s _ _ _ => Ok s
  end.

Definition get_number (t : HuffmanNode) : result (option Z) :=
  match t with
  | NoneNode => Raise AttributeError
  | HNode _ _ _ n => Ok n
  end.

(** The inner function [internal] of [tree_to_bytes]; [leaf_lst] is the
    list built so far.  The record that the last branch pushes on
    [recurse] is the one it reads back, as the calls in between pop what
    they push. *)
Fixpoint tree_to_bytes_internal (tree : HuffmanNode) (leaf_lst : list (option Z))
  : result (list (option Z)) :=
  match tree with
  | NoneNode => Raise AttributeError
  | HNode symbol lft rgt _ =>
      if is_none lft && is_none rgt then Ok (leaf_lst ++ [Some 0; symbol])
      else
        l_leaf <- is_leaf lft ;;
        r_leaf <- is_leaf rgt ;;
        l_sym <- get_symbol lft ;;
        r_sym <- get_symbol rgt ;;
        l_num <- get_number lft ;;
        r_num <- get_number rgt ;;
        match l_leaf, r_leaf with
        | true, true => Ok (leaf_lst ++ [Some 0; l_sym; Some 0; r_sym])
        | true, false =>
            lst <- tree_to_bytes_internal rgt leaf_lst ;;
            Ok (lst ++ [Some 0; l_sym; Some 1; r_num])
        | false, true =>
            lst <- tree_to_bytes_internal lft leaf_lst ;;
            Ok (lst ++ [Some 1; l_num; Some 0; r_sym])
        | false, false =>
            let record := [Some 1; l_num; Some 1; r_num] in
            lst1 <- tree_to_bytes_internal lft leaf_lst ;;
            lst2 <- tree_to_bytes_internal rgt lst1 ;;
            Ok (lst2 ++ record)
        end
  end.

Definition tree_to_bytes (tree : HuffmanNode) : result (list Z) :=
  leaf_lst <- (if is_none tree then Ok [] else tree_to_bytes_internal tree []) ;;
  to_bytes leaf_lst.

Definition num_nodes_to_bytes (tree : HuffmanNode) : result (list Z) :=
  number <- get_number tree ;;
  match number with
  | None => Raise TypeError
  | Some n => to_bytes [Some (n + 1)]
  end.

(** [size.to_bytes(4, "little")]. *)
Definition size_to_bytes (size : Z) : result (list Z) :=
  if (0 <=? size) && (size <? 2 ^ 32)
  then Ok [size mod 256; (size / 256) mod 256; (size / 65536) mod 256; (size / 16777216) mod 256]
  else Raise OverflowError.

(** [compress], from the content of [in_file] to the content of
    [out_file]. *)
Definition compress (node_lt : HuffmanNode -> HuffmanNode -> bool) (text : list Z)
  : result (list Z) :=
  let freq := make_freq_dict text in
  tree <- huffman_tree node_lt freq ;;
  let codes := get_codes tree in
  tree <- number_nodes tree ;;
  _ <- avg_length tree freq ;;
  n <- num_nodes_to_bytes tree ;;
  t <- tree_to_bytes tree ;;
  s <- size_to_bytes (len text) ;;
  let result := n ++ t ++ s in
  payload <- generate_compressed text codes ;;
  Ok (result ++ payload).

(** ** Functions for decompression *)

Definition duplicate_node (node : HuffmanNode) : result HuffmanNode :=
  match node with
  | NoneNode => Raise AttributeError
  | HNode _ l r _ => Ok (HNode None l r None)
  end.

(** [huffman_lst[number]] for the number of a placeholder. *)
Definition index_by_number {A : Type} (l : list A) (number : option Z) : result A :=
  match number with
  | None => Raise TypeError
  | Some n => py_index l n
  end.

Section GenerateTreeGeneral.
Variable huffman_lst : list HuffmanNode.

(** A child of [tree] that is not a leaf is replaced by a copy of the
    node it refers to. *)
Definition resolve_child (child : HuffmanNode) : result HuffmanNode :=
  match child with
  | NoneNode => Raise AttributeError
  | HNode None _ _ number =>
      node <- index_by_number huffman_lst number ;;
      duplicate_node node
  | HNode (Some _) _ _ _ => Ok child
  end.

(** The inner function [create_tree]; [fuel] bounds the depth of the
    recursion, which Python bounds by its recursion limit.  A copy shares
    its children with the node of [huffman_lst] it was made from, but every
    assignment is to a field of a copy, so the nodes of [huffman_lst] are
    never changed and the result of the in-place updates is the tree that
    is returned here. *)
Fixpoint create_tree (fuel : nat) (tree : HuffmanNode) : result HuffmanNode :=
  match fuel with
  | O => Raise RecursionError
  | S fuel' =>
      match tree with
      | NoneNode => Raise AttributeError
      | HNode (Some _) _ _ _ => Ok tree
      | HNode None lft rgt number =>
          lft1 <- resolve_child lft ;;
          rgt1 <- resolve_child rgt ;;
          rgt2 <- create_tree fuel' rgt1 ;;
          lft2 <- create_tree fuel' lft1 ;;
          Ok (HNode None lft2 rgt2 number)
      end
  end.
End GenerateTreeGeneral.

Definition generate_tree_general (fuel : nat) (node_lst : list ReadNode) (root_index : Z)
  : result HuffmanNode :=
  let huffman_lst := helper_generate_tree node_lst in
  root <- py_index huffman_lst root_index ;;
  tree <- duplicate_node root ;;
  create_tree huffman_lst fuel tree.

(** [not node.symbol]: the symbol is [None] or [0]. *)
Definition not_symbol (t : HuffmanNode) : result bool :=
  s <- get_symbol t ;;
  Ok (match s with None => true | Some v => v =? 0 end).

Definition get_left (t : HuffmanNode) : result HuffmanNode :=
  match t with NoneNode => Raise AttributeError | HNode _ l _ _ => Ok l end.

Definition get_right (t : HuffmanNode) : result HuffmanNode :=
  match t with NoneNode => Raise AttributeError | HNode _ _ r _ => Ok r end.

(** [not child.left.symbol or not child.right.symbol]. *)
Definition has_open_child (child : HuffmanNode) : result bool :=
  cl <- get_left child ;;
  b1 <- not_symbol cl ;;
  if b1 then Ok true
  else (cr <- get_right child ;; not_symbol cr).

(** The block that [traversal] runs for the left child and again for the
    right child: a child whose symbol is [None] or [0] is replaced by the
    first node of the list, which is traversed in turn when the list is not
    empty and one of its children is open.  [recurse] is the recursive
    call. *)
Definition traverse_child
    (recurse : HuffmanNode -> list HuffmanNode -> result (HuffmanNode * list HuffmanNode))
    (child : HuffmanNode) (huffman_lst : list HuffmanNode)
  : result (HuffmanNode * list HuffmanNode) :=
  open <- not_symbol child ;;
  if open then
    '(popped, lst) <- py_pop huffman_lst 0 ;;
    match lst with
    | [] => Ok (popped, lst)
    | _ :: _ =>
        go <- has_open_child popped ;;
        if go then recurse popped lst else Ok (popped, lst)
    end
  else Ok (child, huffman_lst).

(** The inner function [traversal] of [generate_tree_postorder]: the list
    [huffman_lst] that the calls consume is threaded through.  A call is
    made only after an element was popped, so [fuel], the length of the
    list, is never used up. *)
Fixpoint traversal (fuel : nat) (tree : HuffmanNode) (huffman_lst : list HuffmanNode)
  : result (HuffmanNode * list HuffmanNode) :=
  let recurse :=
    match fuel with
    | O => fun _ _ => Raise RecursionError
    | S fuel' => traversal fuel'
    end in
  match tree with
  | NoneNode => Ok (tree, huffman_lst)
  | HNode symbol lft rgt number =>
      match huffman_lst with
      | [] => Ok (tree, huffman_lst)
      | _ :: _ =>
          '(lft1, lst1) <- traverse_child recurse lft huffman_lst ;;
          '(rgt1, lst2) <- traverse_child recurse rgt lst1 ;;
          Ok (HNode symbol lft1 rgt1 number, lst2)
      end
  end.

Definition generate_tree_postorder (node_lst : list ReadNode) (root_index : Z)
  : result HuffmanNode :=
  let huffman_lst := helper_generate_tree node_lst in
  '(tree, huffman_lst) <- py_pop huffman_lst root_index ;;
  '(tree, _) <- traversal (length huffman_lst) tree huffman_lst ;;
  Ok tree.

(** The second loop of [generate_uncompressed]: [Some] of the list is an
    early return. *)
Fixpoint decode_bits (codes : dict str Z) (size : Z) (one_bit : str) (new_bit : str)
    (lst_byte : list Z) : list Z :=
  match one_bit with
  | [] => lst_byte
  | b :: rest =>
      let new_bit := new_bit ++ [b] in
      match dict_get codes new_bit with
      | Some symbol =>
          let lst_byte := lst_byte ++ [symbol] in
          if len lst_byte =? size then lst_byte
          else decode_bits codes size rest [] lst_byte
      | None => decode_bits codes size rest new_bit lst_byte
      end
  end.

Definition generate_uncompressed (tree : HuffmanNode) (text : list Z) (size : Z)
  : result (list Z) :=
  let codes := invert_dict (get_codes tree) in
  let one_bit := flat_map byte_to_bits text in
  to_bytes (map Some (decode_bits codes size one_bit [] [])).

Fixpoint bytes_to_nodes (buf : list Z) : result (list ReadNode) :=
  match buf with
  | [] => Ok []
  | l_type :: l_data :: r_type :: r_data :: rest =>
      lst <- bytes_to_nodes rest ;;
      Ok (mkReadNode l_type l_data r_type r_data :: lst)
  | _ => Raise IndexError
  end.

(** [int.from_bytes(buf, "little")]. *)
Fixpoint bytes_to_size (buf : list Z) : Z :=
  match buf with
  | [] => 0
  | b :: rest => b + 256 * bytes_to_size rest
  end.

(** [uncompress], from the content of [in_file] to the content of
    [out_file]. *)
Definition uncompress (fuel : nat) (data : list Z) : result (list Z) :=
  num_nodes <- py_index (firstn 1 data) 0 ;;
  let data := skipn 1 data in
  let buf := firstn (Z.to_nat (num_nodes * 4)) data in
  let data := skipn (Z.to_nat (num_nodes * 4)) data in
  node_lst <- bytes_to_nodes buf ;;
  tree <- generate_tree_general fuel node_lst (num_nodes - 1) ;;
  let size := bytes_to_size (firstn 4 data) in
  let text := skipn 4 data in
  generate_uncompressed tree text size.

(** ** The optimizer *)

(** [(v1, k1) < (v2, k2)] on tuples of integers. *)
Definition pair_lt (a b : Z * Z) : bool :=
  if fst a =? fst b then snd a <? snd b else fst a <? fst b.

(** [l.sort(reverse=True)]: Python reverses, sorts and reverses again, which
    keeps equal elements in their order. *)
Definition py_sort_reverse {A : Type} (lt : A -> A -> bool) (l : list A) : list A :=
  rev (py_sort lt (rev l)).

(** [byte.index(x)], for an [x] that is in [byte]. *)
Fixpoint list_index (x : Z) (byte : list Z) : option Z :=
  match byte with
  | [] => None
  | y :: rest =>
      if y =? x then Some 0
      else match list_index x rest with
           | Some i => Some (i + 1)
           | None => None
           end
  end.

(** [byte[i] = x] for an index in range. *)
Fixpoint list_assign (byte : list Z) (i : nat) (x : Z) : list Z :=
  match byte, i with
  | [], _ => []
  | _ :: rest, O => x :: rest
  | y :: rest, S i' => y :: list_assign rest i' x
  end.

(** The indices [il] before they are sorted. *)
Fixpoint symbol_indices (l : list (Z * Z)) (byte : list Z) : list Z :=
  match l with
  | [] => []
  | i :: rest =>
      match list_index (snd i) byte with
      | Some pos => pos :: symbol_indices rest byte
      | None => symbol_indices rest byte
      end
  end.

(** The loop [byte[il[index]] = l[index][1]]; [il] is no longer than [l]. *)
Fixpoint reassign (il : list Z) (l : list (Z * Z)) (byte : list Z) : list Z :=
  match il, l with
  | pos :: il', i :: l' => reassign il' l' (list_assign byte (Z.to_nat pos) (snd i))
  | _, _ => byte
  end.

(** [improve_tree]: the tree after the call. *)
Definition improve_tree (tree : HuffmanNode) (freq_dict : dict Z Z) : result HuffmanNode :=
  byte <- tree_to_bytes tree ;;
  let l := map (fun kv => (snd kv, fst kv)) freq_dict in
  let l := py_sort_reverse pair_lt l in
  let il := symbol_indices l byte in
  let il := py_sort Z.ltb il in
  let byte := reassign il l byte in
  n <- bytes_to_nodes byte ;;
  new_tree <- generate_tree_postorder n (len n - 1) ;;
  _ <- avg_length tree freq_dict ;;
  _ <- avg_length new_tree freq_dict ;;
  new_left <- get_left new_tree ;;
  new_right <- get_right new_tree ;;
  match tree with
  | NoneNode => Raise AttributeError
  | HNode symbol _ _ number => Ok (HNode symbol new_left new_right number)
  end.

(** * Notions used in the statements *)

(** ** Shapes of trees *)

(** Every node of the tree has both children or none. *)
Fixpoint full (t : HuffmanNode) : bool :=
  match t with
  | NoneNode => false
  | HNode _ l r _ => (is_none l && is_none r) || (full l && full r)
  end.

(** The number of nodes that have a child. *)
Fixpoint count_internal (t : HuffmanNode) : nat :=
  match t with
  | NoneNode => 0
  | HNode _ l r _ =>
      if is_none l && is_none r then 0%nat
      else S (count_internal l + count_internal r)
  end.

(** The [number] fields of the nodes that have a child, in postorder: left
    subtree, right subtree, the node itself. *)
Fixpoint postorder_numbers (t : HuffmanNode) : list (option Z) :=
  match t with
  | NoneNode => []
  | HNode _ l r n =>
      if is_none l && is_none r then []
      else postorder_numbers l ++ postorder_numbers r ++ [n]
  end.

(** The tree with the [number] of every node that has a child unset; the
    leaves are kept as they are. *)
Fixpoint unnumbered (t : HuffmanNode) : HuffmanNode :=
  match t with
  | NoneNode => NoneNode
  | HNode s l r n =>
      if is_none l && is_none r then t
      else HNode s (unnumbered l) (unnumbered r) None
  end.

(** The integers [0; 1; ...; k-1] as [number] fields. *)
Definition numbers_up_to (k : nat) : list (option Z) :=
  map (fun i => Some (Z.of_nat i)) (seq 0 k).

(** What one pass of [number_internal] assigns: a node gets [n], its right
    subtree the following numbers in steps of [op], its left subtree the
    ones after those. *)
Fixpoint label (t : HuffmanNode) (n op : Z) : HuffmanNode :=
  match t with
  | NoneNode => NoneNode
  | HNode s l r num =>
      if is_none l && is_none r then t
      else HNode s (label l (n + op * (1 + Z.of_nat (count_internal r))) op)
                   (label r (n + op) op) (Some n)
  end.

(** The numbers that one pass appends to [l]. *)
Definition visited (n op : Z) (k : nat) : list Z :=
  map (fun i => n + op * Z.of_nat i) (seq 0 k).

(** ** Symbols and decoding *)

(** The symbols that the nodes of a tree carry, in the order in which
    [get_codes] meets them. *)
Fixpoint tree_symbols (t : HuffmanNode) : list Z :=
  match t with
  | NoneNode => []
  | HNode s l r _ =>
      match s with Some x => [x] | None => [] end
      ++ tree_symbols l ++ tree_symbols r
  end.

(** Every symbol of the tree is a byte. *)
Definition byte_symbols (t : HuffmanNode) : bool :=
  forallb is_byte (tree_symbols t).

(** All the symbols that a sequence of bits holds: the loop of
    [generate_uncompressed] without the test on [size]. *)
Fixpoint decode_all_bits (codes : dict str Z) (one_bit : str) (new_bit : str)
    (lst_byte : list Z) : list Z :=
  match one_bit with
  | [] => lst_byte
  | b :: rest =>
      let new_bit := new_bit ++ [b] in
      match dict_get codes new_bit with
      | Some symbol => decode_all_bits codes rest [] (lst_byte ++ [symbol])
      | None => decode_all_bits codes rest new_bit lst_byte
      end
  end.

(** The symbols that the payload [text] holds under the codes of [tree]. *)
Definition payload_symbols (tree : HuffmanNode) (text : list Z) : list Z :=
  decode_all_bits (invert_dict (get_codes tree)) (flat_map byte_to_bits text) [] [].

(** ** Huffman trees and their serialization *)

(** A Huffman tree over bytes: a leaf carries a byte and has no child, an
    internal node carries no symbol and has two children. *)
Fixpoint huffman_shape (t : HuffmanNode) : bool :=
  match t with
  | NoneNode => false
  | HNode (Some s) NoneNode NoneNode _ => is_byte s
  | HNode None l r _ => huffman_shape l && huffman_shape r
  | HNode _ _ _ _ => false
  end.

(** The tree is numbered in postorder from [0]. *)
Definition numbered (t : HuffmanNode) : Prop :=
  postorder_numbers t = numbers_up_to (count_internal t).

(** The tree with every [number] unset: it is what [==] compares. *)
Fixpoint erase_numbers (t : HuffmanNode) : HuffmanNode :=
  match t with
  | NoneNode => NoneNode
  | HNode s l r _ => HNode s (erase_numbers l) (erase_numbers r) None
  end.

(** The number of nodes on the longest path from the root. *)
Fixpoint height (t : HuffmanNode) : nat :=
  match t with
  | NoneNode => 0
  | HNode _ l r _ => S (Nat.max (height l) (height r))
  end.

(** A node without children, and the fields of a node. *)
Definition leafb (t : HuffmanNode) : bool :=
  match t with
  | NoneNode => false
  | HNode _ l r _ => is_none l && is_none r
  end.

Definition symbol_of (t : HuffmanNode) : option Z :=
  match t with NoneNode => None | HNode s _ _ _ => s end.

Definition number_of (t : HuffmanNode) : option Z :=
  match t with NoneNode => None | HNode _ _ _ n => n end.

(** The two fields that a record holds for a child. *)
Definition child_fields (c : HuffmanNode) : Z * option Z :=
  if leafb c then (0, symbol_of c) else (1, number_of c).

(** The records of the internal nodes of a tree, in postorder. *)
Fixpoint records (t : HuffmanNode) : list (list (option Z)) :=
  match t with
  | NoneNode => []
  | HNode _ l r _ =>
      if is_none l && is_none r then []
      else records l ++ records r ++
           [[Some (fst (child_fields l)); snd (child_fields l);
             Some (fst (child_fields r)); snd (child_fields r)]]
  end.

(** The value that a record holds for a child, [0] standing for an unset
    field. *)
Definition child_data (c : HuffmanNode) : Z :=
  match snd (child_fields c) with Some z => z | None => 0 end.

(** The record of a node with the children [l] and [r], and the records of
    the internal nodes of a tree, in postorder, as [ReadNode]s. *)
Definition read_node_of (l r : HuffmanNode) : ReadNode :=
  mkReadNode (fst (child_fields l)) (child_data l)
             (fst (child_fields r)) (child_data r).

Fixpoint read_nodes (t : HuffmanNode) : list ReadNode :=
  match t with
  | NoneNode => []
  | HNode _ l r _ =>
      if is_none l && is_none r then []
      else read_nodes l ++ read_nodes r ++ [read_node_of l r]
  end.

Definition record_bytes (r : ReadNode) : list Z :=
  [l_type r; l_data r; r_type r; r_data r].

(** What [helper_generate_tree] makes of a child: the leaf, or a
    placeholder with the number of the child. *)
Definition stub (c : HuffmanNode) : HuffmanNode :=
  if leafb c then Leaf (child_data c) else placeholder (child_data c).

(** The internal nodes of the tree are numbered in postorder from [a]. *)
Fixpoint numbered_from (t : HuffmanNode) (a : nat) : Prop :=
  match t with
  | NoneNode => True
  | HNode _ l r n =>
      if is_none l && is_none r then True
      else numbered_from l a /\
           numbered_from r (a + count_internal l) /\
           n = Some (Z.of_nat (a + count_internal l + count_internal r))
  end.

(** Every internal node of the tree has a number, and [lst] holds at this
    index the node that [helper_generate_tree] makes of its record. *)
Fixpoint resolves (lst : list HuffmanNode) (t : HuffmanNode) : Prop :=
  match t with
  | NoneNode => True
  | HNode _ l r n =>
      if is_none l && is_none r then True
      else (exists k, n = Some (Z.of_nat k) /\
                      nth_error lst k = Some (Internal (stub l) (stub r))) /\
           resolves lst l /\ resolves lst r
  end.

(** The node that [create_tree] starts from for the subtree [t]: the leaf
    itself, or a copy of the node made of the record of [t]. *)
Definition seed (t : HuffmanNode) : HuffmanNode :=
  match t with
  | NoneNode => NoneNode
  | HNode _ l r _ => if leafb t then Leaf (child_data t) else Internal (stub l) (stub r)
  end.

(** ** Shapes and the trees of the examples *)

(** The depths of the leaves of a tree, from left to right, the root being
    at depth [d]. *)
Fixpoint leaf_depths_from (d : nat) (t : HuffmanNode) : list nat :=
  match t with
  | NoneNode => []
  | HNode _ l r _ =>
      if is_none l && is_none r then [d]
      else leaf_depths_from (S d) l ++ leaf_depths_from (S d) r
  end.

Definition leaf_depths (t : HuffmanNode) : list nat := leaf_depths_from 0 t.

(** The branching structure of a tree: every symbol and number unset. *)
Fixpoint shape (t : HuffmanNode) : HuffmanNode :=
  match t with
  | NoneNode => NoneNode
  | HNode _ l r _ => HNode None (shape l) (shape r) None
  end.

(** The code table of the docstring of [generate_compressed]. *)
Definition doctest_codes : dict Z str :=
  [(0, lit "0"); (1, lit "10"); (2, lit "11")].

(** A left chain with four leaves, numbered, and its records. *)
Definition chain_tree : HuffmanNode :=
  HNode None
    (HNode None (HNode None (Leaf 1) (Leaf 2) (Some 0)) (Leaf 3) (Some 1))
    (Leaf 4) (Some 2).

Definition chain_records : list ReadNode :=
  [mkReadNode 0 1 0 2; mkReadNode 1 0 0 3; mkReadNode 1 1 0 4].

(** The tree and the frequencies of the docstring of [improve_tree], and
    the tree after [number_nodes]. *)
Definition docstring_tree : HuffmanNode :=
  Internal (Internal (Leaf 99) (Leaf 100))
           (Internal (Leaf 101) (Internal (Leaf 97) (Leaf 98))).

Definition docstring_freq : dict Z Z :=
  [(97, 26); (98, 23); (99, 20); (100, 16); (101, 15)].

Definition docstring_tree_numbered : HuffmanNode :=
  HNode None
    (HNode None (Leaf 99) (Leaf 100) (Some 0))
    (HNode None (Leaf 101) (HNode None (Leaf 97) (Leaf 98) (Some 1)) (Some 2))
    (Some 3).

(** A tree with its most frequent symbol on the shortest code. *)
Definition skewed_tree : HuffmanNode :=
  HNode None (HNode None (Leaf 5) (Leaf 6) (Some 0)) (Leaf 7) (Some 1).

Definition skewed_freq : dict Z Z := [(5, 1); (6, 1); (7, 10)].

(** ** Codes *)

(** [c1] is a prefix of [c2]. *)
Definition is_prefix (c1 c2 : str) : Prop := exists rest, c2 = c1 ++ rest.

(** No code of the table is a prefix of the code of another symbol. *)
Definition prefix_free (codes : dict Z str) : Prop :=
  forall s1 c1 s2 c2,
    In (s1, c1) codes -> In (s2, c2) codes -> s1 <> s2 -> ~ is_prefix c1 c2.

(** The symbol of the node that the path [path] leads to, '0' going left
    and '1' going right. *)
Fixpoint symbol_at (t : HuffmanNode) (path : str) : option Z :=
  match t with
  | NoneNode => None
  | HNode s l r _ =>
      match path with
      | [] => s
      | c :: p =>
          if Ascii.eqb c "0"%char then symbol_at l p
          else if Ascii.eqb c "1"%char then symbol_at r p
          else None
      end
  end.

(** Only nodes without children carry a symbol. *)
Fixpoint leaf_symbols (t : HuffmanNode) : bool :=
  match t with
  | NoneNode => true
  | HNode (Some _) l r _ => is_none l && is_none r
  | HNode None l r _ => leaf_symbols l && leaf_symbols r
  end.

(** The symbols of the tree that an item of the builder stands for. *)
Definition item_symbols (i : item) : list Z := tree_symbols (deduct_freq i).

(** ** Packing *)

(** The concatenation of the codes of the symbols of [text]. *)
Definition encode (codes : dict Z str) (text : list Z) : str :=
  flat_map (fun s => match dict_get codes s with Some c => c | None => [] end) text.

(** The characters '0' and '1'. *)
Definition is_bit (c : ascii) : bool := Ascii.eqb c "0"%char || Ascii.eqb c "1"%char.

(** The key of the last entry of [d] whose value is [c]: what the inverted
    dictionary holds for [c]. *)
Fixpoint find_last {K V : Type} `{PyEq V} (c : V) (d : dict K V) : option K :=
  match d with
  | [] => None
  | (k, v) :: d' =>
      match find_last c d' with
      | Some k' => Some k'
      | None => if eqb v c then Some k else None
      end
  end.

(** A code table fit for packing and unpacking: the keys are distinct, no
    code is a prefix of the code of another symbol, and every code is a
    string of bits that is not empty. *)
Definition good_codes (codes : dict Z str) : Prop :=
  NoDup (keys codes) /\
  prefix_free codes /\
  (forall s c, In (s, c) codes -> c <> [] /\ forallb is_bit c = true).

(** ** Notions for the further properties *)

(** The characters '0' to '9', the ones that [int] accepts. *)
Definition is_digit (c : ascii) : bool :=
  let n := Z.of_nat (nat_of_ascii c) in (48 <=? n) && (n <=? 57).

(** The number of occurrences of [k] in [text]. *)
Definition occurrences (text : list Z) (k : Z) : Z :=
  Z.of_nat (count_occ Z.eq_dec text k).

(** The entries of a frequency table as [sort_freq] pairs them. *)
Definition freq_tuples (freq_dict : dict Z Z) : list (Z * HuffmanNode) :=
  map (fun kv => (snd kv, Leaf (fst kv))) freq_dict.

(** An entry of a dictionary with its key and value exchanged. *)
Definition swap_entry {K V : Type} (kv : K * V) : V * K := (snd kv, fst kv).

(** The node that a field of a record stands for: a leaf for the type [0],
    a placeholder for the type [1]. *)
Definition field_node (type data : Z) : HuffmanNode :=
  if type =? 0 then Leaf data else placeholder data.

(** A tree as the decoders build it: every node is a leaf with a symbol and
    no number, or a node without symbol or number that has two such
    subtrees; no placeholder is left. *)
Fixpoint resolved (t : HuffmanNode) : bool :=
  match t with
  | HNode (Some _) NoneNode NoneNode None => true
  | HNode None l r None => resolved l && resolved r
  | _ => false
  end.

(** A child as [helper_generate_tree] makes it: a leaf or a placeholder. *)
Definition is_stub (c : HuffmanNode) : Prop :=
  (exists d, c = Leaf d) \/ (exists n, c = placeholder n).

(** * Properties *)

#[local] Arguments Z.add : simpl never.
#[local] Arguments Z.sub : simpl never.
#[local] Arguments Z.mul : simpl never.
#[local] Arguments Z.opp : simpl never.
#[local] Arguments Z.of_nat : simpl never.
#[local] Arguments Z.to_nat : simpl never.
#[local] Arguments Z.div : simpl never.
#[local] Arguments Z.modulo : simpl never.
#[local] Arguments Z.pow : simpl never.

Lemma str_eqb_eq : forall a b, str_eqb a b = true <-> a = b.
Proof.
  induction a as [|x a IH]; destruct b as [|y b]; simpl; split;
    try congruence; try reflexivity.
  - intros H. apply andb_true_iff in H. destruct H as [H1 H2].
    apply Ascii.eqb_eq in H1. apply IH in H2. congruence.
  - intros H. inversion H; subst. apply andb_true_iff. split.
    + apply Ascii.eqb_refl.
    + apply IH. reflexivity.
Qed.

#[export] Instance PyEqLaws_Z : PyEqLaws Z.
Proof. constructor. intros x y. exact (Z.eqb_eq x y). Qed.

#[export] Instance PyEqLaws_str : PyEqLaws str.
Proof. constructor. intros x y. exact (str_eqb_eq x y). Qed.

(** ** Examples from the docstrings *)

Example get_bit_doctest : get_bit 5 2 = 1 /\ get_bit 5 1 = 0.
Proof. split; reflexivity. Qed.

Example byte_to_bits_doctest : byte_to_bits 14 = lit "00001110".
Proof. reflexivity. Qed.

Example bits_to_byte_doctest :
  bits_to_byte (lit "00000101") = Ok 5 /\
  bits_to_byte (lit "101") = Ok 160.
Proof. split; reflexivity. Qed.

Example make_freq_dict_doctest :
  make_freq_dict [65; 66; 67; 66] = [(65, 1); (66, 2); (67, 1)].
Proof. reflexivity. Qed.

Example huffman_tree_doctest :
  huffman_tree (fun _ _ => false) [(2, 6); (3, 4)] = Ok (Internal (Leaf 3) (Leaf 2)).
Proof. reflexivity. Qed.

Example get_codes_doctest :
  get_codes (Internal (Leaf 3) (Leaf 2)) =
  [(3, lit "0"); (2, lit "1")].
Proof. reflexivity. Qed.

Example number_nodes_doctest :
  number_nodes (Internal (Internal (Leaf 3) (Leaf 2)) (Internal (Leaf 9) (Leaf 10))) =
  Ok (HNode None (HNode None (Leaf 3) (Leaf 2) (Some 0))
                 (HNode None (Leaf 9) (Leaf 10) (Some 1)) (Some 2)).
Proof. reflexivity. Qed.

Example avg_length_doctest :
  avg_length (Internal (Internal (Leaf 3) (Leaf 2)) (Leaf 9)) [(3, 2); (2, 7); (9, 1)]
  = Ok 190.
Proof. reflexivity. Qed.

Example generate_compressed_doctest :
  generate_compressed [1; 2; 1; 0] doctest_codes = Ok [184] /\
  generate_compressed [1; 2; 1; 0; 2] doctest_codes = Ok [185; 128].
Proof. split; reflexivity. Qed.

Example tree_to_bytes_doctest :
  (t <- number_nodes (Internal (Leaf 3) (Leaf 2)) ;; tree_to_bytes t) = Ok [0; 3; 0; 2] /\
  (t <- number_nodes (Internal (Internal (Leaf 3) (Leaf 2)) (Leaf 5)) ;; tree_to_bytes t)
  = Ok [0; 3; 0; 2; 1; 0; 0; 5].
Proof. split; reflexivity. Qed.

Example size_to_bytes_doctest :
  size_to_bytes 300 = Ok [44; 1; 0; 0] /\ bytes_to_size [44; 1; 0; 0] = 300.
Proof. split; reflexivity. Qed.

Example generate_tree_general_doctest :
  generate_tree_general 10
    [mkReadNode 0 5 0 7; mkReadNode 0 10 0 12; mkReadNode 1 1 1 0] 2
  = Ok (Internal (Internal (Leaf 10) (Leaf 12)) (Internal (Leaf 5) (Leaf 7))).
Proof. reflexivity. Qed.

Example generate_tree_postorder_doctest :
  generate_tree_postorder
    [mkReadNode 0 5 0 7; mkReadNode 0 10 0 12; mkReadNode 1 0 1 0] 2
  = Ok (Internal (Internal (Leaf 5) (Leaf 7)) (Internal (Leaf 10) (Leaf 12))).
Proof. reflexivity. Qed.

Example bytes_to_nodes_doctest :
  bytes_to_nodes [0; 1; 0; 2] = Ok [mkReadNode 0 1 0 2].
Proof. reflexivity. Qed.

(** ** Numbering *)

Lemma full_not_none : forall t, full t = true -> is_none t = false.
Proof. destruct t; simpl; congruence. Qed.

Lemma visited_S : forall n op k,
  visited n op (S k) = n :: visited (n + op) op k.
Proof.
  intros n op k. unfold visited. simpl. f_equal.
  - lia.
  - rewrite <- seq_shift, map_map. apply map_ext. intros i. lia.
Qed.

Lemma visited_app : forall n op a b,
  visited n op (a + b) = visited n op a ++ visited (n + op * Z.of_nat a) op b.
Proof.
  intros n op a. revert n. induction a as [|a IH]; intros n b.
  - simpl. f_equal. lia.
  - replace (S a + b)%nat with (S (a + b)) by lia.
    rewrite !visited_S, IH. simpl. do 3 f_equal. lia.
Qed.

Lemma number_internal_full : forall t n op l,
  full t = true ->
  number_internal t n op l =
  Ok (label t n op, n + op * Z.of_nat (count_internal t),
      l ++ visited n op (count_internal t)).
Proof.
  induction t as [|s lft IHl rgt IHr num]; intros n op l Hf; simpl in *.
  - discriminate.
  - destruct (is_none lft && is_none rgt) eqn:Hleaf.
    + simpl. rewrite app_nil_r, Z.mul_0_r, Z.add_0_r. reflexivity.
    + simpl in Hf. apply andb_true_iff in Hf. destruct Hf as [Hfl Hfr].
      rewrite (IHr (n + op) op (l ++ [n]) Hfr). simpl.
      rewrite (IHl _ op _ Hfl). simpl.
      set (kl := count_internal lft). set (kr := count_internal rgt).
      replace (n + op + op * Z.of_nat kr) with (n + op * (1 + Z.of_nat kr)) by lia.
      replace (n + op * (1 + Z.of_nat kr) + op * Z.of_nat kl)
        with (n + op * Z.of_nat (S (kl + kr))) by lia.
      replace (((l ++ [n]) ++ visited (n + op) op kr)
                 ++ visited (n + op * (1 + Z.of_nat kr)) op kl)
        with (l ++ visited n op (S (kl + kr))); [reflexivity|].
      rewrite visited_S. replace (kl + kr)%nat with (kr + kl)%nat by lia.
      rewrite visited_app, <- !app_assoc. simpl.
      replace (n + op + op * Z.of_nat kr) with (n + op * (1 + Z.of_nat kr)) by lia.
      reflexivity.
Qed.

Lemma label_is_none : forall t n op, is_none (label t n op) = is_none t.
Proof.
  destruct t as [|s lft rgt num]; intros; simpl; [reflexivity|].
  destruct (is_none lft && is_none rgt); reflexivity.
Qed.

Lemma label_unnumbered : forall t n op, unnumbered (label t n op) = unnumbered t.
Proof.
  induction t as [|s lft IHl rgt IHr num]; intros n op; simpl.
  - reflexivity.
  - destruct (is_none lft && is_none rgt) eqn:Hleaf; simpl.
    + rewrite Hleaf. reflexivity.
    + rewrite !label_is_none, Hleaf, IHl, IHr. reflexivity.
Qed.

Lemma label_count : forall t n op, count_internal (label t n op) = count_internal t.
Proof.
  induction t as [|s lft IHl rgt IHr num]; intros n op; simpl.
  - reflexivity.
  - destruct (is_none lft && is_none rgt) eqn:Hleaf; simpl.
    + rewrite Hleaf. reflexivity.
    + rewrite !label_is_none, Hleaf, IHl, IHr. reflexivity.
Qed.

Lemma label_full : forall t n op, full (label t n op) = full t.
Proof.
  induction t as [|s lft IHl rgt IHr num]; intros n op; simpl.
  - reflexivity.
  - destruct (is_none lft && is_none rgt) eqn:Hleaf; simpl.
    + rewrite Hleaf. reflexivity.
    + rewrite !label_is_none, Hleaf, IHl, IHr. reflexivity.
Qed.

Lemma map_seq_from : forall (A : Type) (f : nat -> A) a k,
  map f (seq a k) = map (fun i => f (a + i)%nat) (seq 0 k).
Proof.
  intros A f a k. revert f. induction a as [|a IH]; intros f.
  - reflexivity.
  - rewrite <- seq_shift, map_map, IH. reflexivity.
Qed.

(** A downward pass from [m] numbers the nodes so that the postorder lists
    [m - k + 1, ..., m]. *)
Lemma postorder_label_down : forall t m,
  full t = true ->
  postorder_numbers (label t m (-1)) =
  map (fun i => Some (m - Z.of_nat (count_internal t) + 1 + Z.of_nat i))
      (seq 0 (count_internal t)).
Proof.
  induction t as [|s lft IHl rgt IHr num]; intros m Hf.
  - discriminate.
  - cbn [label postorder_numbers count_internal full] in *.
    destruct (is_none lft && is_none rgt) eqn:Hleaf.
    + cbn [postorder_numbers]. rewrite Hleaf. reflexivity.
    + cbn [postorder_numbers]. rewrite !label_is_none, Hleaf.
      cbn [orb] in Hf. apply andb_true_iff in Hf. destruct Hf as [Hfl Hfr].
      rewrite (IHl _ Hfl), (IHr _ Hfr).
      set (kl := count_internal lft). set (kr := count_internal rgt).
      replace (S (kl + kr)) with (kl + (kr + 1))%nat by lia.
      rewrite !seq_app, !map_app. cbn [seq map].
      rewrite (map_seq_from _ _ (0 + kl) kr). f_equal; [|f_equal].
      * apply map_ext. intros i. f_equal. lia.
      * apply map_ext. intros i. f_equal. lia.
      * f_equal. f_equal. lia.
Qed.

Lemma py_index_last : forall (A : Type) (l : list A) (x : A),
  py_index (l ++ [x]) (-1) = Ok x.
Proof.
  intros A l x. unfold py_index, len. cbn [Z.ltb Z.compare].
  rewrite length_app. cbn [length].
  destruct (Z.ltb_spec (Z.of_nat (length l + 1) + -1) 0) as [E|E]; [lia|].
  replace (Z.to_nat (Z.of_nat (length l + 1) + -1)) with (length l) by lia.
  rewrite nth_error_app2 by lia. rewrite Nat.sub_diag. reflexivity.
Qed.

Lemma visited_last : forall n op k,
  visited n op (S k) = visited n op k ++ [n + op * Z.of_nat k].
Proof.
  intros n op k. replace (S k) with (k + 1)%nat by lia.
  rewrite visited_app. f_equal. unfold visited. cbn [seq map]. f_equal. lia.
Qed.

Lemma label_is_leaf : forall t n op, is_leaf (label t n op) = is_leaf t.
Proof.
  destruct t as [|s lft rgt num]; intros n op; cbn [label is_leaf].
  - reflexivity.
  - destruct (is_none lft && is_none rgt) eqn:Hleaf; cbn [is_leaf].
    + rewrite Hleaf. reflexivity.
    + rewrite !label_is_none, Hleaf. reflexivity.
Qed.

Lemma label_root_number : forall t n op,
  is_leaf t = Ok false -> get_number (label t n op) = Ok (Some n).
Proof.
  destruct t as [|s lft rgt num]; intros n op H; cbn [label is_leaf] in *.
  - discriminate.
  - injection H as H. rewrite H. reflexivity.
Qed.

(** [number_nodes] makes an upward pass from [0] and a downward pass from
    the last number of the first. *)
Lemma number_nodes_label : forall t,
  full t = true ->
  is_leaf t = Ok false ->
  number_nodes t =
  Ok (label (label t 0 1) (Z.of_nat (count_internal t) - 1) (-1)).
Proof.
  intros t Hf Hleaf.
  destruct t as [|s lft rgt num]; [discriminate|].
  cbn [is_leaf] in Hleaf. injection Hleaf as Hleaf.
  assert (Hlr : is_none lft = false /\ is_none rgt = false).
  { cbn [full] in Hf. rewrite Hleaf in Hf. cbn [orb] in Hf.
    apply andb_true_iff in Hf. split; apply full_not_none; tauto. }
  destruct Hlr as [Hl Hr].
  set (t := HNode s lft rgt num) in *.
  assert (Hk : exists k, count_internal t = S k).
  { unfold t. cbn [count_internal]. rewrite Hleaf. eauto. }
  destruct Hk as [k Hk].
  assert (Hunfold : number_nodes t =
                    ('(tree1, _, l) <- number_internal t 0 1 [] ;;
                     last_n <- py_index l (-1) ;;
                     '(tree2, _, _) <- number_internal tree1 last_n (-1) l ;;
                     Ok tree2)).
  { unfold t, number_nodes. rewrite Hl, Hr. reflexivity. }
  rewrite Hunfold, (number_internal_full t 0 1 [] Hf). cbn [bind app].
  rewrite Hk, visited_last, py_index_last. cbn [bind].
  rewrite number_internal_full by (rewrite label_full; exact Hf).
  cbn [bind]. do 2 f_equal. lia.
Qed.

Lemma number_nodes_numbered : forall t,
  full t = true ->
  postorder_numbers (label (label t 0 1) (Z.of_nat (count_internal t) - 1) (-1)) =
  numbers_up_to (count_internal t).
Proof.
  intros t Hf.
  rewrite postorder_label_down by (rewrite label_full; exact Hf).
  rewrite label_count. unfold numbers_up_to.
  apply map_ext. intros i. f_equal. lia.
Qed.

(** C5: on a tree in which every node has two children or none, and whose
    root has children, [number_nodes] returns normally; it changes nothing
    but the [number] of the [k] nodes that have children (so no leaf is
    numbered), the numbers of those nodes listed in postorder (left
    subtree, right subtree, the node) are [0, 1, ..., k-1], and the root
    has the number [k-1]. *)
Theorem number_nodes_postorder : forall t,
  full t = true ->
  is_leaf t = Ok false ->
  exists t',
    number_nodes t = Ok t' /\
    unnumbered t' = unnumbered t /\
    postorder_numbers t' = numbers_up_to (count_internal t) /\
    get_number t' = Ok (Some (Z.of_nat (count_internal t) - 1)).
Proof.
  intros t Hf Hleaf.
  exists (label (label t 0 1) (Z.of_nat (count_internal t) - 1) (-1)).
  split; [|split; [|split]].
  - apply number_nodes_label; assumption.
  - rewrite !label_unnumbered. reflexivity.
  - apply number_nodes_numbered. exact Hf.
  - apply label_root_number. rewrite label_is_leaf. exact Hleaf.
Qed.

(** A witness of C5: the tree of the docstring of [number_nodes]. *)
Lemma number_nodes_postorder_witness :
  exists t',
    number_nodes (Internal (Internal (Leaf 3) (Leaf 2)) (Internal (Leaf 9) (Leaf 10)))
      = Ok t' /\
    unnumbered t' =
      unnumbered (Internal (Internal (Leaf 3) (Leaf 2)) (Internal (Leaf 9) (Leaf 10))) /\
    postorder_numbers t' = [Some 0; Some 1; Some 2] /\
    get_number t' = Ok (Some 2).
Proof.
  apply (number_nodes_postorder
           (Internal (Internal (Leaf 3) (Leaf 2)) (Internal (Leaf 9) (Leaf 10))));
    reflexivity.
Defined.

(** C10: when the root has no left child or no right child, [number_nodes]
    returns normally and leaves the tree as it is. *)
Theorem number_nodes_noop : forall symbol lft rgt number,
  is_none lft || is_none rgt = true ->
  number_nodes (HNode symbol lft rgt number) = Ok (HNode symbol lft rgt number).
Proof.
  intros symbol lft rgt number H. unfold number_nodes.
  destruct (is_none lft), (is_none rgt); simpl in *; congruence.
Qed.

(** A witness of C10: a leaf. *)
Lemma number_nodes_noop_witness : number_nodes (Leaf 5) = Ok (Leaf 5).
Proof. apply (number_nodes_noop (Some 5) NoneNode NoneNode None). reflexivity. Defined.

(** ** Packing and unpacking *)

(** C9: on the empty sequence of symbols [generate_compressed] does not
    return the empty bytes: it raises [IndexError], for [comp_list] is empty
    when its last element is read. *)
Theorem generate_compressed_empty_raises : forall codes,
  generate_compressed [] codes = Raise IndexError.
Proof. intros codes. reflexivity. Qed.

Lemma to_bytes_bytes : forall l,
  forallb is_byte l = true -> to_bytes (map Some l) = Ok l.
Proof.
  induction l as [|b l IH]; intros H; cbn [map to_bytes forallb] in *.
  - reflexivity.
  - apply andb_true_iff in H. destruct H as [Hb Hl].
    rewrite Hb, (IH Hl). reflexivity.
Qed.

Lemma dict_get_value : forall (K V : Type) `{PyEq K} (d : dict K V) k v,
  dict_get d k = Some v -> In v (map snd d).
Proof.
  intros K V E d k v. induction d as [|[k' v'] d IH]; cbn [dict_get map snd].
  - discriminate.
  - destruct (eqb k' k).
    + intros Hv. injection Hv as <-. left. reflexivity.
    + intros Hv. right. apply IH. exact Hv.
Qed.

Lemma dict_set_values : forall (K V : Type) `{PyEq K} (d : dict K V) k v x,
  In x (map snd (dict_set d k v)) -> x = v \/ In x (map snd d).
Proof.
  intros K V E d k v x. induction d as [|[k' v'] d IH]; cbn [dict_set map snd].
  - intros [Hx|[]]. left. congruence.
  - destruct (eqb k' k); cbn [map snd In].
    + intros [Hx|Hx]; [left; congruence|right; right; exact Hx].
    + intros [Hx|Hx]; [right; left; exact Hx|].
      destruct (IH Hx) as [Hv|Hd]; [left; exact Hv|right; right; exact Hd].
Qed.

Lemma dict_set_keys : forall (K V : Type) `{PyEq K} (d : dict K V) k v x,
  In x (map fst (dict_set d k v)) -> x = k \/ In x (map fst d).
Proof.
  intros K V E d k v x. induction d as [|[k' v'] d IH]; cbn [dict_set map fst].
  - intros [Hx|[]]. left. congruence.
  - destruct (eqb k' k); cbn [map fst In].
    + intros [Hx|Hx]; [right; left; exact Hx|right; right; exact Hx].
    + intros [Hx|Hx]; [right; left; exact Hx|].
      destruct (IH Hx) as [Hv|Hd]; [left; exact Hv|right; right; exact Hd].
Qed.

Lemma invert_dict_values : forall (K V : Type) `{PyEq V} (d : dict K V) x,
  In x (map snd (invert_dict d)) -> In x (map fst d).
Proof.
  intros K V E d x. unfold invert_dict.
  assert (G : forall acc,
             In x (map snd (fold_left
                              (fun new_dict kv => dict_set new_dict (snd kv) (fst kv))
                              d acc)) ->
             In x (map snd acc) \/ In x (map fst d)).
  { induction d as [|[k v] d IH]; intros acc; cbn [fold_left map fst snd In].
    - intros Hx. left. exact Hx.
    - intros Hx. destruct (IH _ Hx) as [Ha|Hd].
      + apply dict_set_values in Ha. destruct Ha as [Ha|Ha]; [right; left; congruence|].
        left. exact Ha.
      + right. right. exact Hd. }
  intros Hx. destruct (G [] Hx) as [[]|Hd]. exact Hd.
Qed.

Lemma get_codes_internal_keys : forall t byte d x,
  In x (map fst (get_codes_internal t byte d)) ->
  In x (map fst d) \/ In x (tree_symbols t).
Proof.
  induction t as [|s lft IHl rgt IHr num]; intros byte d x;
    cbn [get_codes_internal tree_symbols].
  - intros Hx. left. exact Hx.
  - intros Hx. apply IHr in Hx. destruct Hx as [Hx|Hx].
    + apply IHl in Hx. destruct Hx as [Hx|Hx].
      * destruct s as [s|].
        -- apply dict_set_keys in Hx. destruct Hx as [Hx|Hx].
           ++ right. left. congruence.
           ++ left. exact Hx.
        -- left. exact Hx.
      * right. apply in_or_app. right. apply in_or_app. left. exact Hx.
    + right. apply in_or_app. right. apply in_or_app. right. exact Hx.
Qed.

Lemma get_codes_keys : forall t x,
  In x (map fst (get_codes t)) -> In x (tree_symbols t).
Proof.
  intros t x Hx. apply get_codes_internal_keys in Hx. destruct Hx as [[]|Hx]. exact Hx.
Qed.

Lemma decode_all_bits_values : forall (P : Z -> Prop) codes one_bit new_bit lst_byte,
  (forall x, In x (map snd codes) -> P x) ->
  Forall P lst_byte ->
  Forall P (decode_all_bits codes one_bit new_bit lst_byte).
Proof.
  intros P codes one_bit. induction one_bit as [|b rest IH];
    intros new_bit lst_byte Hc Hl; cbn [decode_all_bits].
  - exact Hl.
  - destruct (dict_get codes (new_bit ++ [b])) as [symbol|] eqn:Hg.
    + apply IH; [exact Hc|]. apply Forall_app. split; [exact Hl|].
      constructor; [|constructor]. apply Hc. eapply dict_get_value. exact Hg.
    + apply IH; assumption.
Qed.

Lemma decode_all_bits_length : forall codes one_bit new_bit lst_byte,
  len lst_byte <= len (decode_all_bits codes one_bit new_bit lst_byte).
Proof.
  intros codes one_bit. induction one_bit as [|b rest IH];
    intros new_bit lst_byte; cbn [decode_all_bits].
  - lia.
  - destruct (dict_get codes (new_bit ++ [b])) as [symbol|].
    + specialize (IH [] (lst_byte ++ [symbol])). unfold len in *.
      rewrite length_app in IH. cbn [length] in IH. lia.
    + apply IH.
Qed.

(** While fewer than [size] symbols can be decoded, the loop of
    [generate_uncompressed] decodes all of them. *)
Lemma decode_bits_all : forall codes size one_bit new_bit lst_byte,
  len (decode_all_bits codes one_bit new_bit lst_byte) < size ->
  decode_bits codes size one_bit new_bit lst_byte =
  decode_all_bits codes one_bit new_bit lst_byte.
Proof.
  intros codes size one_bit. induction one_bit as [|b rest IH];
    intros new_bit lst_byte Hlt; cbn [decode_bits decode_all_bits] in *.
  - reflexivity.
  - destruct (dict_get codes (new_bit ++ [b])) as [symbol|].
    + pose proof (decode_all_bits_length codes rest [] (lst_byte ++ [symbol])) as Hle.
      destruct (Z.eqb_spec (len (lst_byte ++ [symbol])) size) as [E|E]; [lia|].
      apply IH. exact Hlt.
    + apply IH. exact Hlt.
Qed.

Lemma payload_symbols_bytes : forall tree text,
  byte_symbols tree = true -> forallb is_byte (payload_symbols tree text) = true.
Proof.
  intros tree text Hb. apply forallb_forall. apply Forall_forall.
  unfold payload_symbols.
  apply decode_all_bits_values; [|constructor].
  intros x Hx. apply invert_dict_values, get_codes_keys in Hx.
  unfold byte_symbols in Hb. rewrite forallb_forall in Hb. apply Hb. exact Hx.
Qed.

(** C8, amended: when the payload holds fewer than [size] symbols,
    [generate_uncompressed] does not fail: it returns the symbols that the
    payload holds. *)
Theorem generate_uncompressed_partial : forall tree text size,
  byte_symbols tree = true ->
  len (payload_symbols tree text) < size ->
  generate_uncompressed tree text size = Ok (payload_symbols tree text).
Proof.
  intros tree text size Hb Hlt. unfold generate_uncompressed.
  unfold payload_symbols in *. rewrite decode_bits_all by exact Hlt.
  apply to_bytes_bytes. apply (payload_symbols_bytes tree text Hb).
Qed.

(** A witness of C8, amended: one byte of payload where nine symbols are
    asked for. *)
Lemma generate_uncompressed_partial_witness :
  generate_uncompressed (Internal (Leaf 65) (Leaf 66)) [0] 9
  = Ok (payload_symbols (Internal (Leaf 65) (Leaf 66)) [0]).
Proof.
  apply (generate_uncompressed_partial (Internal (Leaf 65) (Leaf 66)) [0] 9).
  - reflexivity.
  - vm_compute. reflexivity.
Defined.

(** C8 as stated fails: the eight bits of the payload [0] hold eight
    symbols, nine are asked for, and the eight are returned. *)
Lemma generate_uncompressed_truncated :
  len (payload_symbols (Internal (Leaf 65) (Leaf 66)) [0]) < 9 /\
  generate_uncompressed (Internal (Leaf 65) (Leaf 66)) [0] 9
  = Ok [65; 65; 65; 65; 65; 65; 65; 65].
Proof. split; vm_compute; reflexivity. Qed.

(** ** Serialization *)

Lemma huffman_shape_full : forall t, huffman_shape t = true -> full t = true.
Proof.
  induction t as [|s lft IHl rgt IHr num]; cbn [huffman_shape full].
  - discriminate.
  - destruct s as [s|].
    + destruct lft; [|discriminate]. destruct rgt; [|discriminate]. reflexivity.
    + intros H. apply andb_true_iff in H. destruct H as [Hl Hr].
      rewrite (IHl Hl), (IHr Hr). apply orb_true_r.
Qed.

Lemma huffman_shape_not_none : forall t, huffman_shape t = true -> is_none t = false.
Proof. destruct t; [discriminate|reflexivity]. Qed.

Lemma node_fields : forall t,
  is_none t = false ->
  is_leaf t = Ok (leafb t) /\
  get_symbol t = Ok (symbol_of t) /\
  get_number t = Ok (number_of t).
Proof. destruct t; [discriminate|]. intros _. repeat split. Qed.

Lemma records_leaf : forall t, leafb t = true -> records t = [].
Proof.
  destruct t as [|s lft rgt num]; cbn [leafb records]; intros H.
  - reflexivity.
  - rewrite H. reflexivity.
Qed.

(** [tree_to_bytes_internal] on a tree that is not a leaf appends its
    records. *)
Lemma tree_to_bytes_internal_records : forall t leaf_lst,
  full t = true ->
  leafb t = false ->
  tree_to_bytes_internal t leaf_lst = Ok (leaf_lst ++ concat (records t)).
Proof.
  induction t as [|s lft IHl rgt IHr num]; intros leaf_lst Hf Hleaf.
  - discriminate.
  - cbn [leafb] in Hleaf.
    cbn [full] in Hf. rewrite Hleaf in Hf. cbn [orb] in Hf.
    apply andb_true_iff in Hf. destruct Hf as [Hfl Hfr].
    cbn [tree_to_bytes_internal records]. rewrite Hleaf.
    destruct (node_fields lft (full_not_none _ Hfl)) as (-> & -> & ->).
    destruct (node_fields rgt (full_not_none _ Hfr)) as (-> & -> & ->).
    cbn [bind]. unfold child_fields.
    rewrite !concat_app. cbn [concat]. rewrite app_nil_r.
    destruct (leafb lft) eqn:El; destruct (leafb rgt) eqn:Er; cbn [fst snd].
    + rewrite (records_leaf _ El), (records_leaf _ Er). reflexivity.
    + rewrite (IHr leaf_lst Hfr eq_refl), (records_leaf _ El). cbn [bind concat app].
      rewrite <- app_assoc. reflexivity.
    + rewrite (IHl leaf_lst Hfl eq_refl), (records_leaf _ Er). cbn [bind concat app].
      rewrite <- app_assoc. reflexivity.
    + rewrite (IHl leaf_lst Hfl eq_refl). cbn [bind].
      rewrite (IHr _ Hfr eq_refl). cbn [bind].
      rewrite <- !app_assoc. reflexivity.
Qed.

Lemma postorder_numbers_length : forall t,
  length (postorder_numbers t) = count_internal t.
Proof.
  induction t as [|s lft IHl rgt IHr num]; cbn [postorder_numbers count_internal].
  - reflexivity.
  - destruct (is_none lft && is_none rgt); [reflexivity|].
    rewrite !length_app, IHl, IHr. cbn [length]. lia.
Qed.

Lemma app_eq_length : forall (A : Type) (l1 l1' l2 l2' : list A),
  l1 ++ l2 = l1' ++ l2' -> length l1 = length l1' -> l1 = l1' /\ l2 = l2'.
Proof.
  intros A l1. induction l1 as [|x l1 IH]; intros [|y l1'] l2 l2' H Hl;
    cbn [app length] in *; try discriminate.
  - split; [reflexivity|exact H].
  - injection H as -> H. destruct (IH l1' l2 l2' H) as [-> ->]; [lia|].
    split; reflexivity.
Qed.

(** The postorder list of the numbers determines the numbering of every
    subtree. *)
Lemma postorder_numbered_from : forall t a,
  postorder_numbers t =
    map (fun i => Some (Z.of_nat i)) (seq a (count_internal t)) ->
  numbered_from t a.
Proof.
  induction t as [|s lft IHl rgt IHr num]; intros a;
    cbn [postorder_numbers count_internal numbered_from].
  - trivial.
  - destruct (is_none lft && is_none rgt); [trivial|].
    set (kl := count_internal lft). set (kr := count_internal rgt).
    replace (S (kl + kr)) with (kl + (kr + 1))%nat by lia.
    rewrite !seq_app, !map_app. cbn [seq map]. intros H.
    apply app_eq_length in H;
      [|rewrite postorder_numbers_length, length_map, length_seq; reflexivity].
    destruct H as [H1 H2].
    apply app_eq_length in H2;
      [|rewrite postorder_numbers_length, length_map, length_seq; reflexivity].
    destruct H2 as [H2 H3].
    split; [apply IHl; exact H1|]. split; [apply IHr; exact H2|].
    injection H3 as ->. reflexivity.
Qed.

Lemma numbered_numbered_from : forall t, numbered t -> numbered_from t 0.
Proof. intros t H. apply postorder_numbered_from. exact H. Qed.

Lemma huffman_shape_inv : forall s l r n,
  huffman_shape (HNode s l r n) = true ->
  (exists x, s = Some x /\ l = NoneNode /\ r = NoneNode /\ is_byte x = true) \/
  (s = None /\ huffman_shape l = true /\ huffman_shape r = true /\
   is_none l && is_none r = false).
Proof.
  intros s l r n H. cbn [huffman_shape] in H. destruct s as [x|].
  - left. destruct l; [|discriminate]. destruct r; [|discriminate]. eauto.
  - right. apply andb_true_iff in H. destruct H as [Hl Hr].
    rewrite (huffman_shape_not_none _ Hl). auto.
Qed.

(** The fields that a record holds for a child are set and are bytes. *)
Lemma child_fields_ok : forall c a,
  huffman_shape c = true ->
  numbered_from c a ->
  (a + count_internal c <= 256)%nat ->
  snd (child_fields c) = Some (child_data c) /\ is_byte (child_data c) = true /\
  is_byte (fst (child_fields c)) = true.
Proof.
  intros c a Hs Hn Hk. destruct c as [|s l r n]; [discriminate|].
  unfold child_data, child_fields. cbn [leafb symbol_of number_of].
  destruct (huffman_shape_inv _ _ _ _ Hs) as [(x & -> & -> & -> & Hx)|(-> & _ & _ & E)].
  - cbn [is_none andb fst snd]. auto.
  - cbn [numbered_from count_internal] in Hn, Hk. rewrite E in *.
    destruct Hn as (_ & _ & ->). cbn [fst snd]. repeat split.
    unfold is_byte. apply andb_true_iff. split; [apply Z.leb_le|apply Z.ltb_lt]; lia.
Qed.

Lemma serialize_ok : forall t a,
  huffman_shape t = true ->
  numbered_from t a ->
  (a + count_internal t <= 256)%nat ->
  concat (records t) = map Some (flat_map record_bytes (read_nodes t)) /\
  forallb is_byte (flat_map record_bytes (read_nodes t)) = true.
Proof.
  induction t as [|s lft IHl rgt IHr num]; intros a Hs Hn Hk.
  - discriminate.
  - destruct (huffman_shape_inv _ _ _ _ Hs) as [(x & -> & -> & -> & Hx)|(-> & Hl & Hr & E)].
    + split; reflexivity.
    + cbn [records read_nodes numbered_from count_internal] in *. rewrite E in *.
      destruct Hn as (Hnl & Hnr & _).
      destruct (IHl a Hl Hnl) as [IHl1 IHl2]; [lia|].
      destruct (IHr _ Hr Hnr) as [IHr1 IHr2]; [lia|].
      destruct (child_fields_ok lft a Hl Hnl) as (Fl1 & Fl2 & Fl3); [lia|].
      destruct (child_fields_ok rgt _ Hr Hnr) as (Fr1 & Fr2 & Fr3); [lia|].
      rewrite !concat_app, !flat_map_app, !map_app, !forallb_app.
      rewrite IHl1, IHr1, IHl2, IHr2, Fl1, Fr1.
      cbn [concat flat_map record_bytes read_node_of l_type l_data r_type r_data
             app map forallb].
      rewrite Fl2, Fl3, Fr2, Fr3. split; reflexivity.
Qed.

Lemma bytes_to_nodes_records : forall rs,
  bytes_to_nodes (flat_map record_bytes rs) = Ok rs.
Proof.
  induction rs as [|[a b c d] rs IH]; cbn [flat_map record_bytes app bytes_to_nodes
                                            l_type l_data r_type r_data].
  - reflexivity.
  - rewrite IH. reflexivity.
Qed.

Lemma helper_node_read_node : forall l r,
  helper_node (read_node_of l r) = Internal (stub l) (stub r).
Proof.
  intros l r. unfold helper_node, read_node_of, stub, child_data, child_fields.
  cbn [l_type l_data r_type r_data].
  destruct (leafb l), (leafb r); reflexivity.
Qed.

Lemma nth_error_middle : forall (A : Type) (pre post : list A) (x : A),
  nth_error (pre ++ x :: post) (length pre) = Some x.
Proof.
  intros A pre post x. rewrite nth_error_app2 by lia.
  rewrite Nat.sub_diag. reflexivity.
Qed.

Lemma read_nodes_length : forall t, length (read_nodes t) = count_internal t.
Proof.
  induction t as [|s lft IHl rgt IHr num]; cbn [read_nodes count_internal].
  - reflexivity.
  - destruct (is_none lft && is_none rgt); [reflexivity|].
    rewrite !length_app, IHl, IHr. cbn [length]. lia.
Qed.

(** In the list that [helper_generate_tree] makes of the records of a
    numbered tree, every internal node is found at its number. *)
Lemma numbered_resolves : forall t a pre post,
  huffman_shape t = true ->
  numbered_from t a ->
  length pre = a ->
  resolves (pre ++ helper_generate_tree (read_nodes t) ++ post) t.
Proof.
  induction t as [|s lft IHl rgt IHr num]; intros a pre post Hs Hn Hp.
  - exact I.
  - destruct (huffman_shape_inv _ _ _ _ Hs) as [(x & -> & -> & -> & Hx)|(-> & Hl & Hr & E)].
    + exact I.
    + cbn [resolves read_nodes numbered_from] in *. rewrite E in *.
      destruct Hn as (Hnl & Hnr & ->).
      unfold helper_generate_tree. rewrite !map_app. cbn [map].
      rewrite helper_node_read_node, <- !app_assoc.
      split; [|split].
      * exists (a + count_internal lft + count_internal rgt)%nat.
        split; [reflexivity|].
        set (L := map helper_node (read_nodes lft)).
        set (R := map helper_node (read_nodes rgt)).
        set (X := Internal (stub lft) (stub rgt)).
        assert (Hlist : pre ++ L ++ R ++ [X] ++ post = (pre ++ L ++ R) ++ X :: post)
          by (rewrite <- !app_assoc; reflexivity).
        rewrite Hlist.
        replace (a + count_internal lft + count_internal rgt)%nat
          with (length (pre ++ L ++ R)); [apply nth_error_middle|].
        unfold L, R. rewrite !length_app, !length_map, !read_nodes_length. lia.
      * apply (IHl a pre _ Hl Hnl Hp).
      * rewrite app_assoc.
        apply (IHr (a + count_internal lft)%nat _ _ Hr Hnr).
        rewrite length_app, length_map, Hp. f_equal. apply read_nodes_length.
Qed.

Lemma py_index_nat : forall (A : Type) (l : list A) (k : nat) (x : A),
  nth_error l k = Some x -> py_index l (Z.of_nat k) = Ok x.
Proof.
  intros A l k x H. unfold py_index.
  destruct (Z.ltb_spec (Z.of_nat k) 0) as [E|E]; [lia|].
  destruct (Z.ltb_spec (Z.of_nat k) 0) as [E'|E']; [lia|].
  rewrite Nat2Z.id, H. reflexivity.
Qed.

Lemma resolve_child_seed : forall lst c,
  huffman_shape c = true ->
  resolves lst c ->
  resolve_child lst (stub c) = Ok (seed c).
Proof.
  intros lst c Hs Hr. destruct c as [|s l r n]; [discriminate|].
  unfold stub, seed.
  destruct (huffman_shape_inv _ _ _ _ Hs) as [(x & -> & -> & -> & Hx)|(-> & _ & _ & E)].
  - reflexivity.
  - cbn [leafb resolves] in *. rewrite E in *.
    destruct Hr as ((k & -> & Hk) & _ & _).
    unfold child_data, child_fields. cbn [leafb number_of]. rewrite E. cbn [snd].
    cbn [placeholder resolve_child index_by_number].
    rewrite (py_index_nat _ _ _ _ Hk). reflexivity.
Qed.

(** [create_tree] rebuilds a subtree from its seed when the recursion may
    go as deep as the subtree is high. *)
Lemma create_tree_seed : forall lst fuel t,
  huffman_shape t = true ->
  resolves lst t ->
  (height t <= fuel)%nat ->
  create_tree lst fuel (seed t) = Ok (erase_numbers t).
Proof.
  intros lst fuel. induction fuel as [|fuel IH]; intros t Hs Hr Hh.
  - destruct t; [discriminate|]. cbn [height] in Hh. lia.
  - destruct t as [|s l r n]; [discriminate|].
    destruct (huffman_shape_inv _ _ _ _ Hs) as [(x & -> & -> & -> & Hx)|(-> & Hl & Hrr & E)].
    + reflexivity.
    + cbn [seed leafb erase_numbers resolves height] in *. rewrite E in *.
      destruct Hr as (_ & Hrl & Hrr').
      cbn [Internal create_tree].
      rewrite (resolve_child_seed lst l Hl Hrl), (resolve_child_seed lst r Hrr Hrr').
      cbn [bind].
      rewrite (IH r Hrr Hrr') by lia. cbn [bind].
      rewrite (IH l Hl Hrl) by lia. reflexivity.
Qed.

Lemma node_eqb_erase : forall t, node_eqb (erase_numbers t) t = true.
Proof.
  induction t as [|s lft IHl rgt IHr num]; cbn [erase_numbers node_eqb].
  - reflexivity.
  - rewrite IHl, IHr. destruct s as [x|]; [rewrite Z.eqb_refl|]; reflexivity.
Qed.

(** [tree_to_bytes] returns the bytes of the records. *)
Lemma tree_to_bytes_read_nodes : forall t,
  huffman_shape t = true ->
  leafb t = false ->
  numbered_from t 0 ->
  (count_internal t <= 256)%nat ->
  tree_to_bytes t = Ok (flat_map record_bytes (read_nodes t)).
Proof.
  intros t Hs Hleaf Hn Hk.
  destruct (serialize_ok t 0 Hs Hn) as [Hrec Hbytes]; [lia|].
  unfold tree_to_bytes. rewrite (huffman_shape_not_none t Hs).
  rewrite (tree_to_bytes_internal_records t [] (huffman_shape_full t Hs) Hleaf).
  cbn [bind app]. rewrite Hrec. apply to_bytes_bytes. exact Hbytes.
Qed.

(** [generate_tree_general] rebuilds the tree from its records. *)
Lemma generate_tree_general_read_nodes : forall t fuel root_number,
  huffman_shape t = true ->
  leafb t = false ->
  numbered_from t 0 ->
  (height t <= fuel)%nat ->
  number_of t = Some root_number ->
  generate_tree_general fuel (read_nodes t) root_number = Ok (erase_numbers t).
Proof.
  intros t fuel root_number Hs Hleaf Hn Hh Hroot.
  unfold generate_tree_general.
  pose proof (numbered_resolves t 0 [] [] Hs Hn eq_refl) as Hres.
  cbn [app] in Hres. rewrite app_nil_r in Hres.
  destruct t as [|s l r n]; [discriminate|].
  destruct (huffman_shape_inv _ _ _ _ Hs) as [(x & -> & -> & -> & Hx)|(-> & Hl & Hr & E)];
    [discriminate|].
  pose proof Hres as Hres'. cbn [resolves] in Hres'. rewrite E in Hres'.
  destruct Hres' as ((k & Hn' & Hnth) & _ & _).
  cbn [number_of] in Hroot. rewrite Hn' in Hroot. injection Hroot as <-.
  rewrite (py_index_nat _ _ _ _ Hnth). cbn [bind Internal duplicate_node].
  pose proof (create_tree_seed _ fuel _ Hs Hres Hh) as Hc.
  cbn [seed leafb] in Hc. rewrite E in Hc. exact Hc.
Qed.

(** C2: for a Huffman tree over bytes whose root is an internal node, that
    is numbered in postorder and has at most 256 internal nodes,
    [tree_to_bytes] and [bytes_to_nodes] return normally, and
    [generate_tree_general] at the number of the root, with a recursion
    depth of at least the height of the tree, returns the tree without its
    numbers, which is [==] to the tree: same shape, same symbols at the
    same leaves. *)
Theorem generate_tree_general_tree_to_bytes : forall t fuel root_number,
  huffman_shape t = true ->
  leafb t = false ->
  numbered t ->
  (count_internal t <= 256)%nat ->
  (height t <= fuel)%nat ->
  number_of t = Some root_number ->
  exists buf node_lst t',
    tree_to_bytes t = Ok buf /\
    bytes_to_nodes buf = Ok node_lst /\
    generate_tree_general fuel node_lst root_number = Ok t' /\
    t' = erase_numbers t /\
    node_eqb t' t = true.
Proof.
  intros t fuel root_number Hs Hleaf Hnum Hk Hh Hroot.
  pose proof (numbered_numbered_from t Hnum) as Hn.
  exists (flat_map record_bytes (read_nodes t)), (read_nodes t), (erase_numbers t).
  split; [|split; [|split; [|split]]].
  - apply tree_to_bytes_read_nodes; assumption.
  - apply bytes_to_nodes_records.
  - apply generate_tree_general_read_nodes; assumption.
  - reflexivity.
  - apply node_eqb_erase.
Qed.

(** A witness of C2: the second tree of the docstring of [tree_to_bytes],
    numbered. *)
Lemma generate_tree_general_tree_to_bytes_witness :
  exists buf node_lst t',
    tree_to_bytes (HNode None (HNode None (Leaf 3) (Leaf 2) (Some 0)) (Leaf 5) (Some 1))
      = Ok buf /\
    bytes_to_nodes buf = Ok node_lst /\
    generate_tree_general 3 node_lst 1 = Ok t' /\
    t' = erase_numbers
           (HNode None (HNode None (Leaf 3) (Leaf 2) (Some 0)) (Leaf 5) (Some 1)) /\
    node_eqb t' (HNode None (HNode None (Leaf 3) (Leaf 2) (Some 0)) (Leaf 5) (Some 1))
      = true.
Proof.
  apply (generate_tree_general_tree_to_bytes
           (HNode None (HNode None (Leaf 3) (Leaf 2) (Some 0)) (Leaf 5) (Some 1))
           3%nat 1).
  - reflexivity.
  - reflexivity.
  - reflexivity.
  - cbn [count_internal is_none andb Leaf Nat.add]. lia.
  - cbn [height Leaf Nat.max]. lia.
  - reflexivity.
Defined.

(** ** The postorder strategy and the optimizer *)

(** C3 fails on the code: [chain_tree] is numbered by [number_nodes] and
    [chain_records] is its serialization; the general strategy rebuilds the
    tree, the postorder strategy returns a tree that lacks the leaf [3],
    because it takes the first record left in the list for the left child
    of the root, where the postorder lists the deepest node first. *)
Theorem generate_tree_postorder_differs :
  number_nodes (Internal (Internal (Internal (Leaf 1) (Leaf 2)) (Leaf 3)) (Leaf 4))
    = Ok chain_tree /\
  (buf <- tree_to_bytes chain_tree ;; bytes_to_nodes buf) = Ok chain_records /\
  generate_tree_general 4 chain_records 2 = Ok (erase_numbers chain_tree) /\
  generate_tree_postorder chain_records 2
    = Ok (Internal (Internal (Leaf 1) (Leaf 2)) (Leaf 4)) /\
  node_eqb (Internal (Internal (Leaf 1) (Leaf 2)) (Leaf 4)) (erase_numbers chain_tree)
    = false.
Proof. repeat split; reflexivity. Qed.

(** C7 fails on the code: on the tree of its own docstring [improve_tree]
    raises [TypeError], as the tree is not numbered; on that tree numbered
    it returns a tree with four leaves at depth two, where the tree had
    five leaves, two of them at depth three: the symbol [101] is gone. *)
Theorem improve_tree_changes_shape :
  improve_tree docstring_tree docstring_freq = Raise TypeError /\
  number_nodes docstring_tree = Ok docstring_tree_numbered /\
  improve_tree docstring_tree_numbered docstring_freq
    = Ok (HNode None (Internal (Leaf 97) (Leaf 98)) (Internal (Leaf 99) (Leaf 100))
            (Some 3)) /\
  leaf_depths docstring_tree_numbered = [2; 2; 2; 3; 3]%nat /\
  leaf_depths (HNode None (Internal (Leaf 97) (Leaf 98)) (Internal (Leaf 99) (Leaf 100))
                 (Some 3)) = [2; 2; 2; 2]%nat /\
  shape (HNode None (Internal (Leaf 97) (Leaf 98)) (Internal (Leaf 99) (Leaf 100))
           (Some 3)) <> shape docstring_tree_numbered.
Proof. repeat split; try reflexivity. discriminate. Qed.

(** C6 fails on the code: [skewed_tree] has the symbol [7], ten times as
    frequent as the others, at depth one; [improve_tree] moves it to depth
    two, and the average length goes from 14/12 (rounded 1.17) to 23/12
    (rounded 1.92). *)
Theorem improve_tree_increases_avg_length :
  improve_tree skewed_tree skewed_freq
    = Ok (HNode None (Internal (Leaf 7) (Leaf 6)) (Leaf 5) (Some 1)) /\
  avg_length skewed_tree skewed_freq = Ok 117 /\
  avg_length (HNode None (Internal (Leaf 7) (Leaf 6)) (Leaf 5) (Some 1)) skewed_freq
    = Ok 192 /\
  avg_length_exact skewed_tree skewed_freq = Ok (14 # 12)%Q /\
  avg_length_exact (HNode None (Internal (Leaf 7) (Leaf 6)) (Leaf 5) (Some 1)) skewed_freq
    = Ok (23 # 12)%Q /\
  (14 # 12 < 23 # 12)%Q.
Proof. repeat split; reflexivity. Qed.

(** ** The code table *)

Lemma dict_set_entries : forall (K V : Type) `{PyEqLaws K} (d : dict K V) k v x,
  In x (dict_set d k v) -> x = (k, v) \/ In x d.
Proof.
  intros K V E L d k v x. induction d as [|[k' v'] d IH]; cbn [dict_set].
  - intros [Hx|[]]. left. congruence.
  - destruct (eqb k' k) eqn:Ek; cbn [In].
    + apply eqb_eq in Ek. subst k'.
      intros [Hx|Hx]; [left; congruence|right; right; exact Hx].
    + intros [Hx|Hx]; [right; left; exact Hx|].
      destruct (IH Hx) as [Hv|Hd]; [left; exact Hv|right; right; exact Hd].
Qed.

(** Every entry that [get_codes_internal] adds maps the symbol of a node to
    the path that leads to it. *)
Lemma get_codes_internal_entries : forall t byte d s c,
  In (s, c) (get_codes_internal t byte d) ->
  In (s, c) d \/ exists p, c = byte ++ p /\ symbol_at t p = Some s.
Proof.
  induction t as [|sym lft IHl rgt IHr num]; intros byte d s c;
    cbn [get_codes_internal].
  - intros H. left. exact H.
  - intros H. apply IHr in H. destruct H as [H|(p & -> & Hp)].
    + apply IHl in H. destruct H as [H|(p & -> & Hp)].
      * destruct sym as [x|].
        -- destruct (dict_set_entries Z str _ _ _ _ H) as [H'|H'].
           ++ injection H' as -> ->. right. exists []. rewrite app_nil_r. auto.
           ++ left. exact H'.
        -- left. exact H.
      * right. exists ("0"%char :: p). rewrite <- app_assoc. auto.
    + right. exists ("1"%char :: p). rewrite <- app_assoc. auto.
Qed.

Lemma get_codes_entries : forall t s c,
  In (s, c) (get_codes t) -> symbol_at t c = Some s.
Proof.
  intros t s c H. apply get_codes_internal_entries in H.
  destruct H as [[]|(p & -> & Hp)]. exact Hp.
Qed.

(** Below a node that carries a symbol there is no node. *)
Lemma symbol_at_extension : forall p t rest s1 s2,
  leaf_symbols t = true ->
  symbol_at t p = Some s1 ->
  symbol_at t (p ++ rest) = Some s2 ->
  s1 = s2.
Proof.
  induction p as [|c p IH]; intros t rest s1 s2 Hl H1 H2.
  - destruct t as [|sym l r n]; [discriminate|].
    cbn [symbol_at app] in *. subst sym. cbn [leaf_symbols] in Hl.
    apply andb_true_iff in Hl. destruct Hl as [Hnl Hnr].
    destruct l; [|discriminate]. destruct r; [|discriminate].
    destruct rest as [|c rest]; [congruence|].
    destruct (Ascii.eqb c "0"); [discriminate|].
    destruct (Ascii.eqb c "1"); discriminate.
  - destruct t as [|sym l r n]; [discriminate|].
    cbn [symbol_at app] in *. cbn [leaf_symbols] in Hl.
    destruct sym as [x|].
    + apply andb_true_iff in Hl. destruct Hl as [Hnl Hnr].
      destruct l; [|discriminate]. destruct r; [|discriminate].
      destruct (Ascii.eqb c "0"); [discriminate|].
      destruct (Ascii.eqb c "1"); discriminate.
    + apply andb_true_iff in Hl. destruct Hl as [Hll Hlr].
      destruct (Ascii.eqb c "0"); [exact (IH l rest s1 s2 Hll H1 H2)|].
      destruct (Ascii.eqb c "1"); [exact (IH r rest s1 s2 Hlr H1 H2)|discriminate].
Qed.

Lemma get_codes_prefix_free : forall t,
  leaf_symbols t = true -> prefix_free (get_codes t).
Proof.
  intros t Hl s1 c1 s2 c2 H1 H2 Hne [rest ->].
  apply get_codes_entries in H1, H2.
  apply Hne. exact (symbol_at_extension c1 t rest s1 s2 Hl H1 H2).
Qed.

(** ** The tree builder *)

Lemma insert_sorted_perm : forall (A : Type) (lt : A -> A -> bool) x l,
  Permutation (insert_sorted lt x l) (x :: l).
Proof.
  intros A lt x l. induction l as [|y l IH]; cbn [insert_sorted].
  - apply Permutation_refl.
  - destruct (lt y x).
    + apply perm_trans with (y :: x :: l).
      * apply perm_skip. exact IH.
      * apply perm_swap.
    + apply Permutation_refl.
Qed.

Lemma py_sort_perm : forall (A : Type) (lt : A -> A -> bool) l,
  Permutation (py_sort lt l) l.
Proof.
  intros A lt l. unfold py_sort. induction l as [|x l IH]; cbn [fold_right].
  - apply Permutation_refl.
  - apply perm_trans with (x :: fold_right (insert_sorted lt) [] l).
    + apply insert_sorted_perm.
    + apply perm_skip. exact IH.
Qed.

Lemma flat_map_perm : forall (A B : Type) (f : A -> list B) l l',
  Permutation l l' -> Permutation (flat_map f l) (flat_map f l').
Proof.
  intros A B f l l' H. induction H; cbn [flat_map].
  - apply Permutation_refl.
  - apply Permutation_app_head. exact IHPermutation.
  - rewrite !app_assoc. apply Permutation_app_tail. apply Permutation_app_comm.
  - eapply perm_trans; eassumption.
Qed.

Section Builder.
Variable P : HuffmanNode -> Prop.
Hypothesis P_internal : forall a b, P a -> P b -> P (Internal a b).

(** [huffman_internal] returns a tree when the recursion may go as deep as
    the list is long; the tree keeps what [Internal] preserves, and its
    symbols are those of the items. *)
Lemma huffman_internal_builds : forall fuel l,
  (length l <= S fuel)%nat ->
  (2 <= length l)%nat \/ (exists f a b, l = [ItemPair f a b]) ->
  Forall (fun i => P (deduct_freq i)) l ->
  exists t,
    huffman_internal fuel l = Ok t /\ P t /\
    Permutation (tree_symbols t) (flat_map item_symbols l).
Proof.
  induction fuel as [|fuel IH]; intros l Hlen Hcase HP.
  - destruct Hcase as [H2|(f & a & b & ->)]; [lia|].
    exists (deduct_freq (ItemPair f a b)). split; [reflexivity|].
    split; [exact (Forall_inv HP)|].
    cbn [flat_map]. rewrite app_nil_r. apply Permutation_refl.
  - destruct Hcase as [H2|(f & a & b & ->)].
    + destruct l as [|x [|y l']]; cbn [length] in H2; try lia.
      cbn [huffman_internal].
      pose proof (py_sort_perm item freq_lt (x :: y :: l')) as Hperm.
      destruct (py_sort freq_lt (x :: y :: l')) as [|a [|b remainder]] eqn:Hs.
      * apply Permutation_length in Hperm. discriminate.
      * apply Permutation_length in Hperm. discriminate.
      * assert (HPs : Forall (fun i => P (deduct_freq i)) (a :: b :: remainder)).
        { eapply Permutation_Forall; [apply Permutation_sym; exact Hperm|exact HP]. }
        pose proof (Forall_inv HPs) as Pa.
        pose proof (Forall_inv (Forall_inv_tail HPs)) as Pb.
        pose proof (Forall_inv_tail (Forall_inv_tail HPs)) as Prem.
        destruct (IH (remainder ++ [ItemPair (item_freq a + item_freq b) a b]))
          as (t & Ht & Pt & Hsym).
        -- apply Permutation_length in Hperm. cbn [length] in *.
           rewrite length_app. cbn [length]. lia.
        -- destruct remainder as [|c remainder].
           ++ right. do 3 eexists. reflexivity.
           ++ left. cbn [app length]. rewrite length_app. cbn [length]. lia.
        -- apply Forall_app. split; [exact Prem|].
           constructor; [|constructor]. cbn [deduct_freq]. apply P_internal; assumption.
        -- exists t. split; [exact Ht|]. split; [exact Pt|].
           eapply perm_trans; [exact Hsym|].
           eapply perm_trans; [|apply flat_map_perm; exact Hperm].
           assert (Hpair : item_symbols (ItemPair (item_freq a + item_freq b) a b)
                           = item_symbols a ++ item_symbols b) by reflexivity.
           rewrite flat_map_app. cbn [flat_map]. rewrite Hpair, app_nil_r.
           eapply perm_trans; [apply Permutation_app_comm|].
           rewrite <- app_assoc. apply Permutation_refl.
    + exists (deduct_freq (ItemPair f a b)). split; [reflexivity|].
      split; [exact (Forall_inv HP)|].
      cbn [flat_map]. rewrite app_nil_r. apply Permutation_refl.
Qed.

(** [huffman_tree] returns a tree for a dictionary with two keys or more;
    its symbols are the keys. *)
Lemma huffman_tree_builds : forall node_lt freq_dict,
  (2 <= length freq_dict)%nat ->
  (forall k, In k (keys freq_dict) -> P (Leaf k)) ->
  exists t,
    huffman_tree node_lt freq_dict = Ok t /\ P t /\
    Permutation (tree_symbols t) (keys freq_dict).
Proof.
  intros node_lt freq_dict Hlen Hleaf. unfold huffman_tree.
  destruct (Z.eqb_spec (len freq_dict) 1) as [E|_]; [unfold len in E; lia|].
  set (tuples := map (fun kv : Z * Z => (snd kv, Leaf (fst kv))) freq_dict).
  assert (Hperm : Permutation (sort_freq node_lt freq_dict) tuples)
    by apply py_sort_perm.
  set (items := map (fun t : Z * HuffmanNode => ItemNode (fst t) (snd t))
                    (sort_freq node_lt freq_dict)).
  assert (Hitems : Permutation items
                     (map (fun kv : Z * Z => ItemNode (snd kv) (Leaf (fst kv))) freq_dict)).
  { unfold items. eapply perm_trans; [apply Permutation_map; exact Hperm|].
    unfold tuples. rewrite map_map. apply Permutation_refl. }
  destruct (huffman_internal_builds (length (sort_freq node_lt freq_dict)) items)
    as (t & Ht & Pt & Hsym).
  - unfold items. rewrite length_map. lia.
  - left. apply Permutation_length in Hitems. rewrite Hitems, length_map. exact Hlen.
  - eapply Permutation_Forall; [apply Permutation_sym; exact Hitems|].
    apply Forall_forall. intros i Hi. apply in_map_iff in Hi.
    destruct Hi as ([k v] & <- & Hkv). cbn [deduct_freq fst snd].
    apply Hleaf. unfold keys. apply in_map_iff. exists (k, v). auto.
  - exists t. split; [exact Ht|]. split; [exact Pt|].
    eapply perm_trans; [exact Hsym|].
    eapply perm_trans; [apply flat_map_perm; exact Hitems|].
    unfold keys. clear. induction freq_dict as [|[k v] d IH]; cbn [map flat_map].
    + apply Permutation_refl.
    + unfold item_symbols at 1. cbn [deduct_freq Leaf tree_symbols app fst snd].
      apply perm_skip. exact IH.
Qed.
End Builder.

(** C4: for a frequency table with two symbols or more, [huffman_tree]
    returns a tree, and no code that [get_codes] derives from it is a prefix
    of the code of another symbol. *)
Theorem huffman_tree_prefix_free : forall node_lt freq_dict,
  (2 <= length freq_dict)%nat ->
  exists t,
    huffman_tree node_lt freq_dict = Ok t /\ prefix_free (get_codes t).
Proof.
  intros node_lt freq_dict Hlen.
  destruct (huffman_tree_builds (fun t => leaf_symbols t = true)) 
    with (node_lt := node_lt) (freq_dict := freq_dict) as (t & Ht & Pt & _).
  - intros a b Ha Hb. cbn [Internal leaf_symbols]. rewrite Ha, Hb. reflexivity.
  - exact Hlen.
  - intros k _. reflexivity.
  - exists t. split; [exact Ht|]. apply get_codes_prefix_free. exact Pt.
Qed.

(** A witness of C4: the frequency table of the docstring of
    [make_freq_dict]. *)
Lemma huffman_tree_prefix_free_witness :
  exists t,
    huffman_tree (fun _ _ => false) [(65, 1); (66, 2); (67, 1)] = Ok t /\
    prefix_free (get_codes t).
Proof.
  apply (huffman_tree_prefix_free (fun _ _ => false) [(65, 1); (66, 2); (67, 1)]).
  cbn [length]. lia.
Defined.

(** ** Dictionaries *)

Lemma eqb_refl : forall (A : Type) `{PyEqLaws A} (x : A), eqb x x = true.
Proof. intros A E L x. apply eqb_eq. reflexivity. Qed.

Lemma eqb_neq : forall (A : Type) `{PyEqLaws A} (x y : A), x <> y -> eqb x y = false.
Proof.
  intros A E L x y Hne. destruct (eqb x y) eqn:Exy; [|reflexivity].
  apply eqb_eq in Exy. contradiction.
Qed.

Lemma dict_get_set : forall (K V : Type) `{PyEqLaws K} (d : dict K V) k v k',
  dict_get (dict_set d k v) k' = if eqb k k' then Some v else dict_get d k'.
Proof.
  intros K V E L d k v k'. induction d as [|[k0 v0] d IH]; cbn [dict_set dict_get].
  - reflexivity.
  - destruct (eqb k0 k) eqn:E0; cbn [dict_get].
    + apply eqb_eq in E0. subst k0. destruct (eqb k k'); reflexivity.
    + destruct (eqb k0 k') eqn:E1.
      * apply eqb_eq in E1. subst k0.
        assert (Hne : k <> k').
        { intros ->. rewrite (eqb_refl _ k') in E0. discriminate. }
        rewrite (eqb_neq _ _ _ Hne). reflexivity.
      * exact IH.
Qed.

Lemma dict_get_in : forall (K V : Type) `{PyEqLaws K} (d : dict K V) k v,
  dict_get d k = Some v -> In (k, v) d.
Proof.
  intros K V E L d k v. induction d as [|[k0 v0] d IH]; cbn [dict_get].
  - discriminate.
  - destruct (eqb k0 k) eqn:E0.
    + apply eqb_eq in E0. subst k0. intros H. injection H as ->. left. reflexivity.
    + intros H. right. apply IH. exact H.
Qed.

Lemma in_dict_get : forall (K V : Type) `{PyEqLaws K} (d : dict K V) k v,
  NoDup (keys d) -> In (k, v) d -> dict_get d k = Some v.
Proof.
  intros K V E L d k v. induction d as [|[k0 v0] d IH]; cbn [dict_get keys map fst].
  - intros _ [].
  - intros Hnd [Hin|Hin].
    + injection Hin as -> ->. rewrite (eqb_refl _ k). reflexivity.
    + destruct (eqb k0 k) eqn:E0.
      * apply eqb_eq in E0. subst k0. apply NoDup_cons_iff in Hnd.
        destruct Hnd as [Hnot _]. exfalso. apply Hnot.
        apply in_map_iff. exists (k, v). auto.
      * apply IH; [|exact Hin]. apply NoDup_cons_iff in Hnd. tauto.
Qed.

Lemma invert_dict_get : forall (K V : Type) `{PyEqLaws V} (d : dict K V) acc c,
  dict_get (fold_left (fun new_dict kv => dict_set new_dict (snd kv) (fst kv)) d acc) c =
  match find_last c d with
  | Some k => Some k
  | None => dict_get acc c
  end.
Proof.
  intros K V E L d. induction d as [|[k v] d IH]; intros acc c;
    cbn [fold_left find_last fst snd].
  - reflexivity.
  - rewrite IH. destruct (find_last c d); [reflexivity|].
    rewrite (dict_get_set V K). destruct (eqb v c); reflexivity.
Qed.

Lemma find_last_in : forall (K V : Type) `{PyEqLaws V} (d : dict K V) c k,
  find_last c d = Some k -> In (k, c) d.
Proof.
  intros K V E L d c k. induction d as [|[k0 v0] d IH]; cbn [find_last].
  - discriminate.
  - destruct (find_last c d) as [k'|].
    + intros H. right. apply IH. exact H.
    + destruct (eqb v0 c) eqn:E0; [|discriminate].
      apply eqb_eq in E0. subst v0. intros H. injection H as ->. left. reflexivity.
Qed.

Lemma in_find_last : forall (K V : Type) `{PyEqLaws V} (d : dict K V) c k,
  In (k, c) d -> exists k', find_last c d = Some k'.
Proof.
  intros K V E L d c k. induction d as [|[k0 v0] d IH]; cbn [find_last].
  - intros [].
  - intros [Hin|Hin].
    + injection Hin as -> ->. destruct (find_last c d); [eauto|].
      rewrite (eqb_refl _ c). eauto.
    + destruct (IH Hin) as [k' ->]. eauto.
Qed.

(** The inverted dictionary holds for a code a symbol that has it. *)
Lemma invert_dict_in : forall (d : dict Z str) c s,
  dict_get (invert_dict d) c = Some s -> In (s, c) d.
Proof.
  intros d c s. unfold invert_dict. rewrite (invert_dict_get Z str d [] c).
  destruct (find_last c d) as [k|] eqn:Ef.
  - intros H. injection H as ->. exact (find_last_in Z str d c s Ef).
  - cbn [dict_get]. discriminate.
Qed.

Lemma in_invert_dict : forall (d : dict Z str) c s,
  In (s, c) d -> exists s', dict_get (invert_dict d) c = Some s'.
Proof.
  intros d c s Hin. unfold invert_dict. rewrite (invert_dict_get Z str d [] c).
  destruct (in_find_last Z str d c s Hin) as [k' ->]. eauto.
Qed.

(** ** Decoding what was encoded *)

Lemma key_entry : forall (K V : Type) (d : dict K V) k,
  In k (keys d) -> exists v, In (k, v) d.
Proof.
  intros K V d k H. unfold keys in H. apply in_map_iff in H.
  destruct H as ([k' v] & Hk & Hin). cbn [fst] in Hk. subst k'. eauto.
Qed.

Lemma good_codes_invert : forall codes s c,
  good_codes codes -> In (s, c) codes ->
  dict_get (invert_dict codes) c = Some s.
Proof.
  intros codes s c (Hnd & Hpf & _) Hin.
  destruct (in_invert_dict codes c s Hin) as [s' Hs'].
  rewrite Hs'. f_equal.
  destruct (Z.eq_dec s' s) as [E|E]; [exact E|].
  exfalso. apply (Hpf s' c s c (invert_dict_in _ _ _ Hs') Hin E).
  exists []. rewrite app_nil_r. reflexivity.
Qed.

Lemma good_codes_proper_prefix : forall codes s p rest,
  good_codes codes -> In (s, p ++ rest) codes -> rest <> [] ->
  dict_get (invert_dict codes) p = None.
Proof.
  intros codes s p rest (Hnd & Hpf & _) Hin Hrest.
  destruct (dict_get (invert_dict codes) p) as [s'|] eqn:Hs'; [|reflexivity].
  exfalso. apply invert_dict_in in Hs'.
  destruct (Z.eq_dec s' s) as [E|E].
  - subst s'.
    pose proof (in_dict_get Z str codes s p Hnd Hs') as H1.
    pose proof (in_dict_get Z str codes s (p ++ rest) Hnd Hin) as H2.
    rewrite H1 in H2. injection H2 as H2.
    rewrite <- (app_nil_r p) in H2 at 1. apply app_inv_head in H2. congruence.
  - apply (Hpf s' p s (p ++ rest) Hs' Hin E). exists rest. reflexivity.
Qed.

(** The bits of a code, once read, give its symbol and nothing before. *)
Lemma decode_bits_code : forall codes size s c rest lst_byte,
  good_codes codes -> In (s, c) codes ->
  decode_bits (invert_dict codes) size (c ++ rest) [] lst_byte =
  if len (lst_byte ++ [s]) =? size then lst_byte ++ [s]
  else decode_bits (invert_dict codes) size rest [] (lst_byte ++ [s]).
Proof.
  intros codes size s c rest lst_byte Hg Hin.
  assert (G : forall c2 c1, c = c1 ++ c2 -> c2 <> [] ->
              decode_bits (invert_dict codes) size (c2 ++ rest) c1 lst_byte =
              if len (lst_byte ++ [s]) =? size then lst_byte ++ [s]
              else decode_bits (invert_dict codes) size rest [] (lst_byte ++ [s])).
  { induction c2 as [|b c2 IH]; intros c1 Hc Hne; [congruence|].
    cbn [app decode_bits].
    destruct c2 as [|b' c2].
    - rewrite <- Hc, (good_codes_invert codes s c Hg Hin). reflexivity.
    - rewrite (good_codes_proper_prefix codes s (c1 ++ [b]) (b' :: c2) Hg).
      + apply IH; [|discriminate]. rewrite <- app_assoc. exact Hc.
      + rewrite <- app_assoc. cbn [app]. rewrite <- Hc. exact Hin.
      + discriminate. }
  apply (G c []); [reflexivity|].
  destruct Hg as (_ & _ & Hne). apply (Hne s c Hin).
Qed.

Lemma encode_cons : forall codes s text c,
  dict_get codes s = Some c -> encode codes (s :: text) = c ++ encode codes text.
Proof. intros codes s text c H. unfold encode. cbn [flat_map]. rewrite H. reflexivity. Qed.

(** Unpacking the codes of [text], followed by any bits, gives [text] back
    when [size] is the length of [text]. *)
Lemma decode_bits_encode : forall codes text lst_byte size tail,
  good_codes codes ->
  (forall s, In s text -> In s (keys codes)) ->
  text <> [] ->
  len lst_byte + len text = size ->
  decode_bits (invert_dict codes) size (encode codes text ++ tail) [] lst_byte =
  lst_byte ++ text.
Proof.
  intros codes text. induction text as [|s text IH];
    intros lst_byte size tail Hg Hkeys Hne Hsize; [congruence|].
  destruct (key_entry _ _ codes s (Hkeys s (or_introl eq_refl))) as [c Hc].
  pose proof Hg as (Hnd & _ & _).
  rewrite (encode_cons codes s text c (in_dict_get Z str codes s c Hnd Hc)).
  rewrite <- app_assoc, (decode_bits_code codes size s c _ lst_byte Hg Hc).
  unfold len in *. rewrite length_app in *. cbn [length] in *.
  destruct text as [|s' text]; cbn [length] in Hsize.
  - destruct (Z.eqb_spec (Z.of_nat (length lst_byte + 1)) size) as [E|E]; [|lia].
    reflexivity.
  - destruct (Z.eqb_spec (Z.of_nat (length lst_byte + 1)) size) as [E|E]; [lia|].
    rewrite (IH (lst_byte ++ [s]) size tail Hg).
    + rewrite <- app_assoc. reflexivity.
    + intros x Hx. apply Hkeys. right. exact Hx.
    + discriminate.
    + rewrite length_app. cbn [length] in *. lia.
Qed.

(** ** Packing *)

Lemma is_bit_cases : forall c, is_bit c = true -> c = "0"%char \/ c = "1"%char.
Proof.
  intros c H. unfold is_bit in H. apply orb_true_iff in H.
  destruct H as [H|H]; apply Ascii.eqb_eq in H; auto.
Qed.

(** A group of eight bits is packed into the byte that unpacks to it. *)
Lemma bits_to_byte_group : forall g,
  length g = 8%nat -> forallb is_bit g = true ->
  exists v, bits_to_byte g = Ok v /\ is_byte v = true /\ byte_to_bits v = g.
Proof.
  intros g Hlen Hbits.
  do 8 (destruct g as [|? g]; [discriminate|]).
  destruct g; [|discriminate].
  cbn [forallb] in Hbits.
  repeat match goal with
         | H : _ && _ = true |- _ => apply andb_true_iff in H; destruct H as [? H]
         end.
  repeat match goal with
         | H : is_bit _ = true |- _ => apply is_bit_cases in H; destruct H as [H|H]; subst
         end;
    eexists; (split; [vm_compute; reflexivity|split; vm_compute; reflexivity]).
Qed.

Lemma map_result_groups : forall groups,
  Forall (fun g => length g = 8%nat /\ forallb is_bit g = true) groups ->
  exists ret_list,
    map_result bits_to_byte groups = Ok ret_list /\
    forallb is_byte ret_list = true /\
    flat_map byte_to_bits ret_list = concat groups.
Proof.
  induction groups as [|g groups IH]; intros H.
  - exists []. repeat split.
  - destruct (bits_to_byte_group g) as (v & Hv & Hb & Hg);
      [apply (Forall_inv H)..|].
    destruct (IH (Forall_inv_tail H)) as (vs & Hvs & Hbs & Hgs).
    exists (v :: vs). cbn [map_result forallb flat_map concat].
    rewrite Hv, Hvs, Hb, Hbs, Hg, Hgs. repeat split.
Qed.

Lemma firstn_add : forall (A : Type) (a b : nat) (l : list A),
  firstn (a + b) l = firstn a l ++ firstn b (skipn a l).
Proof.
  intros A a b. induction a as [|a IH]; intros l.
  - reflexivity.
  - destruct l as [|x l]; cbn [Nat.add firstn skipn app].
    + rewrite firstn_nil. reflexivity.
    + rewrite IH. reflexivity.
Qed.

Lemma forallb_firstn : forall (A : Type) (f : A -> bool) n l,
  forallb f l = true -> forallb f (firstn n l) = true.
Proof.
  intros A f n. induction n as [|n IH]; intros [|x l] H; cbn [firstn forallb] in *;
    try reflexivity.
  apply andb_true_iff in H. destruct H as [Hx Hl]. rewrite Hx, (IH l Hl). reflexivity.
Qed.

Lemma forallb_skipn : forall (A : Type) (f : A -> bool) n l,
  forallb f l = true -> forallb f (skipn n l) = true.
Proof.
  intros A f n. induction n as [|n IH]; intros [|x l] H; cbn [skipn forallb] in *;
    try reflexivity; try exact H.
  apply andb_true_iff in H. destruct H as [Hx Hl]. exact (IH l Hl).
Qed.

Lemma py_range_groups : forall L : nat,
  py_range 0 (Z.of_nat L - Z.of_nat L mod 8) 8 =
  map (fun k => 0 + Z.of_nat k * 8) (seq 0 (L / 8)).
Proof.
  intros L. unfold py_range. do 2 f_equal.
  rewrite <- (Nat2Z.id (L / 8)). f_equal. rewrite Nat2Z.inj_div.
  change (Z.of_nat 8) with 8.
  pose proof (Z.div_mod (Z.of_nat L) 8 ltac:(lia)) as Hdm.
  pose proof (Z.mod_pos_bound (Z.of_nat L) 8 ltac:(lia)) as Hb.
  replace (Z.of_nat L - Z.of_nat L mod 8 - 0 + 8 - 1)
    with (7 + (Z.of_nat L / 8) * 8) by lia.
  rewrite Z.div_add by lia. replace (7 / 8) with 0 by reflexivity. lia.
Qed.

Section Groups.
Variable comp_text : str.

Lemma fold_groups : forall q,
  fold_left
    (fun (st : Z * list str) initial =>
       let stop := initial + 8 in
       (stop, snd st ++ [slice comp_text initial stop]))
    (map (fun k => 0 + Z.of_nat k * 8) (seq 0 q)) (0, []) =
  (Z.of_nat (8 * q), map (fun k => firstn 8 (skipn (8 * k) comp_text)) (seq 0 q)).
Proof.
  induction q as [|q IH].
  - reflexivity.
  - rewrite seq_S, !map_app, fold_left_app, IH. cbn [map fold_left snd Nat.add].
    f_equal.
    + lia.
    + do 2 f_equal. unfold slice. f_equal.
      * lia.
      * f_equal. lia.
Qed.

Lemma groups_concat : forall q,
  concat (map (fun k => firstn 8 (skipn (8 * k) comp_text)) (seq 0 q)) =
  firstn (8 * q) comp_text.
Proof.
  induction q as [|q IH].
  - reflexivity.
  - rewrite seq_S, map_app, concat_app, IH. cbn [map concat Nat.add].
    rewrite app_nil_r. replace (8 * S q)%nat with (8 * q + 8)%nat by lia.
    rewrite firstn_add. reflexivity.
Qed.

Lemma groups_full : forall q,
  (8 * q <= length comp_text)%nat ->
  forallb is_bit comp_text = true ->
  Forall (fun g => length g = 8%nat /\ forallb is_bit g = true)
         (map (fun k => firstn 8 (skipn (8 * k) comp_text)) (seq 0 q)).
Proof.
  intros q Hq Hbits. apply Forall_forall. intros g Hg.
  apply in_map_iff in Hg. destruct Hg as (k & <- & Hk).
  apply in_seq in Hk. split.
  - rewrite length_firstn, length_skipn. lia.
  - apply forallb_firstn, forallb_skipn. exact Hbits.
Qed.
End Groups.

(** On a string of bits that is not empty, the groups are packed into bytes
    whose bits are the string followed by zeros. *)
Lemma generate_compressed_groups_bits : forall comp_text,
  comp_text <> [] ->
  forallb is_bit comp_text = true ->
  exists payload pad,
    generate_compressed_groups comp_text = Ok payload /\
    forallb is_byte payload = true /\
    flat_map byte_to_bits payload = comp_text ++ repeat "0"%char pad /\
    (pad < 8)%nat.
Proof.
  intros comp_text Hne Hbits. unfold generate_compressed_groups, len.
  set (L := length comp_text).
  rewrite py_range_groups, fold_groups.
  set (q := (L / 8)%nat).
  set (groups := map (fun k => firstn 8 (skipn (8 * k) comp_text)) (seq 0 q)).
  pose proof (Nat.div_mod_eq L 8) as Hdm. fold q in Hdm.
  pose proof (Nat.mod_upper_bound L 8 ltac:(lia)) as Hr.
  assert (HL : (0 < L)%nat).
  { unfold L. destruct comp_text; [congruence|cbn [length]; lia]. }
  assert (Hfull : Forall (fun g => length g = 8%nat /\ forallb is_bit g = true) groups).
  { apply groups_full; [fold L; lia|exact Hbits]. }
  assert (Hconcat : concat groups = firstn (8 * q) comp_text) by apply groups_concat.
  assert (Hsplit : forall q', q = S q' ->
            groups = map (fun k => firstn 8 (skipn (8 * k) comp_text)) (seq 0 q')
                       ++ [firstn 8 (skipn (8 * q') comp_text)]).
  { intros q' Hq. unfold groups. rewrite Hq, seq_S, map_app. reflexivity. }
  clearbody groups.
  unfold slice_from. rewrite Nat2Z.id.
  assert (Hrem : length (skipn (8 * q) comp_text) = (L mod 8)%nat).
  { rewrite length_skipn. fold L. lia. }
  destruct (skipn (8 * q) comp_text) as [|b rem] eqn:Erem.
  - (* the length is a multiple of eight *)
    assert (Hq : exists q', q = S q') by (destruct q; [cbn [length] in Hrem; lia|eauto]).
    destruct Hq as [q' Hq].
    assert (Hlast : length (firstn 8 (skipn (8 * q') comp_text)) = 8%nat).
    { rewrite length_firstn, length_skipn. fold L. lia. }
    assert (Hidx : py_index groups (-1) = Ok (firstn 8 (skipn (8 * q') comp_text))).
    { rewrite (Hsplit q' Hq). apply py_index_last. }
    destruct (map_result_groups groups Hfull) as (ret_list & Hret & Hbytes & Hflat).
    exists ret_list, 0%nat. split; [|split; [exact Hbytes|split; [|lia]]].
    + cbn [eqb PyEq_str str_eqb negb]. rewrite Hidx. cbn [bind].
      unfold len. rewrite Hlast.
      change (Z.of_nat 8 mod 8 =? 0) with true. cbn [negb].
      rewrite Hret. cbn [bind]. apply to_bytes_bytes. exact Hbytes.
    + rewrite Hflat, Hconcat. cbn [repeat].
      rewrite app_nil_r. apply firstn_all2. fold L. cbn [length] in Hrem. lia.
  - (* a last group of fewer than eight bits *)
    set (r := (L mod 8)%nat) in *.
    assert (Hr0 : (0 < r)%nat) by (cbn [length] in Hrem; lia).
    assert (Hmod : (Z.of_nat r mod 8 =? 0) = false).
    { apply Z.eqb_neq. rewrite Z.mod_small by lia. lia. }
    assert (Hpadded : Forall (fun g => length g = 8%nat /\ forallb is_bit g = true)
                        (groups ++ [(b :: rem) ++ repeat "0"%char (8 - r)])).
    { apply Forall_app. split; [exact Hfull|]. constructor; [|constructor]. split.
      - rewrite length_app, repeat_length, Hrem. lia.
      - rewrite forallb_app. apply andb_true_iff. split.
        + rewrite <- Erem. apply forallb_skipn. exact Hbits.
        + apply forallb_forall. intros x Hx. apply repeat_spec in Hx. subst x.
          reflexivity. }
    destruct (map_result_groups _ Hpadded) as (ret_list & Hret & Hbytes & Hflat).
    exists ret_list, (8 - r)%nat. split; [|split; [exact Hbytes|split; [|lia]]].
    + cbn [eqb PyEq_str str_eqb negb]. rewrite py_index_last. cbn [bind].
      unfold len. rewrite Hrem, Hmod. cbn [negb].
      unfold pad_last. rewrite removelast_last, last_last.
      replace (Z.to_nat (8 - Z.of_nat r)) with (8 - r)%nat by lia.
      match goal with
      | |- bind ?m _ = _ => replace m with (Ok ret_list) by (symmetry; exact Hret)
      end.
      cbn [bind]. apply to_bytes_bytes. exact Hbytes.
    + rewrite Hflat, concat_app, Hconcat.
      cbn [concat]. rewrite app_nil_r, <- Erem, app_assoc, firstn_skipn. reflexivity.
Qed.

(** ** What the numbers do not change *)

Lemma unnumbered_is_none : forall t, is_none (unnumbered t) = is_none t.
Proof.
  destruct t as [|s l r n]; cbn [unnumbered]; [reflexivity|].
  destruct (is_none l && is_none r); reflexivity.
Qed.

Lemma unnumbered_leafb : forall t, leafb (unnumbered t) = leafb t.
Proof.
  destruct t as [|s l r n]; cbn [unnumbered]; [reflexivity|].
  destruct (is_none l && is_none r) eqn:E; cbn [leafb].
  - reflexivity.
  - rewrite !unnumbered_is_none. reflexivity.
Qed.

Lemma unnumbered_huffman_shape : forall t,
  huffman_shape (unnumbered t) = huffman_shape t.
Proof.
  induction t as [|s l IHl r IHr n]; cbn [unnumbered]; [reflexivity|].
  destruct (is_none l && is_none r) eqn:E; [reflexivity|].
  cbn [huffman_shape]. destruct s as [x|].
  - destruct l as [|sl ll lr nl], r as [|sr rl rr nr];
      cbn [is_none andb] in E; try discriminate;
      cbn [unnumbered huffman_shape];
      repeat match goal with
             | |- context [is_none ?a && is_none ?b] =>
                 destruct (is_none a && is_none b); cbn [huffman_shape]
             end;
      reflexivity.
  - rewrite IHl, IHr. reflexivity.
Qed.

Lemma unnumbered_tree_symbols : forall t,
  tree_symbols (unnumbered t) = tree_symbols t.
Proof.
  induction t as [|s l IHl r IHr n]; cbn [unnumbered]; [reflexivity|].
  destruct (is_none l && is_none r); [reflexivity|].
  cbn [tree_symbols]. rewrite IHl, IHr. reflexivity.
Qed.

Lemma unnumbered_count_internal : forall t,
  count_internal (unnumbered t) = count_internal t.
Proof.
  induction t as [|s l IHl r IHr n]; cbn [unnumbered]; [reflexivity|].
  destruct (is_none l && is_none r) eqn:E; [reflexivity|].
  cbn [count_internal]. rewrite !unnumbered_is_none, E, IHl, IHr. reflexivity.
Qed.

Lemma unnumbered_height : forall t, height (unnumbered t) = height t.
Proof.
  induction t as [|s l IHl r IHr n]; cbn [unnumbered]; [reflexivity|].
  destruct (is_none l && is_none r); [reflexivity|].
  cbn [height]. rewrite IHl, IHr. reflexivity.
Qed.

Lemma unnumbered_get_codes : forall t byte d,
  get_codes_internal (unnumbered t) byte d = get_codes_internal t byte d.
Proof.
  induction t as [|s l IHl r IHr n]; intros byte d; cbn [unnumbered]; [reflexivity|].
  destruct (is_none l && is_none r); [reflexivity|].
  cbn [get_codes_internal]. rewrite IHl, IHr. reflexivity.
Qed.

Lemma erase_numbers_get_codes : forall t byte d,
  get_codes_internal (erase_numbers t) byte d = get_codes_internal t byte d.
Proof.
  induction t as [|s l IHl r IHr n]; intros byte d; cbn [erase_numbers get_codes_internal].
  - reflexivity.
  - rewrite IHl, IHr. reflexivity.
Qed.

(** ** Keys of dictionaries *)

Lemma dict_set_has_key : forall (K V : Type) `{PyEqLaws K} (d : dict K V) k v x,
  x = k \/ In x (keys d) -> In x (keys (dict_set d k v)).
Proof.
  intros K V E L d k v x. unfold keys.
  induction d as [|[k' v'] d IH]; cbn [dict_set map fst In].
  - intros [Hx|[]]. left. congruence.
  - destruct (eqb k' k) eqn:Ek; cbn [map fst In].
    + apply eqb_eq in Ek. subst k'. intros [Hx|[Hx|Hx]]; auto.
    + intros [Hx|[Hx|Hx]]; auto.
Qed.

Lemma dict_set_nodup : forall (K V : Type) `{PyEqLaws K} (d : dict K V) k v,
  NoDup (keys d) -> NoDup (keys (dict_set d k v)).
Proof.
  intros K V E L d k v. unfold keys.
  induction d as [|[k' v'] d IH]; cbn [dict_set map fst]; intros Hnd.
  - constructor; [intros []|constructor].
  - destruct (eqb k' k) eqn:Ek; cbn [map fst].
    + exact Hnd.
    + apply NoDup_cons_iff in Hnd. destruct Hnd as [Hnot Hnd].
      constructor; [|exact (IH Hnd)].
      intros Hin. apply dict_set_keys in Hin. destruct Hin as [Hin|Hin].
      * subst k'. rewrite (eqb_refl _ k) in Ek. discriminate.
      * exact (Hnot Hin).
Qed.

Lemma key_dict_get : forall (K V : Type) `{PyEqLaws K} (d : dict K V) k,
  In k (keys d) -> exists v, dict_get d k = Some v.
Proof.
  intros K V E L d k. unfold keys.
  induction d as [|[k' v'] d IH]; cbn [map fst In dict_get].
  - intros [].
  - destruct (eqb k' k) eqn:Ek; [eauto|].
    intros [Hk|Hk].
    + subst k'. rewrite (eqb_refl _ k) in Ek. discriminate.
    + exact (IH Hk).
Qed.

(** ** The frequency table *)

(** The table of a text has the symbols of the text for keys, each once,
    and counts that are positive. *)
Lemma make_freq_dict_spec : forall text,
  NoDup (keys (make_freq_dict text)) /\
  (forall k, In k (keys (make_freq_dict text)) <-> In k text) /\
  (forall k v, In (k, v) (make_freq_dict text) -> 1 <= v).
Proof.
  intros text. unfold make_freq_dict.
  set (step := fun (freq_dict : dict Z Z) (element : Z) =>
                 match dict_get freq_dict element with
                 | Some c => dict_set freq_dict element (c + 1)
                 | None => dict_set freq_dict element (0 + 1)
                 end).
  assert (G : forall acc,
             NoDup (keys acc) ->
             (forall k v, In (k, v) acc -> 1 <= v) ->
             NoDup (keys (fold_left step text acc)) /\
             (forall k, In k (keys (fold_left step text acc)) <->
                        In k (keys acc) \/ In k text) /\
             (forall k v, In (k, v) (fold_left step text acc) -> 1 <= v)).
  { induction text as [|e text IH]; intros acc Hnd Hpos; cbn [fold_left].
    - split; [exact Hnd|]. split; [|exact Hpos]. intros k. cbn [In]. tauto.
    - assert (Hstep : exists c, step acc e = dict_set acc e c /\ 1 <= c).
      { unfold step. destruct (dict_get acc e) as [c|] eqn:Hc.
        - exists (c + 1). split; [reflexivity|].
          pose proof (Hpos e c (dict_get_in Z Z acc e c Hc)). lia.
        - exists (0 + 1). split; [reflexivity|lia]. }
      destruct Hstep as (c & Hstep & Hc). rewrite Hstep.
      destruct (IH (dict_set acc e c)) as (H1 & H2 & H3).
      + apply (dict_set_nodup Z Z). exact Hnd.
      + intros k v Hin. destruct (dict_set_entries Z Z _ _ _ _ Hin) as [Heq|Hold].
        * injection Heq as -> ->. exact Hc.
        * exact (Hpos k v Hold).
      + split; [exact H1|]. split; [|exact H3].
        intros k. rewrite H2. cbn [In]. split.
        * intros [Hk|Hk]; [|auto].
          apply dict_set_keys in Hk. destruct Hk as [Hk|Hk]; auto.
        * intros [Hk|[Hk|Hk]]; [left|left|right; exact Hk];
            apply (dict_set_has_key Z Z); auto. }
  destruct (G []) as (H1 & H2 & H3).
  - constructor.
  - intros k v [].
  - split; [exact H1|]. split; [|exact H3].
    intros k. rewrite H2. cbn [keys map In]. tauto.
Qed.

(** ** The codes of a Huffman tree *)

Lemma get_codes_internal_nodup : forall t byte d,
  NoDup (keys d) -> NoDup (keys (get_codes_internal t byte d)).
Proof.
  induction t as [|s l IHl r IHr n]; intros byte d Hnd; cbn [get_codes_internal].
  - exact Hnd.
  - apply IHr, IHl. destruct s as [x|]; [|exact Hnd].
    apply (dict_set_nodup Z str). exact Hnd.
Qed.

Lemma get_codes_internal_has_key : forall t byte d x,
  In x (keys d) \/ In x (tree_symbols t) ->
  In x (keys (get_codes_internal t byte d)).
Proof.
  induction t as [|s l IHl r IHr n]; intros byte d x;
    cbn [get_codes_internal tree_symbols].
  - intros [H|[]]. exact H.
  - intros H. apply IHr.
    destruct H as [H|H].
    + left. apply IHl. left. destruct s as [y|]; [|exact H].
      apply (dict_set_has_key Z str). right. exact H.
    + apply in_app_or in H. destruct H as [H|H].
      * left. apply IHl. left. destruct s as [y|]; [|destruct H].
        apply (dict_set_has_key Z str). left. destruct H as [H|[]]. congruence.
      * apply in_app_or in H. destruct H as [H|H].
        -- left. apply IHl. right. exact H.
        -- right. exact H.
Qed.

Lemma get_codes_internal_bits : forall t byte d s c,
  forallb is_bit byte = true ->
  (forall s' c', In (s', c') d -> forallb is_bit c' = true) ->
  In (s, c) (get_codes_internal t byte d) ->
  forallb is_bit c = true.
Proof.
  induction t as [|sym l IHl r IHr n]; intros byte d s c Hb Hd;
    cbn [get_codes_internal].
  - apply Hd.
  - apply IHr.
    + rewrite forallb_app, Hb. reflexivity.
    + intros s' c'. apply IHl.
      * rewrite forallb_app, Hb. reflexivity.
      * intros s'' c'' Hin. destruct sym as [x|]; [|exact (Hd _ _ Hin)].
        destruct (dict_set_entries Z str _ _ _ _ Hin) as [Heq|Hold].
        -- injection Heq as -> ->. exact Hb.
        -- exact (Hd _ _ Hold).
Qed.

(** The codes of a tree whose root has no symbol and in which only
    childless nodes carry symbols are fit for packing and unpacking. *)
Lemma get_codes_good : forall t,
  leaf_symbols t = true ->
  symbol_of t = None ->
  good_codes (get_codes t).
Proof.
  intros t Hl Hroot. split; [|split].
  - apply get_codes_internal_nodup. constructor.
  - apply get_codes_prefix_free. exact Hl.
  - intros s c Hin. split.
    + intros ->. apply get_codes_entries in Hin.
      destruct t as [|sym l r n]; [discriminate|].
      cbn [symbol_at symbol_of] in *. congruence.
    + apply (get_codes_internal_bits t [] [] s c); [reflexivity| |exact Hin].
      intros s' c' [].
Qed.

Lemma huffman_shape_leaf_symbols : forall t,
  huffman_shape t = true -> leaf_symbols t = true.
Proof.
  induction t as [|s l IHl r IHr n]; intros H; [discriminate|].
  destruct (huffman_shape_inv _ _ _ _ H) as [(x & -> & -> & -> & _)|(-> & Hl & Hr & _)].
  - reflexivity.
  - cbn [leaf_symbols]. rewrite (IHl Hl), (IHr Hr). reflexivity.
Qed.

Lemma huffman_shape_leaf_count : forall t,
  huffman_shape t = true -> length (tree_symbols t) = S (count_internal t).
Proof.
  induction t as [|s l IHl r IHr n]; intros H; [discriminate|].
  destruct (huffman_shape_inv _ _ _ _ H) as [(x & -> & -> & -> & _)|(-> & Hl & Hr & E)].
  - reflexivity.
  - cbn [tree_symbols count_internal app]. rewrite E, length_app, (IHl Hl), (IHr Hr). lia.
Qed.

Lemma huffman_shape_height : forall t,
  huffman_shape t = true -> (height t <= S (count_internal t))%nat.
Proof.
  induction t as [|s l IHl r IHr n]; intros H; [discriminate|].
  destruct (huffman_shape_inv _ _ _ _ H) as [(x & -> & -> & -> & _)|(-> & Hl & Hr & E)].
  - cbn [height count_internal is_none andb]. lia.
  - cbn [height count_internal]. rewrite E.
    specialize (IHl Hl). specialize (IHr Hr). lia.
Qed.

Lemma huffman_shape_symbols_bytes : forall t,
  huffman_shape t = true -> forallb is_byte (tree_symbols t) = true.
Proof.
  induction t as [|s l IHl r IHr n]; intros H; [discriminate|].
  destruct (huffman_shape_inv _ _ _ _ H) as [(x & -> & -> & -> & Hx)|(-> & Hl & Hr & E)].
  - cbn [tree_symbols app forallb]. rewrite Hx. reflexivity.
  - cbn [tree_symbols app]. rewrite forallb_app, (IHl Hl), (IHr Hr). reflexivity.
Qed.

(** Distinct bytes are at most 256. *)
Lemma distinct_bytes : forall l,
  NoDup l -> forallb is_byte l = true -> (length l <= 256)%nat.
Proof.
  intros l Hnd Hb.
  replace 256%nat with (length (map Z.of_nat (seq 0 256)))
    by (rewrite length_map, length_seq; reflexivity).
  apply NoDup_incl_length; [exact Hnd|].
  intros x Hx. rewrite forallb_forall in Hb. specialize (Hb x Hx).
  unfold is_byte in Hb. apply andb_true_iff in Hb. destruct Hb as [H0 H1].
  apply Z.leb_le in H0. apply Z.ltb_lt in H1.
  apply in_map_iff. exists (Z.to_nat x). split; [lia|].
  apply in_seq. lia.
Qed.

(** ** The average length *)

Lemma avg_sums_ok : forall codes freq_dict sums s,
  (forall k, In k (keys codes) -> exists f, dict_get freq_dict k = Some f /\ 1 <= f) ->
  exists sums' s',
    avg_sums codes freq_dict sums s = Ok (sums', s') /\ s + len codes <= s'.
Proof.
  induction codes as [|[key value] codes IH]; intros freq_dict sums s Hk;
    cbn [avg_sums].
  - exists sums, s. split; [reflexivity|]. unfold len. cbn [length]. lia.
  - destruct (Hk key) as (f & Hf & Hpos); [left; reflexivity|].
    unfold dict_lookup. rewrite Hf. cbn [bind].
    destruct (IH freq_dict (sums + len value * f) (s + f)) as (sums' & s' & Hs & Hle).
    + intros k Hin. apply Hk. right. exact Hin.
    + exists sums', s'. split; [exact Hs|].
      unfold len in *. cbn [length]. lia.
Qed.

Lemma avg_length_ok : forall tree freq_dict,
  is_none tree = false ->
  get_codes tree <> [] ->
  (forall k, In k (keys (get_codes tree)) ->
             exists f, dict_get freq_dict k = Some f /\ 1 <= f) ->
  exists a, avg_length tree freq_dict = Ok a.
Proof.
  intros tree freq_dict Hn Hne Hk. unfold avg_length. rewrite Hn.
  destruct (avg_sums_ok (get_codes tree) freq_dict 0 0 Hk) as (sums & s & Hs & Hle).
  rewrite Hs. cbn [bind].
  assert (Hpos : 0 < len (get_codes tree)).
  { unfold len. destruct (get_codes tree); [congruence|cbn [length]; lia]. }
  destruct (Z.eqb_spec s 0) as [E|E]; [lia|]. eauto.
Qed.

(** ** The whole pipeline *)

Lemma firstn_app_exact : forall (A : Type) (a b : list A) n,
  length a = n -> firstn n (a ++ b) = a.
Proof.
  intros A a b n <-. rewrite firstn_app, Nat.sub_diag, firstn_all. cbn [firstn].
  apply app_nil_r.
Qed.

Lemma skipn_app_exact : forall (A : Type) (a b : list A) n,
  length a = n -> skipn n (a ++ b) = b.
Proof.
  intros A a b n <-. rewrite skipn_app, Nat.sub_diag, skipn_all. reflexivity.
Qed.

Lemma size_to_bytes_inverse : forall size,
  0 <= size < 2 ^ 32 ->
  exists b0 b1 b2 b3,
    size_to_bytes size = Ok [b0; b1; b2; b3] /\ bytes_to_size [b0; b1; b2; b3] = size.
Proof.
  intros size [H0 H1]. unfold size_to_bytes.
  destruct (Z.leb_spec 0 size) as [_|E]; [|lia].
  destruct (Z.ltb_spec size (2 ^ 32)) as [_|E]; [|lia].
  cbn [andb]. do 4 eexists. split; [reflexivity|].
  cbn [bytes_to_size].
  change (2 ^ 32) with 4294967296 in H1.
  pose proof (Z.div_mod size 256 ltac:(lia)) as E1.
  pose proof (Z.div_mod (size / 256) 256 ltac:(lia)) as E2.
  pose proof (Z.div_mod (size / 256 / 256) 256 ltac:(lia)) as E3.
  rewrite (Z.div_div size 256 256) in E3 by lia.
  rewrite (Z.div_div size 256 256) in E2 by lia.
  rewrite (Z.div_div size (256 * 256) 256) in E3 by lia.
  change (256 * 256) with 65536 in *. change (65536 * 256) with 16777216 in *.
  assert (E4 : (size / 16777216) mod 256 = size / 16777216).
  { apply Z.mod_small. split; [apply Z.div_pos; lia|].
    apply Z.div_lt_upper_bound; lia. }
  lia.
Qed.

Lemma concat_codes_encode : forall text codes comp_text,
  (forall s, In s text -> In s (keys codes)) ->
  concat_codes text codes comp_text = Ok (comp_text ++ encode codes text).
Proof.
  induction text as [|s text IH]; intros codes comp_text Hk; cbn [concat_codes].
  - unfold encode. cbn [flat_map]. rewrite app_nil_r. reflexivity.
  - destruct (key_dict_get Z str codes s (Hk s (or_introl eq_refl))) as [c Hc].
    unfold dict_lookup. rewrite Hc. cbn [bind].
    rewrite IH by (intros x Hx; apply Hk; right; exact Hx).
    rewrite (encode_cons codes s text c Hc), app_assoc. reflexivity.
Qed.

Lemma encode_bits : forall codes text,
  good_codes codes ->
  (forall s, In s text -> In s (keys codes)) ->
  forallb is_bit (encode codes text) = true /\ (text <> [] -> encode codes text <> []).
Proof.
  intros codes text (Hnd & _ & Hgood) Hk.
  induction text as [|s text IH].
  - split; [reflexivity|congruence].
  - destruct (key_dict_get Z str codes s (Hk s (or_introl eq_refl))) as [c Hc].
    rewrite (encode_cons codes s text c Hc).
    destruct (Hgood s c (dict_get_in Z str codes s c Hc)) as [Hne Hb].
    destruct IH as [IH _]; [intros x Hx; apply Hk; right; exact Hx|].
    split.
    + rewrite forallb_app, Hb, IH. reflexivity.
    + intros _ H. apply app_eq_nil in H. tauto.
Qed.

(** Packing with good codes and unpacking with the inverted table gives the
    text back. *)
Lemma generate_compressed_decode : forall codes text,
  good_codes codes ->
  (forall s, In s text -> In s (keys codes)) ->
  text <> [] ->
  exists payload,
    generate_compressed text codes = Ok payload /\
    forallb is_byte payload = true /\
    decode_bits (invert_dict codes) (len text) (flat_map byte_to_bits payload) [] []
    = text.
Proof.
  intros codes text Hg Hk Hne.
  destruct (encode_bits codes text Hg Hk) as [Hb Hnn].
  destruct (generate_compressed_groups_bits (encode codes text) (Hnn Hne) Hb)
    as (payload & pad & Hp & Hbytes & Hflat & _).
  exists payload. split; [|split; [exact Hbytes|]].
  - unfold generate_compressed. rewrite (concat_codes_encode text codes [] Hk).
    cbn [bind app]. exact Hp.
  - rewrite Hflat.
    rewrite (decode_bits_encode codes text [] (len text) _ Hg Hk Hne); [reflexivity|].
    unfold len. cbn [length]. lia.
Qed.

(** The tree of a text with two distinct bytes or more is a Huffman tree
    over bytes with an internal root, and its symbols are those of the
    text. *)
Lemma huffman_tree_shape : forall node_lt text,
  forallb is_byte text = true ->
  (2 <= length (make_freq_dict text))%nat ->
  exists t,
    huffman_tree node_lt (make_freq_dict text) = Ok t /\
    huffman_shape t = true /\ leafb t = false /\ symbol_of t = None /\
    Permutation (tree_symbols t) (keys (make_freq_dict text)).
Proof.
  intros node_lt text Hb Hlen.
  destruct (make_freq_dict_spec text) as (Hnd & Hkeys & Hpos).
  destruct (huffman_tree_builds (fun t => huffman_shape t = true))
    with (node_lt := node_lt) (freq_dict := make_freq_dict text) as (t & Ht & Hs & Hperm).
  - intros a b Ha Hb'. cbn [Internal huffman_shape]. rewrite Ha, Hb'. reflexivity.
  - exact Hlen.
  - intros k Hk. apply Hkeys in Hk. rewrite forallb_forall in Hb. exact (Hb k Hk).
  - exists t. split; [exact Ht|]. split; [exact Hs|].
    assert (Hsym : (2 <= length (tree_symbols t))%nat).
    { rewrite (Permutation_length Hperm). unfold keys. rewrite length_map. exact Hlen. }
    destruct t as [|s l r n]; [discriminate|].
    destruct (huffman_shape_inv _ _ _ _ Hs) as [(x & -> & -> & -> & _)|(-> & _ & _ & E)].
    + cbn [tree_symbols app length] in Hsym. lia.
    + cbn [leafb symbol_of]. auto.
Qed.

Lemma py_index_head : forall (A : Type) (x : A) (l : list A), py_index (x :: l) 0 = Ok x.
Proof. reflexivity. Qed.

Lemma read_nodes_bytes_length : forall t,
  length (flat_map record_bytes (read_nodes t)) = (4 * count_internal t)%nat.
Proof.
  intros t. rewrite <- read_nodes_length.
  induction (read_nodes t) as [|r rs IH]; cbn [flat_map length record_bytes app].
  - reflexivity.
  - rewrite IH. lia.
Qed.

(** For a text of fewer than 2^32 bytes with two distinct bytes or more,
    [compress] returns an artifact from which [uncompress], with a
    recursion depth of 256 or more, returns the text. *)
Theorem compress_uncompress : forall node_lt text fuel,
  forallb is_byte text = true ->
  (2 <= length (make_freq_dict text))%nat ->
  len text < 2 ^ 32 ->
  (256 <= fuel)%nat ->
  exists data,
    compress node_lt text = Ok data /\ uncompress fuel data = Ok text.
Proof.
  intros node_lt text fuel Hbytes Hlen Hsize Hfuel.
  destruct (make_freq_dict_spec text) as (Hnd & Hkeys & Hpos).
  destruct (huffman_tree_shape node_lt text Hbytes Hlen)
    as (t & Ht & Hs & Hleaf & Hroot & Hperm).
  (* the text is not empty *)
  assert (Hne : text <> []).
  { intros ->. cbn [make_freq_dict fold_left length] in Hlen. lia. }
  set (freq := make_freq_dict text) in *.
  set (k := count_internal t).
  set (t' := label (label t 0 1) (Z.of_nat k - 1) (-1)).
  (* at most 256 leaves *)
  assert (Hk : (1 <= k <= 255)%nat).
  { pose proof (huffman_shape_leaf_count t Hs) as Hc. fold k in Hc.
    assert (Hd : (length (tree_symbols t) <= 256)%nat).
    { apply distinct_bytes; [|apply huffman_shape_symbols_bytes; exact Hs].
      apply (Permutation_NoDup (Permutation_sym Hperm)). exact Hnd. }
    assert (H2 : (2 <= length (tree_symbols t))%nat).
    { rewrite (Permutation_length Hperm). unfold keys. rewrite length_map. exact Hlen. }
    lia. }
  (* the numbered tree *)
  assert (Hnum : number_nodes t = Ok t').
  { apply number_nodes_label; [apply huffman_shape_full; exact Hs|].
    destruct t; [discriminate|]. cbn [is_leaf leafb] in *. rewrite Hleaf. reflexivity. }
  assert (Hun : unnumbered t' = unnumbered t).
  { unfold t'. rewrite !label_unnumbered. reflexivity. }
  assert (Hs' : huffman_shape t' = true).
  { rewrite <- unnumbered_huffman_shape, Hun, unnumbered_huffman_shape. exact Hs. }
  assert (Hleaf' : leafb t' = false).
  { rewrite <- unnumbered_leafb, Hun, unnumbered_leafb. exact Hleaf. }
  assert (Hk' : count_internal t' = k).
  { rewrite <- unnumbered_count_internal, Hun, unnumbered_count_internal. reflexivity. }
  assert (Hh' : (height t' <= fuel)%nat).
  { pose proof (huffman_shape_height t' Hs'). lia. }
  assert (Hcodes' : get_codes t' = get_codes t).
  { unfold get_codes. rewrite <- unnumbered_get_codes, Hun, unnumbered_get_codes.
    reflexivity. }
  assert (Hn' : numbered_from t' 0).
  { apply postorder_numbered_from. rewrite Hk'.
    apply number_nodes_numbered. apply huffman_shape_full. exact Hs. }
  assert (Hroot' : number_of t' = Some (Z.of_nat k - 1)).
  { assert (G : get_number t' = Ok (Some (Z.of_nat k - 1))).
    { apply label_root_number. rewrite label_is_leaf.
      destruct t; [discriminate|]. cbn [is_leaf leafb] in *. rewrite Hleaf. reflexivity. }
    destruct t'; [discriminate|]. cbn [get_number number_of] in *. congruence. }
  (* the codes *)
  assert (Hgood : good_codes (get_codes t)).
  { apply get_codes_good; [apply huffman_shape_leaf_symbols; exact Hs|exact Hroot]. }
  assert (Hcover : forall s, In s text -> In s (keys (get_codes t))).
  { intros s Hin. apply get_codes_internal_has_key. right.
    apply (Permutation_in s (Permutation_sym Hperm)). apply Hkeys. exact Hin. }
  (* the steps of [compress] *)
  destruct (avg_length_ok t' freq) as [a Ha].
  { apply huffman_shape_not_none. exact Hs'. }
  { rewrite Hcodes'. destruct text as [|s text]; [congruence|].
    intros E. specialize (Hcover s (or_introl eq_refl)). rewrite E in Hcover.
    destruct Hcover. }
  { intros x Hx. rewrite Hcodes' in Hx. apply get_codes_keys in Hx.
    apply (Permutation_in x Hperm) in Hx.
    destruct (key_dict_get Z Z freq x Hx) as [f Hf]. exists f. split; [exact Hf|].
    apply (Hpos x f). apply (dict_get_in Z Z). exact Hf. }
  assert (Hnn : num_nodes_to_bytes t' = Ok [Z.of_nat k]).
  { unfold num_nodes_to_bytes. destruct t' as [|s' l' r' n']; [discriminate|].
    cbn [number_of] in Hroot'. subst n'. cbn [get_number bind to_bytes].
    replace (Z.of_nat k - 1 + 1) with (Z.of_nat k) by lia.
    assert (Hb : is_byte (Z.of_nat k) = true).
    { unfold is_byte. apply andb_true_iff. split; [apply Z.leb_le|apply Z.ltb_lt]; lia. }
    rewrite Hb. reflexivity. }
  assert (Htb : tree_to_bytes t' = Ok (flat_map record_bytes (read_nodes t'))).
  { apply tree_to_bytes_read_nodes; try assumption. lia. }
  destruct (size_to_bytes_inverse (len text)) as (b0 & b1 & b2 & b3 & Hsb & Hbs).
  { unfold len in *. lia. }
  destruct (generate_compressed_decode (get_codes t) text Hgood Hcover Hne)
    as (payload & Hp & Hpb & Hdec).
  exists (([Z.of_nat k] ++ flat_map record_bytes (read_nodes t') ++ [b0; b1; b2; b3])
            ++ payload).
  split.
  - unfold compress. fold freq. rewrite Ht. cbn [bind]. rewrite Hnum. cbn [bind].
    rewrite Ha. cbn [bind]. rewrite Hnn. cbn [bind]. rewrite Htb. cbn [bind].
    rewrite Hsb. cbn [bind]. rewrite Hp. reflexivity.
  - unfold uncompress. cbn [app firstn skipn]. rewrite py_index_head. cbn [bind].
    rewrite <- app_assoc.
    assert (Hbl : length (flat_map record_bytes (read_nodes t')) = Z.to_nat (Z.of_nat k * 4)).
    { rewrite read_nodes_bytes_length, Hk'. lia. }
    rewrite (firstn_app_exact _ _ _ _ Hbl), (skipn_app_exact _ _ _ _ Hbl).
    rewrite bytes_to_nodes_records. cbn [bind].
    rewrite (generate_tree_general_read_nodes t' fuel (Z.of_nat k - 1));
      try assumption.
    cbn [bind app firstn skipn]. rewrite Hbs.
    unfold generate_uncompressed, get_codes.
    rewrite erase_numbers_get_codes. fold (get_codes t'). rewrite Hcodes', Hdec.
    apply to_bytes_bytes. exact Hbytes.
Qed.

Lemma make_freq_dict_repeat : forall b n,
  make_freq_dict (repeat b (S n)) = [(b, 1 + Z.of_nat n)].
Proof.
  intros b n. unfold make_freq_dict. cbn [repeat fold_left dict_get dict_set].
  assert (G : forall c,
             fold_left
               (fun (freq_dict : dict Z Z) (element : Z) =>
                  match dict_get freq_dict element with
                  | Some c => dict_set freq_dict element (c + 1)
                  | None => dict_set freq_dict element (0 + 1)
                  end)
               (repeat b n) [(b, c)] = [(b, c + Z.of_nat n)]).
  { induction n as [|n IH]; intros c.
    - cbn [repeat fold_left]. do 2 f_equal. lia.
    - cbn [repeat fold_left dict_get dict_set eqb PyEq_Z]. rewrite Z.eqb_refl.
      rewrite IH. do 2 f_equal. lia. }
  rewrite G. do 2 f_equal.
Qed.

(** C1 fails on the code: on a buffer that repeats one byte, [compress]
    raises [TypeError].  The tree is a single leaf, [number_nodes] leaves its
    [number] unset, and [num_nodes_to_bytes] adds one to it. *)
Theorem compress_single_symbol_raises : forall node_lt b n,
  compress node_lt (repeat b (S n)) = Raise TypeError.
Proof.
  intros node_lt b n. unfold compress. rewrite make_freq_dict_repeat.
  assert (Ht : huffman_tree node_lt [(b, 1 + Z.of_nat n)] = Ok (Leaf b)) by reflexivity.
  rewrite Ht. cbn [bind].
  assert (Hn : number_nodes (Leaf b) = Ok (Leaf b)) by reflexivity.
  rewrite Hn. cbn [bind].
  assert (Ha : exists a, avg_length (Leaf b) [(b, 1 + Z.of_nat n)] = Ok a).
  { unfold avg_length, get_codes.
    cbn [Leaf is_none get_codes_internal dict_set avg_sums].
    unfold dict_lookup. cbn [dict_get eqb PyEq_Z].
    rewrite Z.eqb_refl. cbn [bind avg_sums].
    destruct (Z.eqb_spec (0 + (1 + Z.of_nat n)) 0) as [E|E]; [lia|]. eauto. }
  destruct Ha as [a Ha]. rewrite Ha. reflexivity.
Qed.

(** An instance of the round trip: the text of the docstring of
    [make_freq_dict]. *)
Lemma compress_uncompress_witness :
  exists data,
    compress (fun _ _ => false) [65; 66; 67; 66] = Ok data /\
    uncompress 256 data = Ok [65; 66; 67; 66].
Proof.
  apply (compress_uncompress (fun _ _ => false) [65; 66; 67; 66] 256%nat).
  - reflexivity.
  - vm_compute. lia.
  - vm_compute. reflexivity.
  - lia.
Defined.

(** On such a buffer the packer would fail as well: the only code is the
    empty string, and no group is formed. *)
Lemma generate_compressed_single_symbol_raises : forall b n,
  generate_compressed (repeat b (S n)) (get_codes (Leaf b)) = Raise IndexError.
Proof.
  intros b n. unfold generate_compressed, get_codes.
  cbn [Leaf get_codes_internal dict_set].
  assert (G : forall m, concat_codes (repeat b m) [(b, [])] [] = Ok []).
  { induction m as [|m IH]; cbn [repeat concat_codes]; [reflexivity|].
    unfold dict_lookup. cbn [dict_get eqb PyEq_Z]. rewrite Z.eqb_refl.
    cbn [bind app]. exact IH. }
  rewrite G. reflexivity.
Qed.

(** ** The bound of [traversal] *)

Lemma py_pop_head : forall (A : Type) (l : list A) a l',
  py_pop l 0 = Ok (a, l') -> l = a :: l'.
Proof.
  intros A l a l'. unfold py_pop. cbn [Z.ltb Z.compare].
  change (Z.to_nat 0) with 0%nat.
  destruct l as [|x l]; cbn [nth_error firstn skipn app]; [discriminate|].
  intros H. injection H as -> ->. reflexivity.
Qed.

Section TraversalBound.
Variable recurse :
  HuffmanNode -> list HuffmanNode -> result (HuffmanNode * list HuffmanNode).
Variable bound : nat.
Hypothesis recurse_ok : forall t l,
  (length l < bound)%nat ->
  recurse t l <> Raise RecursionError /\
  (forall t' l', recurse t l = Ok (t', l') -> (length l' <= length l)%nat).

Lemma traverse_child_bound : forall child lst,
  (length lst <= bound)%nat ->
  traverse_child recurse child lst <> Raise RecursionError /\
  (forall t' l', traverse_child recurse child lst = Ok (t', l') ->
                 (length l' <= length lst)%nat).
Proof.
  intros child lst Hlen. unfold traverse_child.
  destruct (not_symbol child) as [[|]|e] eqn:Hopen; cbn [bind].
  - destruct (py_pop lst 0) as [[popped lst']|e] eqn:Hpop; cbn [bind].
    + apply py_pop_head in Hpop. subst lst. cbn [length] in *.
      destruct lst' as [|x lst'].
      * split; [discriminate|]. intros t' l' H. injection H as <- <-.
        cbn [length]. lia.
      * destruct (has_open_child popped) as [[|]|e] eqn:Hgo; cbn [bind].
        -- destruct (recurse_ok popped (x :: lst')) as [H1 H2]; [lia|].
           split; [exact H1|]. intros t' l' H. specialize (H2 t' l' H). lia.
        -- split; [discriminate|]. intros t' l' H. injection H as <- <-. lia.
        -- split; [|discriminate].
           unfold has_open_child, get_left, get_right, not_symbol, get_symbol in Hgo.
           destruct popped as [|s [|sl ll lr nl] [|sr rl rr nr] n];
             cbn [bind] in Hgo; try congruence;
             repeat match type of Hgo with
                    | context [if ?b then _ else _] => destruct b
                    end; congruence.
    + split; [|discriminate].
      unfold py_pop in Hpop. cbn [Z.ltb Z.compare] in Hpop.
      destruct (nth_error lst (Z.to_nat 0)); congruence.
  - split; [discriminate|]. intros t' l' H. injection H as <- <-. lia.
  - split; [|discriminate].
    unfold not_symbol, get_symbol in Hopen. destruct child; cbn [bind] in Hopen; congruence.
Qed.
End TraversalBound.

(** [traversal] never reaches its bound when it starts with the length of
    the list, and it returns a list that is not longer. *)
Lemma traversal_bound : forall fuel tree lst,
  (length lst <= fuel)%nat ->
  traversal fuel tree lst <> Raise RecursionError /\
  (forall t' l', traversal fuel tree lst = Ok (t', l') -> (length l' <= length lst)%nat).
Proof.
  induction fuel as [|fuel IH]; intros tree lst Hlen.
  - destruct lst; [|cbn [length] in Hlen; lia].
    destruct tree; cbn [traversal]; (split; [discriminate|]);
      intros t' l' H; injection H as <- <-; lia.
  - cbn [traversal]. destruct tree as [|s l r n].
    + split; [discriminate|]. intros t' l' H. injection H as <- <-. lia.
    + destruct lst as [|x lst].
      * split; [discriminate|]. intros t' l' H. injection H as <- <-. lia.
      * assert (Hrec : forall t l0, (length l0 < S fuel)%nat ->
                  traversal fuel t l0 <> Raise RecursionError /\
                  (forall t' l', traversal fuel t l0 = Ok (t', l') ->
                                 (length l' <= length l0)%nat)).
        { intros t l0 Hl0. apply IH. lia. }
        destruct (traverse_child_bound (traversal fuel) (S fuel) Hrec l (x :: lst) Hlen)
          as [H1 H2].
        destruct (traverse_child (traversal fuel) l (x :: lst)) as [[l1 lst1]|e] eqn:E1;
          cbn [bind]; [|split; [congruence|discriminate]].
        specialize (H2 l1 lst1 eq_refl).
        destruct (traverse_child_bound (traversal fuel) (S fuel) Hrec r lst1) as [H3 H4];
          [lia|].
        destruct (traverse_child (traversal fuel) r lst1) as [[r1 lst2]|e] eqn:E2;
          cbn [bind]; [|split; [congruence|discriminate]].
        specialize (H4 r1 lst2 eq_refl).
        split; [discriminate|]. intros t' l' H. injection H as <- <-. lia.
Qed.

(** [generate_tree_postorder] never raises [RecursionError]. *)
Lemma generate_tree_postorder_bound : forall node_lst root_index,
  generate_tree_postorder node_lst root_index <> Raise RecursionError.
Proof.
  intros node_lst root_index. unfold generate_tree_postorder.
  destruct (py_pop (helper_generate_tree node_lst) root_index) as [[tree lst]|e] eqn:Hpop;
    cbn [bind].
  - destruct (traversal_bound (length lst) tree lst (le_n _)) as [H1 _].
    destruct (traversal (length lst) tree lst) as [[t' l']|e]; cbn [bind];
      congruence.
  - unfold py_pop in Hpop.
    repeat match type of Hpop with
           | context [if ?b then _ else _] => destruct b
           | context [match ?o with Some _ => _ | None => _ end] => destruct o
           end; congruence.
Qed.

(** [huffman_tree] never raises [RecursionError]: the bound of
    [huffman_internal] is not reached. *)
Lemma huffman_tree_bound : forall node_lt freq_dict,
  huffman_tree node_lt freq_dict <> Raise RecursionError.
Proof.
  intros node_lt freq_dict.
  destruct freq_dict as [|kv [|kv' freq_dict]].
  - discriminate.
  - unfold huffman_tree. change (len [kv] =? 1) with true. cbv iota.
    unfold sort_freq, py_sort. cbn [map fold_right insert_sorted].
    rewrite py_index_head. discriminate.
  - destruct (huffman_tree_builds (fun _ => True)) with
      (node_lt := node_lt) (freq_dict := kv :: kv' :: freq_dict) as (t & Ht & _).
    + trivial.
    + cbn [length]. lia.
    + trivial.
    + rewrite Ht. discriminate.
Qed.

Lemma two_distinct_keys : forall text a b,
  In a text -> In b text -> a <> b -> (2 <= length (make_freq_dict text))%nat.
Proof.
  intros text a b Ha Hb Hne.
  destruct (make_freq_dict_spec text) as (_ & Hkeys & _).
  apply Hkeys in Ha, Hb. unfold keys in *.
  destruct (make_freq_dict text) as [|x [|y d]]; cbn [map In length] in *.
  - destruct Ha.
  - destruct Ha as [Ha|[]], Hb as [Hb|[]]. congruence.
  - lia.
Qed.

(** The round trip, for a text in which two different bytes occur. *)
Corollary compress_uncompress_distinct : forall node_lt text fuel a b,
  forallb is_byte text = true ->
  In a text -> In b text -> a <> b ->
  len text < 2 ^ 32 ->
  (256 <= fuel)%nat ->
  exists data,
    compress node_lt text = Ok data /\ uncompress fuel data = Ok text.
Proof.
  intros node_lt text fuel a b Hbytes Ha Hb Hne Hsize Hfuel.
  apply compress_uncompress; try assumption.
  exact (two_distinct_keys text a b Ha Hb Hne).
Qed.

(** * Further properties *)

(** ** The frequency table *)

Lemma make_freq_dict_fold_get : forall text acc k,
  NoDup (keys acc) ->
  dict_get
    (fold_left
       (fun (freq_dict : dict Z Z) (element : Z) =>
          match dict_get freq_dict element with
          | Some c => dict_set freq_dict element (c + 1)
          | None => dict_set freq_dict element (0 + 1)
          end)
       text acc) k =
  match dict_get acc k with
  | Some c => Some (c + occurrences text k)
  | None => if occurrences text k =? 0 then None else Some (occurrences text k)
  end.
Proof.
  induction text as [|e text IH]; intros acc k Hnd; cbn [fold_left].
  - unfold occurrences. cbn [count_occ]. change (Z.of_nat 0) with 0.
    cbn [Z.eqb]. destruct (dict_get acc k); [f_equal; lia|reflexivity].
  - assert (Hocc : occurrences (e :: text) k =
                   if Z.eq_dec e k then 1 + occurrences text k else occurrences text k).
    { unfold occurrences. cbn [count_occ]. destruct (Z.eq_dec e k); lia. }
    assert (Hpos : 0 <= occurrences text k) by (unfold occurrences; lia).
    rewrite Hocc.
    destruct (dict_get acc e) as [c|] eqn:He.
    + rewrite IH by (apply (dict_set_nodup Z Z); exact Hnd).
      rewrite (dict_get_set Z Z). cbn [eqb PyEq_Z].
      destruct (Z.eq_dec e k) as [->|Hne].
      * rewrite Z.eqb_refl, He. f_equal; lia.
      * destruct (Z.eqb_spec e k) as [E|_]; [contradiction|]. reflexivity.
    + rewrite IH by (apply (dict_set_nodup Z Z); exact Hnd).
      rewrite (dict_get_set Z Z). cbn [eqb PyEq_Z].
      destruct (Z.eq_dec e k) as [->|Hne].
      * rewrite Z.eqb_refl, He.
        destruct (Z.eqb_spec (1 + occurrences text k) 0) as [E|_]; [lia|].
        f_equal; lia.
      * destruct (Z.eqb_spec e k) as [E|_]; [contradiction|]. reflexivity.
Qed.

(** X1: [make_freq_dict] maps every byte of the text to the number of its
    occurrences and holds no other key; in particular no count is zero and
    the table of the empty text is empty. *)
Theorem make_freq_dict_counts : forall text k,
  dict_get (make_freq_dict text) k =
  if occurrences text k =? 0 then None else Some (occurrences text k).
Proof.
  intros text k. unfold make_freq_dict.
  rewrite make_freq_dict_fold_get by constructor. reflexivity.
Qed.

(** X2: the keys of [make_freq_dict] are the bytes of the text, each once;
    there are as many keys as distinct bytes. *)
Theorem make_freq_dict_keys : forall text,
  NoDup (keys (make_freq_dict text)) /\
  (forall k, In k (keys (make_freq_dict text)) <-> In k text) /\
  length (make_freq_dict text) = length (nodup Z.eq_dec text).
Proof.
  intros text. destruct (make_freq_dict_spec text) as (Hnd & Hkeys & _).
  split; [exact Hnd|]. split; [exact Hkeys|].
  replace (length (make_freq_dict text)) with (length (keys (make_freq_dict text)))
    by (unfold keys; apply length_map).
  apply Nat.le_antisymm; apply NoDup_incl_length.
  - exact Hnd.
  - intros k Hk. apply nodup_In. apply Hkeys. exact Hk.
  - apply NoDup_nodup.
  - intros k Hk. apply Hkeys. apply nodup_In in Hk. exact Hk.
Qed.

(** ** Sorting the frequencies *)

Section Sorted.
Context {A : Type} (lt : A -> A -> bool) (R : A -> A -> Prop).
Hypothesis lt_true : forall y x, lt y x = true -> R y x.
Hypothesis lt_false : forall y x, lt y x = false -> R x y.

Lemma insert_sorted_hd : forall x y l,
  R y x -> HdRel R y l -> HdRel R y (insert_sorted lt x l).
Proof.
  intros x y l Hyx Hl. destruct l as [|z l]; cbn [insert_sorted].
  - constructor. exact Hyx.
  - destruct (lt z x); constructor; [|exact Hyx].
    inversion Hl; assumption.
Qed.

Lemma insert_sorted_sorted : forall x l,
  Sorted R l -> Sorted R (insert_sorted lt x l).
Proof.
  intros x l Hs. induction Hs as [|y l Hs IH Hhd]; cbn [insert_sorted].
  - constructor; constructor.
  - destruct (lt y x) eqn:E.
    + constructor; [exact IH|]. apply insert_sorted_hd; [|exact Hhd].
      apply lt_true. exact E.
    + constructor; [constructor; assumption|]. constructor. apply lt_false. exact E.
Qed.

Lemma py_sort_sorted : forall l, Sorted R (py_sort lt l).
Proof.
  induction l as [|x l IH]; cbn [py_sort fold_right].
  - constructor.
  - apply insert_sorted_sorted. exact IH.
Qed.
End Sorted.

(** X3: whatever the order of the nodes, [sort_freq] returns the entries of
    the table, each paired with a leaf for its key, in an order in which
    the frequencies do not decrease. *)
Theorem sort_freq_sorted : forall node_lt freq_dict,
  Permutation (sort_freq node_lt freq_dict) (freq_tuples freq_dict) /\
  Sorted (fun a b => fst a <= fst b) (sort_freq node_lt freq_dict).
Proof.
  intros node_lt freq_dict. split.
  - apply py_sort_perm.
  - apply py_sort_sorted.
    + intros y x. unfold tuple_lt.
      destruct (Z.eqb_spec (fst y) (fst x)) as [E|E]; [lia|].
      intros H. apply Z.ltb_lt in H. lia.
    + intros y x. unfold tuple_lt.
      destruct (Z.eqb_spec (fst y) (fst x)) as [E|E]; [lia|].
      intros H. apply Z.ltb_ge in H. exact H.
Qed.

(** ** Bits and bytes *)

(** X4: [get_bit] returns the bit of [byte] at position [bit_num], as [0]
    or [1], for every integer [byte] and every position that is not
    negative. *)
Theorem get_bit_testbit : forall byte bit_num,
  0 <= bit_num -> get_bit byte bit_num = Z.b2z (Z.testbit byte bit_num).
Proof.
  intros byte bit_num Hn. unfold get_bit. rewrite Z.shiftl_1_l.
  apply Z.bits_inj'. intros m Hm.
  rewrite Z.shiftr_spec, Z.land_spec, Z.pow2_bits_eqb by lia.
  destruct (Z.eqb_spec bit_num (m + bit_num)) as [E|E].
  - assert (m = 0) by lia. subst m. cbn [Z.add]. rewrite Z.b2z_bit0.
    apply andb_true_r.
  - rewrite andb_false_r. symmetry.
    destruct (Z.testbit byte bit_num); cbn [Z.b2z].
    + change 1 with (2 ^ 0). apply Z.pow2_bits_false. lia.
    + apply Z.bits_0.
Qed.

Lemma get_bit_testbit_witness : get_bit 5 2 = Z.b2z (Z.testbit 5 2).
Proof. apply (get_bit_testbit 5 2). lia. Defined.

Lemma bytes_below : forall b,
  is_byte b = true -> In b (map Z.of_nat (seq 0 256)).
Proof.
  intros b Hb. unfold is_byte in Hb. apply andb_true_iff in Hb.
  destruct Hb as [H0 H1]. apply Z.leb_le in H0. apply Z.ltb_lt in H1.
  apply in_map_iff. exists (Z.to_nat b). split; [lia|]. apply in_seq. lia.
Qed.

(** X5: a byte is packed back from its eight bits: [bits_to_byte] of
    [byte_to_bits] of a byte is the byte. *)
Theorem bits_to_byte_byte_to_bits : forall b,
  is_byte b = true -> bits_to_byte (byte_to_bits b) = Ok b.
Proof.
  intros b Hb.
  assert (G : forallb
                (fun v => match bits_to_byte (byte_to_bits v) with
                          | Ok w => w =? v
                          | Raise _ => false
                          end)
                (map Z.of_nat (seq 0 256)) = true) by (vm_compute; reflexivity).
  rewrite forallb_forall in G. specialize (G b (bytes_below b Hb)).
  destruct (bits_to_byte (byte_to_bits b)) as [w|e]; [|discriminate].
  apply Z.eqb_eq in G. subst w. reflexivity.
Qed.

Lemma bits_to_byte_byte_to_bits_witness : bits_to_byte (byte_to_bits 14) = Ok 14.
Proof. apply (bits_to_byte_byte_to_bits 14). reflexivity. Defined.

(** X6: the string that [byte_to_bits] returns has eight characters, each
    '0' or '1', whatever the integer; and a string of eight such characters
    that [bits_to_byte] packs into [v] is what [byte_to_bits] returns for
    [v]. *)
Theorem byte_to_bits_bits_to_byte : forall g v,
  length g = 8%nat -> forallb is_bit g = true -> bits_to_byte g = Ok v ->
  is_byte v = true /\ byte_to_bits v = g /\
  (forall w, length (byte_to_bits w) = 8%nat /\ forallb is_bit (byte_to_bits w) = true).
Proof.
  intros g v Hlen Hbits Hv.
  destruct (bits_to_byte_group g Hlen Hbits) as (v' & Hv' & Hb & Hg).
  rewrite Hv in Hv'. injection Hv' as <-.
  split; [exact Hb|]. split; [exact Hg|].
  intros w. split; [reflexivity|].
  unfold byte_to_bits. cbn [map forallb]. unfold str_of_bit.
  repeat match goal with
         | |- context [if ?c =? 0 then _ else _] => destruct (c =? 0)
         end; reflexivity.
Qed.

Lemma byte_to_bits_bits_to_byte_witness :
  is_byte 5 = true /\ byte_to_bits 5 = lit "00000101" /\
  (forall w, length (byte_to_bits w) = 8%nat /\ forallb is_bit (byte_to_bits w) = true).
Proof.
  apply (byte_to_bits_bits_to_byte (lit "00000101") 5); reflexivity.
Defined.

Lemma bits_to_byte_from_zeros : forall n pos,
  0 <= pos -> pos + Z.of_nat n <= 8 ->
  bits_to_byte_from pos (repeat "0"%char n) = Ok 0.
Proof.
  induction n as [|n IH]; intros pos H0 H8; cbn [repeat bits_to_byte_from].
  - reflexivity.
  - change (int_of_char "0") with (Ok 0 : result Z). cbn [bind].
    destruct (Z.ltb_spec (7 - pos) 0) as [E|E]; [lia|].
    rewrite IH by lia. cbn [bind]. rewrite Z.shiftl_0_l. reflexivity.
Qed.

Lemma bits_to_byte_from_pad : forall bits pos,
  0 <= pos -> pos + Z.of_nat (length bits) <= 8 ->
  bits_to_byte_from pos
    (bits ++ repeat "0"%char (Z.to_nat (8 - pos - Z.of_nat (length bits)))) =
  bits_to_byte_from pos bits.
Proof.
  induction bits as [|c bits IH]; intros pos H0 H8; cbn [app length bits_to_byte_from].
  - apply bits_to_byte_from_zeros; cbn [length] in *; lia.
  - destruct (int_of_char c) as [d|e]; cbn [bind]; [|reflexivity].
    destruct (7 - pos <? 0); [reflexivity|].
    cbn [length] in H8.
    replace (8 - pos - Z.of_nat (S (length bits)))
      with (8 - (pos + 1) - Z.of_nat (length bits)) by lia.
    rewrite IH by lia. reflexivity.
Qed.

(** X7: [bits_to_byte] pads on the right: a string of at most eight
    characters gives what the string filled with '0' up to eight characters
    gives, the same byte or the same error. *)
Theorem bits_to_byte_padded : forall bits,
  (length bits <= 8)%nat ->
  bits_to_byte (bits ++ repeat "0"%char (8 - length bits)) = bits_to_byte bits.
Proof.
  intros bits Hlen. unfold bits_to_byte.
  replace (8 - length bits)%nat with (Z.to_nat (8 - 0 - Z.of_nat (length bits))) by lia.
  apply bits_to_byte_from_pad; lia.
Qed.

Lemma bits_to_byte_padded_witness :
  bits_to_byte (lit "101" ++ repeat "0"%char (8 - length (lit "101")))
  = bits_to_byte (lit "101").
Proof. apply (bits_to_byte_padded (lit "101")). cbn [lit list_ascii_of_string length]. lia. Defined.

Lemma bits_to_byte_from_raises : forall bits pos,
  0 <= pos <= 8 ->
  8 < pos + Z.of_nat (length bits) \/ forallb is_digit bits = false ->
  bits_to_byte_from pos bits = Raise ValueError.
Proof.
  induction bits as [|c bits IH]; intros pos H0 H; cbn [bits_to_byte_from].
  - destruct H as [H|H]; [cbn [length] in H; lia|discriminate].
  - unfold int_of_char. cbn [forallb length] in H.
    fold (is_digit c). destruct (is_digit c) eqn:Ed; cbn [bind]; [|reflexivity].
    destruct (Z.ltb_spec (7 - pos) 0) as [E|E]; [reflexivity|].
    rewrite IH; [reflexivity|lia|].
    destruct H as [H|H]; [left; lia|right; exact H].
Qed.

(** X8: [bits_to_byte] raises [ValueError] on a string of more than eight
    characters (the shift count turns negative) and on a string that holds
    a character other than a digit. *)
Theorem bits_to_byte_raises : forall bits,
  (8 < length bits)%nat \/ forallb is_digit bits = false ->
  bits_to_byte bits = Raise ValueError.
Proof.
  intros bits H. apply bits_to_byte_from_raises; [lia|].
  destruct H as [H|H]; [left; lia|right; exact H].
Qed.

Lemma bits_to_byte_raises_witness : bits_to_byte (lit "000000001") = Raise ValueError.
Proof.
  apply (bits_to_byte_raises (lit "000000001")). left.
  cbn [lit list_ascii_of_string length]. lia.
Defined.

(** ** The size field *)

(** X9: for a size that fits 32 bits, [size_to_bytes] returns four bytes
    from which [bytes_to_size] returns the size. *)
Theorem bytes_to_size_size_to_bytes : forall size,
  0 <= size < 2 ^ 32 ->
  exists buf,
    size_to_bytes size = Ok buf /\ length buf = 4%nat /\
    forallb is_byte buf = true /\ bytes_to_size buf = size.
Proof.
  intros size Hs.
  destruct (size_to_bytes_inverse size Hs) as (b0 & b1 & b2 & b3 & Hb & Hinv).
  exists [b0; b1; b2; b3]. split; [exact Hb|]. split; [reflexivity|].
  split; [|exact Hinv].
  unfold size_to_bytes in Hb.
  destruct ((0 <=? size) && (size <? 2 ^ 32)); [|discriminate].
  injection Hb as <- <- <- <-. cbn [forallb]. unfold is_byte.
  repeat match goal with
         | |- context [?a mod 256] =>
             let H := fresh in
             pose proof (Z.mod_pos_bound a 256 ltac:(lia)) as H;
             generalize dependent (a mod 256); intros
         end.
  repeat (apply andb_true_iff; split); try apply Z.leb_le; try apply Z.ltb_lt;
    try lia; reflexivity.
Qed.

Lemma bytes_to_size_size_to_bytes_witness :
  exists buf,
    size_to_bytes 300 = Ok buf /\ length buf = 4%nat /\
    forallb is_byte buf = true /\ bytes_to_size buf = 300.
Proof. apply (bytes_to_size_size_to_bytes 300). change (2 ^ 32) with 4294967296. lia. Defined.

(** [size_to_bytes] raises [OverflowError] on a negative size and on a
    size of 2^32 or more. *)
Theorem size_to_bytes_overflow : forall size,
  size < 0 \/ 2 ^ 32 <= size -> size_to_bytes size = Raise OverflowError.
Proof.
  intros size H. unfold size_to_bytes.
  destruct (Z.leb_spec 0 size) as [H0|H0]; [|reflexivity].
  destruct (Z.ltb_spec size (2 ^ 32)) as [H1|H1]; [lia|reflexivity].
Qed.

Lemma size_to_bytes_overflow_witness : size_to_bytes (-1) = Raise OverflowError.
Proof. apply (size_to_bytes_overflow (-1)). left. lia. Defined.

(** X10: four bytes are the little-endian representation of the size that
    [bytes_to_size] reads from them. *)
Theorem size_to_bytes_bytes_to_size : forall b0 b1 b2 b3,
  forallb is_byte [b0; b1; b2; b3] = true ->
  size_to_bytes (bytes_to_size [b0; b1; b2; b3]) = Ok [b0; b1; b2; b3].
Proof.
  intros b0 b1 b2 b3 H. cbn [forallb] in H. unfold is_byte in H.
  repeat match type of H with
         | _ && _ = true => apply andb_true_iff in H; destruct H as [? H]
         end.
  repeat match goal with
         | H : (_ <=? _) = true |- _ => apply Z.leb_le in H
         | H : (_ <? _) = true |- _ => apply Z.ltb_lt in H
         | H : _ && _ = true |- _ => apply andb_true_iff in H; destruct H
         end.
  cbn [bytes_to_size]. unfold size_to_bytes.
  set (n := b0 + 256 * (b1 + 256 * (b2 + 256 * (b3 + 256 * 0)))).
  change (2 ^ 32) with 4294967296.
  destruct (Z.leb_spec 0 n) as [_|E]; [|unfold n in E; lia].
  destruct (Z.ltb_spec n 4294967296) as [_|E]; [|unfold n in E; lia].
  cbn [andb].
  assert (E0 : n mod 256 = b0) by (unfold n; Z.div_mod_to_equations; lia).
  assert (E1 : (n / 256) mod 256 = b1) by (unfold n; Z.div_mod_to_equations; lia).
  assert (E2 : (n / 65536) mod 256 = b2) by (unfold n; Z.div_mod_to_equations; lia).
  assert (E3 : (n / 16777216) mod 256 = b3) by (unfold n; Z.div_mod_to_equations; lia).
  rewrite E0, E1, E2, E3. reflexivity.
Qed.

Lemma size_to_bytes_bytes_to_size_witness :
  size_to_bytes (bytes_to_size [44; 1; 0; 0]) = Ok [44; 1; 0; 0].
Proof. apply (size_to_bytes_bytes_to_size 44 1 0 0). reflexivity. Defined.

(** ** Records *)

Lemma bytes_to_nodes_ok : forall rs buf,
  bytes_to_nodes buf = Ok rs -> buf = flat_map record_bytes rs.
Proof.
  induction rs as [|r rs IH]; intros buf H.
  - destruct buf as [|a [|b [|c [|d rest]]]]; cbn [bytes_to_nodes] in H;
      try discriminate; [reflexivity|].
    destruct (bytes_to_nodes rest); discriminate.
  - destruct buf as [|a [|b [|c [|d rest]]]]; cbn [bytes_to_nodes] in H;
      try discriminate.
    destruct (bytes_to_nodes rest) as [lst|e] eqn:E; cbn [bind] in H; [|discriminate].
    injection H as <- <-. cbn [flat_map record_bytes l_type l_data r_type r_data app].
    rewrite <- (IH rest E). reflexivity.
Qed.

(** X11: [bytes_to_nodes] returns a list of records exactly for the buffer
    that lists the four fields of each record in order: it is the inverse
    of writing the records out. *)
Theorem bytes_to_nodes_inverse : forall buf rs,
  bytes_to_nodes buf = Ok rs <-> buf = flat_map record_bytes rs.
Proof.
  intros buf rs. split.
  - apply bytes_to_nodes_ok.
  - intros ->. apply bytes_to_nodes_records.
Qed.

Lemma bytes_to_nodes_length_aux : forall n buf,
  (length buf < 4 * n)%nat ->
  match bytes_to_nodes buf with
  | Ok rs => (length buf = 4 * length rs)%nat
  | Raise e => e = IndexError /\ (length buf mod 4 <> 0)%nat
  end.
Proof.
  induction n as [|n IH]; intros buf Hlen; [lia|].
  destruct buf as [|a [|b [|c [|d rest]]]]; cbn [bytes_to_nodes length].
  - reflexivity.
  - split; [reflexivity|]. cbn. lia.
  - split; [reflexivity|]. cbn. lia.
  - split; [reflexivity|]. cbn. lia.
  - cbn [length] in Hlen. specialize (IH rest ltac:(lia)).
    destruct (bytes_to_nodes rest) as [lst|e]; cbn [bind length].
    + lia.
    + destruct IH as [-> Hmod]. split; [reflexivity|].
      replace (S (S (S (S (length rest))))) with (length rest + 1 * 4)%nat by lia.
      rewrite Nat.Div0.mod_add. exact Hmod.
Qed.

(** X12: [bytes_to_nodes] returns one record for every four bytes of a
    buffer whose length is a multiple of four, and raises [IndexError] on
    every other buffer. *)
Theorem bytes_to_nodes_length : forall buf,
  ((length buf mod 4 = 0)%nat ->
   exists rs, bytes_to_nodes buf = Ok rs /\ (length buf = 4 * length rs)%nat) /\
  ((length buf mod 4 <> 0)%nat -> bytes_to_nodes buf = Raise IndexError).
Proof.
  intros buf.
  pose proof (bytes_to_nodes_length_aux (S (length buf)) buf ltac:(lia)) as H.
  destruct (bytes_to_nodes buf) as [rs|e].
  - split; [eauto|]. intros Hmod. exfalso. apply Hmod. rewrite H.
    rewrite Nat.mul_comm. apply Nat.Div0.mod_mul.
  - destruct H as [-> Hmod]. split; [contradiction|reflexivity].
Qed.

(** [helper_generate_tree] makes one node for every record; for a
    record whose two types are [0] or [1] the node has a leaf with the data
    of the field for a type [0] and a placeholder numbered with the data for
    a type [1]; for any other pair of types both children are placeholders,
    whatever the type of each field. *)
Theorem helper_generate_tree_nodes : forall node_lst,
  length (helper_generate_tree node_lst) = length node_lst /\
  forall i element,
    nth_error node_lst i = Some element ->
    nth_error (helper_generate_tree node_lst) i =
    Some (if ((l_type element =? 0) || (l_type element =? 1)) &&
             ((r_type element =? 0) || (r_type element =? 1))
          then Internal (field_node (l_type element) (l_data element))
                        (field_node (r_type element) (r_data element))
          else Internal (placeholder (l_data element)) (placeholder (r_data element))).
Proof.
  intros node_lst. unfold helper_generate_tree. split; [apply length_map|].
  intros i element H. rewrite nth_error_map, H. cbn [option_map]. f_equal.
  unfold helper_node, field_node.
  destruct (Z.eqb_spec (l_type element) 0) as [L0|L0];
    destruct (Z.eqb_spec (l_type element) 1) as [L1|L1];
    destruct (Z.eqb_spec (r_type element) 0) as [R0|R0];
    destruct (Z.eqb_spec (r_type element) 1) as [R1|R1];
    cbn [andb orb]; try reflexivity; lia.
Qed.

(** ** Inverting a dictionary *)

Lemma dict_set_new : forall (K V : Type) `{PyEqLaws K} (d : dict K V) k v,
  ~ In k (keys d) -> dict_set d k v = d ++ [(k, v)].
Proof.
  intros K V E L d k v. unfold keys. induction d as [|[k' v'] d IH];
    cbn [dict_set map fst In app]; intros Hnot.
  - reflexivity.
  - destruct (eqb k' k) eqn:Ek.
    + apply eqb_eq in Ek. subst k'. exfalso. apply Hnot. left. reflexivity.
    + rewrite IH; [reflexivity|]. intros Hin. apply Hnot. right. exact Hin.
Qed.

Lemma invert_dict_swap : forall (K V : Type) `{PyEqLaws V} (d : dict K V) acc,
  NoDup (keys acc ++ map snd d) ->
  fold_left (fun new_dict kv => dict_set new_dict (snd kv) (fst kv)) d acc =
  acc ++ map swap_entry d.
Proof.
  intros K V E L d. induction d as [|[k v] d IH]; intros acc Hnd;
    cbn [fold_left map fst snd].
  - rewrite app_nil_r. reflexivity.
  - cbn [map snd] in Hnd.
    assert (Hnew : ~ In v (keys acc)).
    { intros Hin. apply NoDup_remove_2 in Hnd. apply Hnd.
      apply in_or_app. left. exact Hin. }
    rewrite (dict_set_new V K acc v k Hnew), IH.
    + rewrite <- app_assoc. reflexivity.
    + unfold keys in *. rewrite map_app. cbn [map fst]. rewrite <- app_assoc.
      cbn [app].
      apply (Permutation_NoDup (l := map fst acc ++ v :: map snd d)); [|exact Hnd].
      apply Permutation_app_head. apply Permutation_refl.
Qed.

(** X13: on a dictionary whose values are distinct, [invert_dict] exchanges
    key and value in every entry and keeps the order of the entries; when
    the keys are distinct too, inverting twice gives the dictionary back. *)
Theorem invert_dict_involutive : forall (d : dict Z str),
  NoDup (map snd d) ->
  invert_dict d = map swap_entry d /\
  (NoDup (keys d) -> invert_dict (invert_dict d) = d).
Proof.
  intros d Hv.
  assert (H1 : invert_dict d = map swap_entry d).
  { unfold invert_dict. rewrite (invert_dict_swap Z str d []); [reflexivity|].
    exact Hv. }
  split; [exact H1|]. intros Hk. rewrite H1. unfold invert_dict.
  rewrite (invert_dict_swap str Z (map swap_entry d) []).
  - cbn [app]. rewrite map_map. unfold swap_entry. cbn [fst snd].
    rewrite <- (map_id d) at 2. apply map_ext. intros [k v]. reflexivity.
  - cbn [keys map app]. rewrite map_map. unfold swap_entry. cbn [snd]. exact Hk.
Qed.

Lemma invert_dict_involutive_witness :
  invert_dict doctest_codes = map swap_entry doctest_codes /\
  (NoDup (keys doctest_codes) -> invert_dict (invert_dict doctest_codes) = doctest_codes).
Proof.
  apply (invert_dict_involutive doctest_codes).
  cbn [doctest_codes map snd].
  repeat constructor; cbn [In]; intros H;
    repeat match goal with H : _ \/ _ |- _ => destruct H end;
    try discriminate; assumption.
Defined.

Lemma find_last_app : forall (d1 d2 : dict Z str) k c,
  ~ In c (map snd d2) -> find_last c (d1 ++ (k, c) :: d2) = Some k.
Proof.
  intros d1 d2 k c Hnot.
  assert (H2 : find_last c d2 = None).
  { destruct (find_last c d2) as [k'|] eqn:E; [|reflexivity].
    exfalso. apply Hnot. apply (find_last_in Z str) in E.
    apply in_map_iff. exists (k', c). auto. }
  induction d1 as [|[k1 v1] d1 IH]; cbn [app find_last].
  - rewrite H2. cbn [eqb PyEq_str]. rewrite (proj2 (str_eqb_eq c c) eq_refl).
    reflexivity.
  - rewrite IH. reflexivity.
Qed.

(** X14: when several keys have the same value, the inverted dictionary
    maps the value to the last of them in the order of the dictionary. *)
Theorem invert_dict_last_key : forall (d1 d2 : dict Z str) k c,
  ~ In c (map snd d2) ->
  dict_get (invert_dict (d1 ++ (k, c) :: d2)) c = Some k.
Proof.
  intros d1 d2 k c Hnot. unfold invert_dict.
  rewrite (invert_dict_get Z str), (find_last_app d1 d2 k c Hnot). reflexivity.
Qed.

Lemma invert_dict_last_key_witness :
  dict_get (invert_dict ([(1, lit "0")] ++ (2, lit "0") :: [(3, lit "1")])) (lit "0")
  = Some 2.
Proof.
  apply (invert_dict_last_key [(1, lit "0")] [(3, lit "1")] 2 (lit "0")).
  cbn [map snd In]. intros [H|[]]. discriminate.
Defined.

(** ** The tree of a frequency table *)

Lemma full_leaf_count_internal : forall a b,
  full a = true -> full b = true ->
  length (tree_symbols a) = S (count_internal a) ->
  length (tree_symbols b) = S (count_internal b) ->
  length (tree_symbols (Internal a b)) = S (count_internal (Internal a b)).
Proof.
  intros a b Fa Fb Ha Hb. cbn [Internal tree_symbols count_internal app].
  rewrite (full_not_none a Fa). cbn [andb]. rewrite length_app, Ha, Hb. lia.
Qed.

(** X15: for a frequency table with two keys or more, whatever the order of
    the nodes, [huffman_tree] returns a tree whose root has children, in
    which every node has two children or none and only the childless nodes
    carry symbols; the symbols of its leaves are the keys of the table, each
    once, and it has one internal node less than the table has keys. *)
Theorem huffman_tree_leaves : forall node_lt freq_dict,
  (2 <= length freq_dict)%nat ->
  exists t,
    huffman_tree node_lt freq_dict = Ok t /\
    full t = true /\ leaf_symbols t = true /\ leafb t = false /\
    Permutation (tree_symbols t) (keys freq_dict) /\
    S (count_internal t) = length freq_dict.
Proof.
  intros node_lt freq_dict Hlen.
  destruct (huffman_tree_builds
              (fun t => full t = true /\ leaf_symbols t = true /\
                        length (tree_symbols t) = S (count_internal t)))
    with (node_lt := node_lt) (freq_dict := freq_dict)
    as (t & Ht & (Hf & Hl & Hc) & Hperm).
  - intros a b (Fa & La & Ca) (Fb & Lb & Cb). split; [|split].
    + cbn [Internal full]. rewrite Fa, Fb. apply orb_true_r.
    + cbn [Internal leaf_symbols]. rewrite La, Lb. reflexivity.
    + apply full_leaf_count_internal; assumption.
  - exact Hlen.
  - intros k _. repeat split.
  - exists t. split; [exact Ht|]. split; [exact Hf|]. split; [exact Hl|].
    assert (Hk : S (count_internal t) = length freq_dict).
    { rewrite <- Hc, (Permutation_length Hperm). unfold keys. apply length_map. }
    split; [|split; [exact Hperm|exact Hk]].
    destruct t as [|s l r n]; [discriminate|].
    cbn [leafb count_internal] in *. destruct (is_none l && is_none r); [lia|reflexivity].
Qed.

Lemma huffman_tree_leaves_witness :
  exists t,
    huffman_tree (fun _ _ => false) [(65, 1); (66, 2); (67, 1)] = Ok t /\
    full t = true /\ leaf_symbols t = true /\ leafb t = false /\
    Permutation (tree_symbols t) (keys [(65, 1); (66, 2); (67, 1)]) /\
    S (count_internal t) = length [(65, 1); (66, 2); (67, 1)].
Proof.
  apply (huffman_tree_leaves (fun _ _ => false) [(65, 1); (66, 2); (67, 1)]).
  cbn [length]. lia.
Defined.

(** [huffman_tree] returns [None] for the empty table and, for a table
    with a single key, the bare leaf of that key: the only trees it returns
    whose root has no children. *)
Theorem huffman_tree_degenerate : forall node_lt k f,
  huffman_tree node_lt [] = Ok NoneNode /\
  huffman_tree node_lt [(k, f)] = Ok (Leaf k).
Proof. intros node_lt k f. split; reflexivity. Qed.

(** ** The code table *)

(** X16: the keys of [get_codes] are the symbols that the nodes of the tree
    carry, each key once, for every tree. *)
Theorem get_codes_symbols : forall t,
  NoDup (keys (get_codes t)) /\
  forall s, In s (keys (get_codes t)) <-> In s (tree_symbols t).
Proof.
  intros t. split.
  - apply get_codes_internal_nodup. constructor.
  - intros s. split.
    + apply get_codes_keys.
    + intros H. apply get_codes_internal_has_key. right. exact H.
Qed.

Lemma symbol_at_in : forall t c s,
  symbol_at t c = Some s -> In s (tree_symbols t).
Proof.
  induction t as [|sym l IHl r IHr n]; intros c s H; [discriminate|].
  cbn [symbol_at tree_symbols] in *. destruct c as [|b c].
  - subst sym. left. reflexivity.
  - apply in_or_app. right. apply in_or_app.
    destruct (Ascii.eqb b "0"); [left; exact (IHl c s H)|].
    destruct (Ascii.eqb b "1"); [right; exact (IHr c s H)|discriminate].
Qed.

Lemma nodup_app_disjoint : forall (A : Type) (l l' : list A) a,
  NoDup (l ++ l') -> In a l -> In a l' -> False.
Proof.
  intros A l l' a. induction l as [|x l IH]; cbn [app In]; intros Hnd Hl Hl'.
  - exact Hl.
  - apply NoDup_cons_iff in Hnd. destruct Hnd as [Hnot Hnd].
    destruct Hl as [->|Hl].
    + apply Hnot. apply in_or_app. right. exact Hl'.
    + exact (IH Hnd Hl Hl').
Qed.

(** In a tree whose symbols are distinct one path leads to a symbol. *)
Lemma symbol_at_unique : forall t c c' s,
  NoDup (tree_symbols t) ->
  symbol_at t c = Some s -> symbol_at t c' = Some s -> c = c'.
Proof.
  induction t as [|sym l IHl r IHr n]; intros c c' s Hnd H H'; [discriminate|].
  cbn [tree_symbols] in Hnd.
  assert (Hroot : forall p, sym = Some s -> symbol_at (HNode sym l r n) p = Some s ->
                            p = []).
  { intros p -> Hp. destruct p as [|b p]; [reflexivity|]. exfalso.
    cbn [app] in Hnd. apply NoDup_cons_iff in Hnd. destruct Hnd as [Hnot _].
    apply Hnot. apply (symbol_at_in (HNode None l r n) (b :: p) s). exact Hp. }
  destruct c as [|b c].
  - cbn [symbol_at] in H. symmetry. exact (Hroot c' H H').
  - destruct c' as [|b' c'].
    + cbn [symbol_at] in H'. exact (Hroot (b :: c) H' H).
    + apply NoDup_app_remove_l in Hnd.
      cbn [symbol_at] in H, H'.
      destruct (Ascii.eqb_spec b "0") as [->|B0].
      * destruct (Ascii.eqb_spec b' "0") as [->|B0'].
        -- f_equal. apply (IHl c c' s); [|exact H|exact H'].
           apply (NoDup_app_remove_r _ _ Hnd).
        -- destruct (Ascii.eqb b' "1"); [|discriminate]. exfalso.
           apply symbol_at_in in H, H'.
           exact (nodup_app_disjoint _ _ _ s Hnd H H').
      * destruct (Ascii.eqb_spec b "1") as [->|B1]; [|discriminate].
        destruct (Ascii.eqb_spec b' "0") as [->|B0'].
        -- exfalso. apply symbol_at_in in H, H'.
           exact (nodup_app_disjoint _ _ _ s Hnd H' H).
        -- destruct (Ascii.eqb_spec b' "1") as [->|B1']; [|discriminate].
           f_equal. apply (IHr c c' s); [|exact H|exact H'].
           apply (NoDup_app_remove_l _ _ Hnd).
Qed.

(** X17: in a tree whose symbols are distinct, the code that [get_codes]
    gives a symbol is the path from the root to its node, '0' for left and
    '1' for right, and nothing else has a code. *)
Theorem get_codes_paths : forall t s c,
  NoDup (tree_symbols t) ->
  (dict_get (get_codes t) s = Some c <-> symbol_at t c = Some s).
Proof.
  intros t s c Hnd. split.
  - intros H. apply get_codes_entries. apply (dict_get_in Z str). exact H.
  - intros H.
    assert (Hk : In s (keys (get_codes t))).
    { apply get_codes_internal_has_key. right. exact (symbol_at_in t c s H). }
    destruct (key_dict_get Z str (get_codes t) s Hk) as [c' Hc'].
    rewrite Hc'. f_equal.
    apply (symbol_at_unique t c' c s Hnd); [|exact H].
    apply get_codes_entries. apply (dict_get_in Z str). exact Hc'.
Qed.

Lemma get_codes_paths_witness :
  dict_get (get_codes (Internal (Leaf 3) (Leaf 2))) 2 = Some (lit "1") <->
  symbol_at (Internal (Leaf 3) (Leaf 2)) (lit "1") = Some 2.
Proof.
  apply (get_codes_paths (Internal (Leaf 3) (Leaf 2)) 2 (lit "1")).
  cbn [Internal Leaf tree_symbols app].
  repeat constructor; cbn [In]; intros H;
    repeat match goal with H : _ \/ _ |- _ => destruct H end;
    try discriminate; assumption.
Defined.

(** ** Numbering, beyond full trees *)

Lemma number_internal_ok_full : forall t n op l r,
  number_internal t n op l = Ok r -> full t = true.
Proof.
  induction t as [|s lft IHl rgt IHr num]; intros n op l r H;
    cbn [number_internal] in H; [discriminate|].
  cbn [full]. destruct (is_none lft && is_none rgt); [reflexivity|].
  destruct (number_internal rgt (n + op) op (l ++ [n])) as [[[rgt' n1] l2]|e] eqn:Er;
    cbn [bind] in H; [|discriminate].
  destruct (number_internal lft n1 op l2) as [[[lft' n2] l3]|e] eqn:El;
    cbn [bind] in H; [|discriminate].
  rewrite (IHl _ _ _ _ El), (IHr _ _ _ _ Er). reflexivity.
Qed.

Lemma number_internal_not_full : forall t n op l,
  full t = false -> number_internal t n op l = Raise AttributeError.
Proof.
  induction t as [|s lft IHl rgt IHr num]; intros n op l H;
    cbn [number_internal]; [reflexivity|].
  cbn [full] in H. destruct (is_none lft && is_none rgt); [discriminate|].
  cbn [orb] in H.
  destruct (full rgt) eqn:Fr.
  - rewrite (number_internal_full rgt _ _ _ Fr). cbn [bind].
    rewrite andb_true_r in H. rewrite (IHl _ _ _ H). reflexivity.
  - rewrite (IHr _ _ _ eq_refl). reflexivity.
Qed.

Lemma label_erase : forall t n op, erase_numbers (label t n op) = erase_numbers t.
Proof.
  induction t as [|s lft IHl rgt IHr num]; intros n op; cbn [label]; [reflexivity|].
  destruct (is_none lft && is_none rgt); [reflexivity|].
  cbn [erase_numbers]. rewrite IHl, IHr. reflexivity.
Qed.

Lemma label_label : forall t a op b op',
  label (label t a op) b op' = label t b op'.
Proof.
  induction t as [|s lft IHl rgt IHr num]; intros a op b op'; cbn [label]; [reflexivity|].
  destruct (is_none lft && is_none rgt) eqn:E; cbn [label].
  - rewrite E. reflexivity.
  - rewrite !label_is_none, E, label_count, IHl, IHr. reflexivity.
Qed.

Lemma label_leaf : forall t n op, leafb t = true -> label t n op = t.
Proof.
  intros t n op H. destruct t as [|s lft rgt num]; [reflexivity|].
  cbn [leafb label] in *. rewrite H. reflexivity.
Qed.

(** What [number_nodes] returns when it returns: the tree itself when a
    child of the root is missing, the numbered tree otherwise. *)
Lemma number_nodes_ok : forall t t',
  number_nodes t = Ok t' ->
  t' = t \/
  (full t = true /\
   t' = label (label t 0 1) (Z.of_nat (count_internal t) - 1) (-1)).
Proof.
  intros t t' H. destruct t as [|s lft rgt num]; [discriminate|].
  destruct (negb (is_none lft) && negb (is_none rgt)) eqn:G.
  - right.
    assert (Hf : full (HNode s lft rgt num) = true).
    { unfold number_nodes in H. rewrite G in H.
      destruct (number_internal (HNode s lft rgt num) 0 1 []) as [r|e] eqn:E;
        [|discriminate].
      exact (number_internal_ok_full _ _ _ _ _ E). }
    split; [exact Hf|].
    rewrite number_nodes_label in H.
    + injection H as <-. reflexivity.
    + exact Hf.
    + cbn [is_leaf]. destruct (is_none lft), (is_none rgt); try discriminate.
      reflexivity.
  - left. unfold number_nodes in H. rewrite G in H. injection H as <-. reflexivity.
Qed.

(** X18: whenever [number_nodes] returns, the tree it leaves differs from
    the tree it was given in [number] fields only, so [get_codes] derives
    the same table from both. *)
Theorem number_nodes_keeps_codes : forall t t',
  number_nodes t = Ok t' ->
  erase_numbers t' = erase_numbers t /\ get_codes t' = get_codes t.
Proof.
  intros t t' H.
  assert (He : erase_numbers t' = erase_numbers t).
  { destruct (number_nodes_ok t t' H) as [->|[_ ->]]; [reflexivity|].
    rewrite !label_erase. reflexivity. }
  split; [exact He|]. unfold get_codes.
  rewrite <- (erase_numbers_get_codes t'), He. apply erase_numbers_get_codes.
Qed.

Lemma number_nodes_keeps_codes_witness :
  erase_numbers chain_tree =
    erase_numbers (Internal (Internal (Internal (Leaf 1) (Leaf 2)) (Leaf 3)) (Leaf 4)) /\
  get_codes chain_tree =
    get_codes (Internal (Internal (Internal (Leaf 1) (Leaf 2)) (Leaf 3)) (Leaf 4)).
Proof.
  apply (number_nodes_keeps_codes
           (Internal (Internal (Internal (Leaf 1) (Leaf 2)) (Leaf 3)) (Leaf 4))
           chain_tree).
  reflexivity.
Defined.

(** X19: numbering is idempotent: on the tree that [number_nodes] leaves, a
    second call returns and changes nothing. *)
Theorem number_nodes_idempotent : forall t t',
  number_nodes t = Ok t' -> number_nodes t' = Ok t'.
Proof.
  intros t t' H. destruct (number_nodes_ok t t' H) as [->|[Hf Ht']]; [exact H|].
  destruct (leafb t) eqn:El.
  - rewrite !(label_leaf t) in Ht' by exact El. subst t'. exact H.
  - assert (Hleaf : is_leaf t = Ok false).
    { destruct (node_fields t (full_not_none t Hf)) as (-> & _ & _).
      rewrite El. reflexivity. }
    subst t'. rewrite number_nodes_label.
    + rewrite !label_count, !label_label. reflexivity.
    + rewrite !label_full. exact Hf.
    + rewrite !label_is_leaf. exact Hleaf.
Qed.

Lemma number_nodes_idempotent_witness : number_nodes chain_tree = Ok chain_tree.
Proof.
  apply (number_nodes_idempotent
           (Internal (Internal (Internal (Leaf 1) (Leaf 2)) (Leaf 3)) (Leaf 4))
           chain_tree).
  reflexivity.
Defined.

(** X20: on a tree whose root has two children and in which some node has
    exactly one child, [number_nodes] raises [AttributeError]: the traversal
    reaches the missing child. *)
Theorem number_nodes_one_child : forall symbol lft rgt number,
  is_none lft = false -> is_none rgt = false ->
  full (HNode symbol lft rgt number) = false ->
  number_nodes (HNode symbol lft rgt number) = Raise AttributeError.
Proof.
  intros symbol lft rgt number Hl Hr Hf. unfold number_nodes.
  rewrite Hl, Hr. cbn [negb andb].
  rewrite (number_internal_not_full _ 0 1 [] Hf). reflexivity.
Qed.

Lemma number_nodes_one_child_witness :
  number_nodes (Internal (HNode None (Leaf 1) NoneNode None) (Leaf 2))
  = Raise AttributeError.
Proof.
  apply (number_nodes_one_child None (HNode None (Leaf 1) NoneNode None) (Leaf 2) None);
    reflexivity.
Defined.

(** ** The header of the artifact *)

Lemma numbered_from_root : forall t a,
  is_none t = false -> leafb t = false -> numbered_from t a ->
  number_of t = Some (Z.of_nat a + Z.of_nat (count_internal t) - 1).
Proof.
  intros t a Hnone Hleaf Hn. destruct t as [|s l r n]; [discriminate|].
  cbn [leafb numbered_from count_internal number_of] in *. rewrite Hleaf in *.
  destruct Hn as (_ & _ & ->). f_equal. lia.
Qed.

(** X21: for a Huffman tree over bytes with an internal root, numbered in
    postorder, with [k] internal nodes, [k] at most 255, [num_nodes_to_bytes]
    returns the single byte [k] and [tree_to_bytes] returns [4 * k] bytes:
    the count announces the records that follow it. *)
Theorem tree_header : forall t,
  huffman_shape t = true ->
  leafb t = false ->
  numbered t ->
  (count_internal t <= 255)%nat ->
  exists buf,
    num_nodes_to_bytes t = Ok [Z.of_nat (count_internal t)] /\
    tree_to_bytes t = Ok buf /\
    length buf = (4 * count_internal t)%nat /\
    forallb is_byte buf = true.
Proof.
  intros t Hs Hleaf Hnum Hk.
  pose proof (numbered_numbered_from t Hnum) as Hn.
  exists (flat_map record_bytes (read_nodes t)).
  split; [|split; [|split]].
  - unfold num_nodes_to_bytes.
    destruct (node_fields t (huffman_shape_not_none t Hs)) as (_ & _ & ->).
    rewrite (numbered_from_root t 0 (huffman_shape_not_none t Hs) Hleaf Hn).
    cbn [bind to_bytes].
    replace (Z.of_nat 0 + Z.of_nat (count_internal t) - 1 + 1)
      with (Z.of_nat (count_internal t)) by lia.
    assert (Hb : is_byte (Z.of_nat (count_internal t)) = true).
    { unfold is_byte. apply andb_true_iff. split; [apply Z.leb_le|apply Z.ltb_lt]; lia. }
    rewrite Hb. reflexivity.
  - apply tree_to_bytes_read_nodes; try assumption. lia.
  - apply read_nodes_bytes_length.
  - destruct (serialize_ok t 0 Hs Hn) as [_ Hb]; [lia|exact Hb].
Qed.

Lemma tree_header_witness :
  exists buf,
    num_nodes_to_bytes chain_tree = Ok [Z.of_nat (count_internal chain_tree)] /\
    tree_to_bytes chain_tree = Ok buf /\
    length buf = (4 * count_internal chain_tree)%nat /\
    forallb is_byte buf = true.
Proof.
  apply (tree_header chain_tree).
  - reflexivity.
  - reflexivity.
  - reflexivity.
  - vm_compute. lia.
Defined.

(** X22: [tree_to_bytes] writes a bare leaf as the two bytes [0] and its
    symbol, which is not a record: [bytes_to_nodes] raises [IndexError] on
    it.  For [None] the serialization is empty. *)
Theorem tree_to_bytes_leaf : forall s number,
  is_byte s = true ->
  tree_to_bytes (HNode (Some s) NoneNode NoneNode number) = Ok [0; s] /\
  (buf <- tree_to_bytes (HNode (Some s) NoneNode NoneNode number) ;; bytes_to_nodes buf)
    = Raise IndexError /\
  tree_to_bytes NoneNode = Ok [].
Proof.
  intros s number Hs.
  assert (H : tree_to_bytes (HNode (Some s) NoneNode NoneNode number) = Ok [0; s]).
  { unfold tree_to_bytes. cbn [is_none tree_to_bytes_internal andb app bind to_bytes].
    rewrite Hs. reflexivity. }
  split; [exact H|]. split; [rewrite H; reflexivity|reflexivity].
Qed.

Lemma tree_to_bytes_leaf_witness :
  tree_to_bytes (HNode (Some 65) NoneNode NoneNode None) = Ok [0; 65] /\
  (buf <- tree_to_bytes (HNode (Some 65) NoneNode NoneNode None) ;; bytes_to_nodes buf)
    = Raise IndexError /\
  tree_to_bytes NoneNode = Ok [].
Proof. apply (tree_to_bytes_leaf 65 None). reflexivity. Defined.

Lemma to_bytes_none : forall l,
  Forall (fun o => match o with Some b => is_byte b = true | None => True end) l ->
  In None l -> to_bytes l = Raise TypeError.
Proof.
  induction l as [|o l IH]; intros HF Hin; [destruct Hin|].
  cbn [to_bytes]. destruct o as [b|]; [|reflexivity].
  rewrite (Forall_inv HF). rewrite IH; [reflexivity|exact (Forall_inv_tail HF)|].
  destruct Hin as [Hin|Hin]; [discriminate|exact Hin].
Qed.

Lemma unnumbered_fields : forall c,
  huffman_shape c = true -> erase_numbers c = c ->
  is_byte (fst (child_fields c)) = true /\
  match snd (child_fields c) with Some b => is_byte b = true | None => True end /\
  (leafb c = false -> snd (child_fields c) = None).
Proof.
  intros c Hs He. destruct c as [|s l r n]; [discriminate|].
  cbn [erase_numbers] in He. injection He as _ _ <-.
  unfold child_fields. cbn [leafb symbol_of number_of].
  destruct (huffman_shape_inv _ _ _ _ Hs) as [(x & -> & -> & -> & Hx)|(-> & _ & _ & E)].
  - cbn [is_none andb fst snd]. split; [reflexivity|]. split; [exact Hx|discriminate].
  - rewrite E. cbn [fst snd]. split; [reflexivity|]. split; [exact I|].
    intros _. reflexivity.
Qed.

Lemma unnumbered_records : forall t,
  huffman_shape t = true -> erase_numbers t = t ->
  Forall (fun o => match o with Some b => is_byte b = true | None => True end)
         (concat (records t)).
Proof.
  induction t as [|s l IHl r IHr n]; intros Hs He; [discriminate|].
  cbn [erase_numbers] in He. injection He as El Er _.
  destruct (huffman_shape_inv _ _ _ _ Hs) as [(x & -> & -> & -> & Hx)|(-> & Hl & Hr & E)].
  - constructor.
  - cbn [records]. rewrite E, !concat_app. cbn [concat]. rewrite app_nil_r.
    destruct (unnumbered_fields l Hl El) as (L1 & L2 & _).
    destruct (unnumbered_fields r Hr Er) as (R1 & R2 & _).
    apply Forall_app. split; [exact (IHl Hl El)|].
    apply Forall_app. split; [exact (IHr Hr Er)|].
    repeat constructor; assumption.
Qed.

(** X23: on a Huffman tree over bytes in which no number is set and whose
    root has an internal child, [tree_to_bytes] raises [TypeError], and so
    does [improve_tree] for every frequency table: both need the tree
    numbered. *)
Theorem tree_to_bytes_unnumbered : forall t freq_dict,
  huffman_shape t = true ->
  erase_numbers t = t ->
  (3 <= height t)%nat ->
  tree_to_bytes t = Raise TypeError /\ improve_tree t freq_dict = Raise TypeError.
Proof.
  intros t freq_dict Hs He Hh.
  assert (H : tree_to_bytes t = Raise TypeError).
  { pose proof (unnumbered_records t Hs He) as HF.
    destruct t as [|s l r n]; [discriminate|].
    destruct (huffman_shape_inv _ _ _ _ Hs) as [(x & -> & -> & -> & Hx)|(-> & Hl & Hr & E)].
    - cbn [height Nat.max] in Hh. lia.
    - unfold tree_to_bytes. cbn [is_none].
      rewrite (tree_to_bytes_internal_records _ [] (huffman_shape_full _ Hs))
        by (cbn [leafb]; exact E).
      cbn [bind app]. apply to_bytes_none; [exact HF|].
      cbn [erase_numbers] in He. injection He as El Er _.
      cbn [records]. rewrite E, !concat_app. cbn [concat]. rewrite app_nil_r.
      apply in_or_app. right. apply in_or_app. right.
      cbn [height] in Hh.
      assert (Hc : leafb l = false \/ leafb r = false).
      { destruct (leafb l) eqn:Ll; [|auto]. destruct (leafb r) eqn:Lr; [|auto].
        exfalso. destruct l as [|? [|] [|] ?], r as [|? [|] [|] ?];
          cbn [leafb is_none andb] in *; try discriminate.
        cbn [height Nat.max] in Hh. lia. }
      destruct Hc as [Hc|Hc].
      + destruct (unnumbered_fields l Hl El) as (_ & _ & Hnone).
        rewrite (Hnone Hc). right. left. reflexivity.
      + destruct (unnumbered_fields r Hr Er) as (_ & _ & Hnone).
        rewrite (Hnone Hc). right. right. right. left. reflexivity. }
  split; [exact H|]. unfold improve_tree. rewrite H. reflexivity.
Qed.

Lemma tree_to_bytes_unnumbered_witness :
  tree_to_bytes docstring_tree = Raise TypeError /\
  improve_tree docstring_tree docstring_freq = Raise TypeError.
Proof.
  apply (tree_to_bytes_unnumbered docstring_tree docstring_freq).
  - reflexivity.
  - reflexivity.
  - vm_compute. lia.
Defined.

(** ** What the general strategy returns *)

Lemma helper_node_stubs : forall element,
  exists a b, helper_node element = Internal a b /\ is_stub a /\ is_stub b.
Proof.
  intros element. unfold helper_node, is_stub.
  repeat match goal with
         | |- context [if ?c then _ else _] => destruct c
         end; do 2 eexists; (split; [reflexivity|]); split; eauto.
Qed.

Lemma resolve_child_stub : forall huffman_lst c c',
  (forall h, In h huffman_lst ->
             exists a b, h = Internal a b /\ is_stub a /\ is_stub b) ->
  is_stub c ->
  resolve_child huffman_lst c = Ok c' ->
  (exists d, c' = Leaf d) \/ (exists a b, c' = Internal a b /\ is_stub a /\ is_stub b).
Proof.
  intros huffman_lst c c' Hlst [[d ->]|[n ->]] H.
  - cbn [Leaf resolve_child] in H. injection H as <-. left. eauto.
  - cbn [placeholder resolve_child index_by_number] in H. unfold py_index in H.
    destruct (if n <? 0 then len huffman_lst + n else n) as [|j|j];
      cbn [Z.ltb Z.compare] in H; try discriminate.
    + destruct (nth_error huffman_lst (Z.to_nat 0)) as [h|] eqn:E; [|discriminate].
      cbn [bind] in H. apply nth_error_In in E.
      destruct (Hlst h E) as (a & b & -> & Ha & Hb).
      cbn [Internal duplicate_node] in H. injection H as <-. right. eauto.
    + destruct (nth_error huffman_lst (Z.to_nat (Z.pos j))) as [h|] eqn:E;
        [|discriminate].
      cbn [bind] in H. apply nth_error_In in E.
      destruct (Hlst h E) as (a & b & -> & Ha & Hb).
      cbn [Internal duplicate_node] in H. injection H as <-. right. eauto.
Qed.

Lemma create_tree_resolved : forall huffman_lst fuel tree t,
  (forall h, In h huffman_lst ->
             exists a b, h = Internal a b /\ is_stub a /\ is_stub b) ->
  (exists d, tree = Leaf d) \/
  (exists a b, tree = Internal a b /\ is_stub a /\ is_stub b) ->
  create_tree huffman_lst fuel tree = Ok t ->
  resolved t = true.
Proof.
  intros huffman_lst fuel. induction fuel as [|fuel IH]; intros tree t Hlst Htree H;
    [discriminate|].
  destruct Htree as [[d ->]|(a & b & -> & Ha & Hb)].
  - cbn [Leaf create_tree] in H. injection H as <-. reflexivity.
  - cbn [Internal create_tree] in H.
    destruct (resolve_child huffman_lst a) as [a1|e] eqn:Ea; cbn [bind] in H;
      [|discriminate].
    destruct (resolve_child huffman_lst b) as [b1|e] eqn:Eb; cbn [bind] in H;
      [|discriminate].
    destruct (create_tree huffman_lst fuel b1) as [b2|e] eqn:Eb2; cbn [bind] in H;
      [|discriminate].
    destruct (create_tree huffman_lst fuel a1) as [a2|e] eqn:Ea2; cbn [bind] in H;
      [|discriminate].
    injection H as <-. cbn [resolved].
    rewrite (IH a1 a2 Hlst (resolve_child_stub _ _ _ Hlst Ha Ea) Ea2).
    rewrite (IH b1 b2 Hlst (resolve_child_stub _ _ _ Hlst Hb Eb) Eb2).
    reflexivity.
Qed.

(** X24: whatever the records, the root index and the depth allowed, a tree
    that [generate_tree_general] returns is fully built: every node is a
    leaf with a symbol or has two children, no placeholder is left, and no
    number is set. *)
Theorem generate_tree_general_resolved : forall fuel node_lst root_index t,
  generate_tree_general fuel node_lst root_index = Ok t ->
  resolved t = true /\ full t = true /\ erase_numbers t = t.
Proof.
  intros fuel node_lst root_index t H.
  assert (Hlst : forall h, In h (helper_generate_tree node_lst) ->
                           exists a b, h = Internal a b /\ is_stub a /\ is_stub b).
  { intros h Hh. unfold helper_generate_tree in Hh. apply in_map_iff in Hh.
    destruct Hh as (element & <- & _). apply helper_node_stubs. }
  assert (Hr : resolved t = true).
  { unfold generate_tree_general in H.
    destruct (py_index (helper_generate_tree node_lst) root_index) as [root|e] eqn:E;
      cbn [bind] in H; [|discriminate].
    assert (Hin : In root (helper_generate_tree node_lst)).
    { unfold py_index in E.
      destruct ((if root_index <? 0
                 then len (helper_generate_tree node_lst) + root_index
                 else root_index) <? 0); [discriminate|].
      destruct (nth_error (helper_generate_tree node_lst) _) as [h|] eqn:En;
        [|discriminate].
      injection E as <-. exact (nth_error_In _ _ En). }
    destruct (Hlst root Hin) as (a & b & -> & Ha & Hb).
    cbn [Internal duplicate_node bind] in H.
    apply (create_tree_resolved _ fuel (Internal a b) t Hlst); [|exact H].
    right. eauto. }
  split; [exact Hr|]. clear H. revert Hr.
  induction t as [|s l IHl r IHr n]; intros Hr; [discriminate|].
  cbn [resolved] in Hr. destruct s as [x|].
  - destruct l; [|discriminate]. destruct r; [|discriminate].
    destruct n; [discriminate|]. split; reflexivity.
  - destruct n; [discriminate|]. apply andb_true_iff in Hr. destruct Hr as [Hl Hr].
    destruct (IHl Hl) as [Fl El]. destruct (IHr Hr) as [Fr Er].
    cbn [full erase_numbers]. rewrite Fl, Fr, El, Er. split; [apply orb_true_r|reflexivity].
Qed.

Lemma generate_tree_general_resolved_witness :
  resolved (erase_numbers chain_tree) = true /\
  full (erase_numbers chain_tree) = true /\
  erase_numbers (erase_numbers chain_tree) = erase_numbers chain_tree.
Proof.
  apply (generate_tree_general_resolved 4 chain_records 2 (erase_numbers chain_tree)).
  reflexivity.
Defined.

(** ** Packing and unpacking with the codes of a tree *)

(** X25: for a tree whose root has no symbol and in which only childless
    nodes carry symbols, and a text that is not empty and is made of bytes
    that the tree carries, [generate_compressed] with the codes of the tree
    returns a payload from which [generate_uncompressed], asked for as many
    symbols as the text has, returns the text; bytes that follow the
    payload are ignored. *)
Theorem generate_uncompressed_generate_compressed : forall t text,
  leaf_symbols t = true ->
  symbol_of t = None ->
  text <> [] ->
  forallb is_byte text = true ->
  (forall s, In s text -> In s (tree_symbols t)) ->
  exists payload,
    generate_compressed text (get_codes t) = Ok payload /\
    forall extra, generate_uncompressed t (payload ++ extra) (len text) = Ok text.
Proof.
  intros t text Hl Hroot Hne Hbytes Hin.
  pose proof (get_codes_good t Hl Hroot) as Hg.
  assert (Hk : forall s, In s text -> In s (keys (get_codes t))).
  { intros s Hs. apply get_codes_internal_has_key. right. exact (Hin s Hs). }
  destruct (encode_bits (get_codes t) text Hg Hk) as [Hb Hnn].
  destruct (generate_compressed_groups_bits (encode (get_codes t) text) (Hnn Hne) Hb)
    as (payload & pad & Hp & _ & Hflat & _).
  exists payload. split.
  - unfold generate_compressed. rewrite (concat_codes_encode text _ [] Hk).
    cbn [bind app]. exact Hp.
  - intros extra. unfold generate_uncompressed.
    rewrite flat_map_app, Hflat, <- app_assoc.
    rewrite (decode_bits_encode (get_codes t) text [] (len text) _ Hg Hk Hne).
    + cbn [app]. apply to_bytes_bytes. exact Hbytes.
    + unfold len. cbn [length]. lia.
Qed.

Lemma generate_uncompressed_generate_compressed_witness :
  exists payload,
    generate_compressed [1; 2; 1; 3] (get_codes chain_tree) = Ok payload /\
    forall extra, generate_uncompressed chain_tree (payload ++ extra) (len [1; 2; 1; 3])
                  = Ok [1; 2; 1; 3].
Proof.
  apply (generate_uncompressed_generate_compressed chain_tree [1; 2; 1; 3]).
  - reflexivity.
  - reflexivity.
  - discriminate.
  - reflexivity.
  - cbn [chain_tree Leaf tree_symbols app In]. intros s H.
    repeat match goal with H : _ \/ _ |- _ => destruct H end; auto; contradiction.
Defined.

Lemma concat_codes_missing : forall text codes comp_text,
  (exists s, In s text /\ dict_get codes s = None) ->
  concat_codes text codes comp_text = Raise KeyError.
Proof.
  induction text as [|x text IH]; intros codes comp_text (s & Hin & Hs).
  - destruct Hin.
  - cbn [concat_codes]. unfold dict_lookup.
    destruct (dict_get codes x) as [c|] eqn:Ex; cbn [bind]; [|reflexivity].
    apply IH. exists s. split; [|exact Hs].
    destruct Hin as [->|Hin]; [congruence|exact Hin].
Qed.

(** X26: [generate_compressed] raises [KeyError] as soon as a symbol of the
    text has no code in the table, whatever the other symbols. *)
Theorem generate_compressed_missing_code : forall text codes s,
  In s text -> dict_get codes s = None ->
  generate_compressed text codes = Raise KeyError.
Proof.
  intros text codes s Hin Hs. unfold generate_compressed.
  rewrite (concat_codes_missing text codes []); [reflexivity|]. eauto.
Qed.

Lemma generate_compressed_missing_code_witness :
  generate_compressed [1; 2; 7] doctest_codes = Raise KeyError.
Proof. apply (generate_compressed_missing_code [1; 2; 7] doctest_codes 7); cbn; auto. Defined.

Lemma decode_bits_bounded : forall codes size one_bit new_bit lst_byte,
  len lst_byte < size ->
  len (decode_bits codes size one_bit new_bit lst_byte) <= size.
Proof.
  intros codes size one_bit. induction one_bit as [|b rest IH];
    intros new_bit lst_byte Hlt; cbn [decode_bits].
  - lia.
  - destruct (dict_get codes (new_bit ++ [b])) as [symbol|].
    + destruct (Z.eqb_spec (len (lst_byte ++ [symbol])) size) as [E|E]; [lia|].
      apply IH. unfold len in *. rewrite length_app in *. cbn [length] in *. lia.
    + apply IH. exact Hlt.
Qed.

Lemma decode_bits_no_limit : forall codes size one_bit new_bit lst_byte,
  size <= 0 ->
  decode_bits codes size one_bit new_bit lst_byte =
  decode_all_bits codes one_bit new_bit lst_byte.
Proof.
  intros codes size one_bit. induction one_bit as [|b rest IH];
    intros new_bit lst_byte Hs; cbn [decode_bits decode_all_bits].
  - reflexivity.
  - destruct (dict_get codes (new_bit ++ [b])) as [symbol|].
    + destruct (Z.eqb_spec (len (lst_byte ++ [symbol])) size) as [E|E].
      * unfold len in E. rewrite length_app in E. cbn [length] in E. lia.
      * apply IH. exact Hs.
    + apply IH. exact Hs.
Qed.

(** X27: [generate_uncompressed] never returns more than [size] symbols
    when [size] is positive; for a [size] of zero or less the limit is never
    met and it returns every symbol that the payload holds, not the empty
    bytes. *)
Theorem generate_uncompressed_size : forall tree text size,
  (1 <= size ->
   forall out, generate_uncompressed tree text size = Ok out -> len out <= size) /\
  (size <= 0 ->
   generate_uncompressed tree text size = to_bytes (map Some (payload_symbols tree text))).
Proof.
  intros tree text size. split.
  - intros Hs out H. unfold generate_uncompressed in H.
    pose proof (decode_bits_bounded (invert_dict (get_codes tree)) size
                  (flat_map byte_to_bits text) [] []) as Hb.
    assert (Hlen : forall l out', to_bytes (map Some l) = Ok out' -> out' = l).
    { induction l as [|x l IHl]; intros out' Ho; cbn [map to_bytes] in Ho.
      - injection Ho as <-. reflexivity.
      - destruct (is_byte x); [|discriminate].
        destruct (to_bytes (map Some l)) as [bs|e] eqn:E; cbn [bind] in Ho;
          [|discriminate].
        injection Ho as <-. rewrite (IHl bs eq_refl). reflexivity. }
    rewrite (Hlen _ _ H). apply Hb. unfold len. cbn [length]. lia.
  - intros Hs. unfold generate_uncompressed, payload_symbols.
    rewrite decode_bits_no_limit by exact Hs. reflexivity.
Qed.


(** ** The average length *)

Lemma avg_sums_missing : forall codes freq_dict sums s,
  (exists k, In k (keys codes) /\ dict_get freq_dict k = None) ->
  avg_sums codes freq_dict sums s = Raise KeyError.
Proof.
  induction codes as [|[key value] codes IH]; intros freq_dict sums s (k & Hin & Hk).
  - destruct Hin.
  - cbn [avg_sums]. unfold dict_lookup.
    destruct (dict_get freq_dict key) as [f|] eqn:Ef; cbn [bind]; [|reflexivity].
    apply IH. exists k. split; [|exact Hk].
    cbn [keys map fst In] in Hin. destruct Hin as [->|Hin]; [congruence|exact Hin].
Qed.

(** X28: on a tree that is not [None], [avg_length] raises [KeyError] when
    some symbol of the tree has no entry in the frequency table, whatever
    the other entries, and [ZeroDivisionError] when no node of the tree
    carries a symbol. *)
Theorem avg_length_raises : forall tree freq_dict,
  is_none tree = false ->
  ((exists k, In k (tree_symbols tree) /\ dict_get freq_dict k = None) ->
   avg_length tree freq_dict = Raise KeyError) /\
  (tree_symbols tree = [] -> avg_length tree freq_dict = Raise ZeroDivisionError).
Proof.
  intros tree freq_dict Hn. unfold avg_length. rewrite Hn. split.
  - intros (k & Hin & Hk). rewrite avg_sums_missing; [reflexivity|].
    exists k. split; [|exact Hk]. apply get_codes_internal_has_key. right. exact Hin.
  - intros He.
    assert (Hc : get_codes tree = []).
    { destruct (get_codes tree) as [|[k c] rest] eqn:E; [reflexivity|].
      assert (Hin : In k (keys (get_codes tree))) by (rewrite E; left; reflexivity).
      apply get_codes_keys in Hin. rewrite He in Hin. destruct Hin. }
    rewrite Hc. reflexivity.
Qed.

Lemma avg_length_raises_witness :
  ((exists k, In k (tree_symbols chain_tree) /\ dict_get [(1, 5); (2, 3)] k = None) ->
   avg_length chain_tree [(1, 5); (2, 3)] = Raise KeyError) /\
  (tree_symbols chain_tree = [] ->
   avg_length chain_tree [(1, 5); (2, 3)] = Raise ZeroDivisionError).
Proof. apply (avg_length_raises chain_tree [(1, 5); (2, 3)]). reflexivity. Defined.

(** ** The artifact *)

Lemma byte_to_bits_length : forall b, length (byte_to_bits b) = 8%nat.
Proof. intros b. unfold byte_to_bits. rewrite length_map. reflexivity. Qed.

Lemma flat_map_byte_to_bits_length : forall payload,
  length (flat_map byte_to_bits payload) = (8 * length payload)%nat.
Proof.
  induction payload as [|b payload IH]; cbn [flat_map length]; [reflexivity|].
  rewrite length_app, byte_to_bits_length, IH. lia.
Qed.

(** The parts of the artifact that [compress] returns for a text with two
    distinct bytes or more: the count of internal nodes, the records of the
    numbered tree, the four bytes of the size and the payload. *)
Lemma compress_parts : forall node_lt text,
  forallb is_byte text = true ->
  (2 <= length (make_freq_dict text))%nat ->
  len text < 2 ^ 32 ->
  exists t t' s4 payload pad,
    huffman_tree node_lt (make_freq_dict text) = Ok t /\
    (huffman_shape t' = true /\ leafb t' = false /\ numbered_from t' 0 /\
     number_of t' = Some (Z.of_nat (count_internal t') - 1) /\
     S (count_internal t') = length (make_freq_dict text) /\
     (count_internal t' <= 255)%nat /\
     get_codes t' = get_codes t) /\
    (good_codes (get_codes t) /\
     (forall s, In s text -> In s (keys (get_codes t)))) /\
    (length s4 = 4%nat /\ bytes_to_size s4 = len text /\ forallb is_byte s4 = true) /\
    (forallb is_byte payload = true /\
     flat_map byte_to_bits payload = encode (get_codes t) text ++ repeat "0"%char pad /\
     (pad < 8)%nat) /\
    compress node_lt text =
    Ok (([Z.of_nat (count_internal t')] ++ flat_map record_bytes (read_nodes t') ++ s4)
          ++ payload).
Proof.
  intros node_lt text Hbytes Hlen Hsize.
  destruct (make_freq_dict_spec text) as (Hnd & Hkeys & Hpos).
  destruct (huffman_tree_shape node_lt text Hbytes Hlen)
    as (t & Ht & Hs & Hleaf & Hroot & Hperm).
  assert (Hne : text <> []).
  { intros ->. cbn [make_freq_dict fold_left length] in Hlen. lia. }
  set (freq := make_freq_dict text) in *.
  set (k := count_internal t).
  set (t' := label (label t 0 1) (Z.of_nat k - 1) (-1)).
  assert (Hc : length (tree_symbols t) = S k) by (apply huffman_shape_leaf_count; exact Hs).
  assert (Hl : length (tree_symbols t) = length freq).
  { rewrite (Permutation_length Hperm). unfold keys. apply length_map. }
  assert (Hk : (1 <= k <= 255)%nat).
  { assert (Hd : (length (tree_symbols t) <= 256)%nat).
    { apply distinct_bytes; [|apply huffman_shape_symbols_bytes; exact Hs].
      apply (Permutation_NoDup (Permutation_sym Hperm)). exact Hnd. }
    lia. }
  assert (Hnum : number_nodes t = Ok t').
  { apply number_nodes_label; [apply huffman_shape_full; exact Hs|].
    destruct t; [discriminate|]. cbn [is_leaf leafb] in *. rewrite Hleaf. reflexivity. }
  assert (Hun : unnumbered t' = unnumbered t).
  { unfold t'. rewrite !label_unnumbered. reflexivity. }
  assert (Hs' : huffman_shape t' = true).
  { rewrite <- unnumbered_huffman_shape, Hun, unnumbered_huffman_shape. exact Hs. }
  assert (Hleaf' : leafb t' = false).
  { rewrite <- unnumbered_leafb, Hun, unnumbered_leafb. exact Hleaf. }
  assert (Hk' : count_internal t' = k).
  { rewrite <- unnumbered_count_internal, Hun, unnumbered_count_internal. reflexivity. }
  assert (Hcodes' : get_codes t' = get_codes t).
  { unfold get_codes. rewrite <- unnumbered_get_codes, Hun, unnumbered_get_codes.
    reflexivity. }
  assert (Hn' : numbered_from t' 0).
  { apply postorder_numbered_from. rewrite Hk'.
    apply number_nodes_numbered. apply huffman_shape_full. exact Hs. }
  assert (Hroot' : number_of t' = Some (Z.of_nat k - 1)).
  { assert (G : get_number t' = Ok (Some (Z.of_nat k - 1))).
    { apply label_root_number. rewrite label_is_leaf.
      destruct t; [discriminate|]. cbn [is_leaf leafb] in *. rewrite Hleaf. reflexivity. }
    destruct t'; [discriminate|]. cbn [get_number number_of] in *. congruence. }
  assert (Hgood : good_codes (get_codes t)).
  { apply get_codes_good; [apply huffman_shape_leaf_symbols; exact Hs|exact Hroot]. }
  assert (Hcover : forall s, In s text -> In s (keys (get_codes t))).
  { intros s Hin. apply get_codes_internal_has_key. right.
    apply (Permutation_in s (Permutation_sym Hperm)). apply Hkeys. exact Hin. }
  destruct (avg_length_ok t' freq) as [a Ha].
  { apply huffman_shape_not_none. exact Hs'. }
  { rewrite Hcodes'. destruct text as [|s text]; [congruence|].
    intros E. specialize (Hcover s (or_introl eq_refl)). rewrite E in Hcover.
    destruct Hcover. }
  { intros x Hx. rewrite Hcodes' in Hx. apply get_codes_keys in Hx.
    apply (Permutation_in x Hperm) in Hx.
    destruct (key_dict_get Z Z freq x Hx) as [f Hf]. exists f. split; [exact Hf|].
    apply (Hpos x f). apply (dict_get_in Z Z). exact Hf. }
  assert (Hnn : num_nodes_to_bytes t' = Ok [Z.of_nat k]).
  { unfold num_nodes_to_bytes. destruct t' as [|s' l' r' n']; [discriminate|].
    cbn [number_of] in Hroot'. subst n'. cbn [get_number bind to_bytes].
    replace (Z.of_nat k - 1 + 1) with (Z.of_nat k) by lia.
    assert (Hb : is_byte (Z.of_nat k) = true).
    { unfold is_byte. apply andb_true_iff. split; [apply Z.leb_le|apply Z.ltb_lt]; lia. }
    rewrite Hb. reflexivity. }
  assert (Htb : tree_to_bytes t' = Ok (flat_map record_bytes (read_nodes t'))).
  { apply tree_to_bytes_read_nodes; try assumption. lia. }
  assert (Hsb : size_to_bytes (len text) =
                Ok [len text mod 256; (len text / 256) mod 256;
                    (len text / 65536) mod 256; (len text / 16777216) mod 256]).
  { unfold size_to_bytes.
    destruct (Z.leb_spec 0 (len text)) as [_|E]; [|unfold len in E; lia].
    destruct (Z.ltb_spec (len text) (2 ^ 32)) as [_|E]; [|lia]. reflexivity. }
  destruct (size_to_bytes_inverse (len text)) as (b0 & b1 & b2 & b3 & Hsb' & Hbs).
  { unfold len in *. lia. }
  rewrite Hsb in Hsb'. injection Hsb' as <- <- <- <-.
  destruct (encode_bits (get_codes t) text Hgood Hcover) as [Hb Hnn'].
  destruct (generate_compressed_groups_bits (encode (get_codes t) text) (Hnn' Hne) Hb)
    as (payload & pad & Hp & Hpb & Hflat & Hpad).
  exists t, t', [len text mod 256; (len text / 256) mod 256;
                 (len text / 65536) mod 256; (len text / 16777216) mod 256], payload, pad.
  rewrite Hk'.
  split; [exact Ht|]. split.
  { repeat split; try assumption; lia. }
  split; [split; assumption|]. split.
  { split; [reflexivity|]. split; [exact Hbs|].
    unfold is_byte. cbn [forallb].
    pose proof (Z.mod_pos_bound (len text) 256 ltac:(lia)).
    pose proof (Z.mod_pos_bound (len text / 256) 256 ltac:(lia)).
    pose proof (Z.mod_pos_bound (len text / 65536) 256 ltac:(lia)).
    pose proof (Z.mod_pos_bound (len text / 16777216) 256 ltac:(lia)).
    repeat (apply andb_true_iff; split); try reflexivity;
      try (apply Z.leb_le; lia); apply Z.ltb_lt; lia. }
  split; [repeat split; assumption|].
  unfold compress. fold freq. rewrite Ht. cbn [bind]. rewrite Hnum. cbn [bind].
  rewrite Ha. cbn [bind]. rewrite Hnn. cbn [bind]. rewrite Htb. cbn [bind].
  rewrite Hsb. cbn [bind]. unfold generate_compressed.
  rewrite (concat_codes_encode text _ [] Hcover). cbn [bind app]. rewrite Hp.
  reflexivity.
Qed.

(** X29: for a text of fewer than 2^32 bytes in which [d] distinct bytes
    occur, [d] being two or more, [compress] returns an artifact made of
    bytes, whose first byte is [d - 1], the count of internal nodes, and
    whose length is [1 + 4 * (d - 1) + 4] plus the number of bits of the
    coded text divided by eight and rounded up. *)
Theorem compress_layout : forall node_lt text,
  forallb is_byte text = true ->
  (2 <= length (make_freq_dict text))%nat ->
  len text < 2 ^ 32 ->
  exists tree data,
    huffman_tree node_lt (make_freq_dict text) = Ok tree /\
    compress node_lt text = Ok data /\
    forallb is_byte data = true /\
    nth_error data 0 = Some (len (make_freq_dict text) - 1) /\
    len data = 1 + 4 * (len (make_freq_dict text) - 1) + 4
               + (len (encode (get_codes tree) text) + 7) / 8.
Proof.
  intros node_lt text Hbytes Hlen Hsize.
  destruct (compress_parts node_lt text Hbytes Hlen Hsize)
    as (t & t' & s4 & payload & pad & Ht & (Hs & Hleaf & Hn & _ & Hk & Hk255 & _)
        & _ & (Hs4 & _ & Hs4b) & (Hpb & Hflat & Hpad) & Hc).
  exists t, (([Z.of_nat (count_internal t')] ++ flat_map record_bytes (read_nodes t') ++ s4)
               ++ payload).
  split; [exact Ht|]. split; [exact Hc|].
  assert (Hd : len (make_freq_dict text) - 1 = Z.of_nat (count_internal t')).
  { unfold len. lia. }
  split; [|split].
  - destruct (serialize_ok t' 0 Hs Hn) as [_ Hrb]; [lia|].
    rewrite !forallb_app, Hrb, Hs4b, Hpb. cbn [forallb].
    unfold is_byte.
    destruct (Z.leb_spec 0 (Z.of_nat (count_internal t'))) as [_|E]; [|lia].
    destruct (Z.ltb_spec (Z.of_nat (count_internal t')) 256) as [_|E]; [|lia].
    reflexivity.
  - rewrite Hd. reflexivity.
  - apply (f_equal (@length ascii)) in Hflat.
    rewrite flat_map_byte_to_bits_length, length_app, repeat_length in Hflat.
    rewrite Hd. unfold len. rewrite !length_app, read_nodes_bytes_length, Hs4.
    cbn [length].
    assert (Hdiv : (Z.of_nat (length (encode (get_codes t) text)) + 7) / 8
                   = Z.of_nat (length payload)).
    { symmetry. apply (Z.div_unique _ 8 _ (7 - Z.of_nat pad)); lia. }
    rewrite Hdiv. lia.
Qed.

Lemma compress_layout_witness :
  exists tree data,
    huffman_tree (fun _ _ => false) (make_freq_dict [65; 66; 67; 66]) = Ok tree /\
    compress (fun _ _ => false) [65; 66; 67; 66] = Ok data /\
    forallb is_byte data = true /\
    nth_error data 0 = Some (len (make_freq_dict [65; 66; 67; 66]) - 1) /\
    len data = 1 + 4 * (len (make_freq_dict [65; 66; 67; 66]) - 1) + 4
               + (len (encode (get_codes tree) [65; 66; 67; 66]) + 7) / 8.
Proof.
  apply (compress_layout (fun _ _ => false) [65; 66; 67; 66]).
  - reflexivity.
  - vm_compute. lia.
  - vm_compute. reflexivity.
Defined.

(** X30: the artifact that [compress] returns for a text of fewer than 2^32
    bytes with two distinct bytes or more is read back by [uncompress], with
    a recursion depth of 256 or more, into the text, also when other bytes
    follow the artifact: what comes after the coded text is not read. *)
Theorem uncompress_compress_trailing : forall node_lt text fuel extra,
  forallb is_byte text = true ->
  (2 <= length (make_freq_dict text))%nat ->
  len text < 2 ^ 32 ->
  (256 <= fuel)%nat ->
  exists data,
    compress node_lt text = Ok data /\ uncompress fuel (data ++ extra) = Ok text.
Proof.
  intros node_lt text fuel extra Hbytes Hlen Hsize Hfuel.
  destruct (compress_parts node_lt text Hbytes Hlen Hsize)
    as (t & t' & s4 & payload & pad & Ht
        & (Hs & Hleaf & Hn & Hroot & Hk & Hk255 & Hcodes)
        & (Hgood & Hcover) & (Hs4 & Hbs & _) & (_ & Hflat & _) & Hc).
  assert (Hne : text <> []).
  { intros ->. cbn [make_freq_dict fold_left length] in Hlen. lia. }
  exists (([Z.of_nat (count_internal t')] ++ flat_map record_bytes (read_nodes t') ++ s4)
            ++ payload).
  split; [exact Hc|].
  unfold uncompress. rewrite <- !app_assoc. cbn [app firstn skipn].
  rewrite py_index_head. cbn [bind].
  assert (Hbl : length (flat_map record_bytes (read_nodes t'))
                = Z.to_nat (Z.of_nat (count_internal t') * 4)).
  { rewrite read_nodes_bytes_length. lia. }
  rewrite (firstn_app_exact _ _ _ _ Hbl), (skipn_app_exact _ _ _ _ Hbl).
  rewrite bytes_to_nodes_records. cbn [bind].
  rewrite (generate_tree_general_read_nodes t' fuel (Z.of_nat (count_internal t') - 1));
    try assumption.
  2:{ pose proof (huffman_shape_height t' Hs). lia. }
  cbn [bind].
  destruct s4 as [|b0 [|b1 [|b2 [|b3 [|b4 s4]]]]]; try discriminate Hs4.
  cbn [app]. rewrite Hbs.
  unfold generate_uncompressed, get_codes.
  rewrite erase_numbers_get_codes. fold (get_codes t').
  rewrite Hcodes, flat_map_app, Hflat, <- app_assoc.
  rewrite (decode_bits_encode (get_codes t) text [] (len text) _ Hgood Hcover Hne).
  - cbn [app]. apply to_bytes_bytes. exact Hbytes.
  - unfold len. cbn [length]. lia.
Qed.

Lemma uncompress_compress_trailing_witness :
  exists data,
    compress (fun _ _ => false) [65; 66; 67; 66] = Ok data /\
    uncompress 256 (data ++ [255; 0; 7]) = Ok [65; 66; 67; 66].
Proof.
  apply (uncompress_compress_trailing (fun _ _ => false) [65; 66; 67; 66] 256%nat
           [255; 0; 7]).
  - reflexivity.
  - vm_compute. lia.
  - vm_compute. reflexivity.
  - lia.
Defined.
